(** * Pose estimators of the AUT.710 exercise servers

    Shallow embedding of the numerical core of
    [py_server_3/server_task1.py] (Monte-Carlo ensemble propagator) and
    [py_server_3/server_task2.py] (extended Kalman filter with
    nearest-neighbour data association).

    Python floats are idealised as real numbers.  The reals have no
    [nan]/[inf]: a float division by [0.0], which numpy answers with
    [nan]/[inf] and a RuntimeWarning, has no real value and is the error
    [NotANumber]; the exceptions the code can raise ([LinAlgError],
    [IndexError], [ValueError]) are errors as well.  Of the ROS wiring, the
    order in which the callbacks run and the stamps of the messages are
    kept ([Node1], [Node2]); of the plots, the indices they read. *)

From Stdlib Require Import Reals Lra Lia List Arith Psatz Permutation.
Import ListNotations.
Local Open Scope R_scope.

(** ** Results of fallible code *)

Inductive error : Type :=
| NotANumber    (* x / 0.0 on floats: nan or inf, no real value *)
| LinAlgError   (* np.linalg.inv of a singular matrix *)
| IndexError    (* index past the end of a preallocated array *)
| ValueError.   (* np.random.normal with a negative scale *)

Inductive result (T : Type) : Type :=
| Ok (a : T)
| Err (e : error).

Arguments Ok {T} a.
Arguments Err {T} e.

Definition bind {T U : Type} (c : result T) (k : T -> result U) : result U :=
  match c with
  | Ok a => k a
  | Err e => Err e
  end.

Notation "x <- c ;; k" := (bind c (fun x => k))
  (at level 61, c at next level, right associativity).

Definition is_ok {T : Type} (c : result T) : Prop :=
  match c with Ok _ => True | Err _ => False end.

(** [on_ok Q c]: the run [c] raised nothing and its outcome satisfies [Q]. *)
Definition on_ok {T : Type} (Q : T -> Prop) (c : result T) : Prop :=
  match c with Ok a => Q a | Err _ => False end.

(** [if_ok Q c]: whenever the run [c] produces an outcome, it satisfies [Q]. *)
Definition if_ok {T : Type} (Q : T -> Prop) (c : result T) : Prop :=
  match c with Ok a => Q a | Err _ => True end.

(** Monadic left fold: a [for] loop whose body may raise. *)
Fixpoint for_each {T S : Type} (body : T -> S -> result S) (l : list T) (s : S)
  : result S :=
  match l with
  | [] => Ok s
  | i :: rest => s' <- body i s ;; for_each body rest s'
  end.

(** Preallocated numpy arrays ([np.zeros(n + 1)]), indexed by tick.  The
    contents are a total map; the length is enforced by [check_index] at
    every write. *)
Definition array (T : Type) : Type := nat -> T.

Definition store {T : Type} (a : array T) (n : nat) (v : T) : array T :=
  fun k => if Nat.eqb k n then v else a k.

Definition check_index (index limit : nat) : result unit :=
  if Nat.leb index limit then Ok tt else Err IndexError.

(** ** The numpy fragment the servers use: 3-vectors and 3x3 matrices *)

Module Np.

Record vec3 : Type := mkvec { v0 : R; v1 : R; v2 : R }.

(** A matrix is its three rows. *)
Record mat3 : Type := mkmat { row0 : vec3; row1 : vec3; row2 : vec3 }.

(** [v[k]] for [k] in [0..2] (the only indices the code produces). *)
Definition vget (v : vec3) (k : nat) : R :=
  match k with
  | O => v0 v
  | S O => v1 v
  | _ => v2 v
  end.

Definition vset (v : vec3) (k : nat) (a : R) : vec3 :=
  match k with
  | O => mkvec a (v1 v) (v2 v)
  | S O => mkvec (v0 v) a (v2 v)
  | _ => mkvec (v0 v) (v1 v) a
  end.

(** [M[j:j+1, 0:3]] *)
Definition row (M : mat3) (j : nat) : vec3 :=
  match j with
  | O => row0 M
  | S O => row1 M
  | _ => row2 M
  end.

(** [M[j, :] = r] *)
Definition set_row (M : mat3) (j : nat) (r : vec3) : mat3 :=
  match j with
  | O => mkmat r (row1 M) (row2 M)
  | S O => mkmat (row0 M) r (row2 M)
  | _ => mkmat (row0 M) (row1 M) r
  end.

Definition col (M : mat3) (k : nat) : vec3 :=
  mkvec (vget (row0 M) k) (vget (row1 M) k) (vget (row2 M) k).

(** [M[i, k]] and [M[i, k] = a] *)
Definition get (M : mat3) (i k : nat) : R := vget (row M i) k.

Definition set (M : mat3) (i k : nat) (a : R) : mat3 :=
  set_row M i (vset (row M i) k a).

Definition zeros : mat3 :=
  mkmat (mkvec 0 0 0) (mkvec 0 0 0) (mkvec 0 0 0).

Definition eye : mat3 :=
  mkmat (mkvec 1 0 0) (mkvec 0 1 0) (mkvec 0 0 1).

Definition dot (u v : vec3) : R := v0 u * v0 v + v1 u * v1 v + v2 u * v2 v.

Definition vadd (u v : vec3) : vec3 :=
  mkvec (v0 u + v0 v) (v1 u + v1 v) (v2 u + v2 v).

(** [v * c] and [c * v] with a scalar [c] *)
Definition vscale_r (v : vec3) (c : R) : vec3 :=
  mkvec (v0 v * c) (v1 v * c) (v2 v * c).

Definition vscale (c : R) (v : vec3) : vec3 :=
  mkvec (c * v0 v) (c * v1 v) (c * v2 v).

(** [v / d] with a Python float [d]: [nan]/[inf] when [d == 0.0]. *)
Definition vdiv (v : vec3) (d : R) : result vec3 :=
  if Req_dec_T d 0 then Err NotANumber
  else Ok (mkvec (v0 v / d) (v1 v / d) (v2 v / d)).

Definition madd (A B : mat3) : mat3 :=
  mkmat (vadd (row0 A) (row0 B)) (vadd (row1 A) (row1 B))
        (vadd (row2 A) (row2 B)).

Definition vsub (u v : vec3) : vec3 :=
  mkvec (v0 u - v0 v) (v1 u - v1 v) (v2 u - v2 v).

Definition msub (A B : mat3) : mat3 :=
  mkmat (vsub (row0 A) (row0 B)) (vsub (row1 A) (row1 B))
        (vsub (row2 A) (row2 B)).

Definition mscale (c : R) (A : mat3) : mat3 :=
  mkmat (vscale c (row0 A)) (vscale c (row1 A)) (vscale c (row2 A)).

(** [A * c] with a scalar [c] *)
Definition mscale_r (A : mat3) (c : R) : mat3 :=
  mkmat (vscale_r (row0 A) c) (vscale_r (row1 A) c) (vscale_r (row2 A) c).

(** [A.T] *)
Definition transpose (A : mat3) : mat3 :=
  mkmat (col A 0) (col A 1) (col A 2).

(** [h @ B] for a 1x3 row [h]: again a 1x3 row. *)
Definition row_mat (h : vec3) (B : mat3) : vec3 :=
  mkvec (dot h (col B 0)) (dot h (col B 1)) (dot h (col B 2)).

(** [A @ h.T] for a 1x3 row [h]: a 3x1 column. *)
Definition mat_col (A : mat3) (h : vec3) : vec3 :=
  mkvec (dot (row0 A) h) (dot (row1 A) h) (dot (row2 A) h).

(** [A @ B] *)
Definition matmul (A B : mat3) : mat3 :=
  mkmat (row_mat (row0 A) B) (row_mat (row1 A) B) (row_mat (row2 A) B).

(** [K @ h] for a 3x1 column [K] and a 1x3 row [h]: a 3x3 matrix. *)
Definition outer (K h : vec3) : mat3 :=
  mkmat (vscale (v0 K) h) (vscale (v1 K) h) (vscale (v2 K) h).

(** [np.linalg.inv] of a 1x1 matrix. *)
Definition inv (s : R) : result R :=
  if Req_dec_T s 0 then Err LinAlgError else Ok (/ s).

(** [np.argmin] of a Python list: the index of the first least entry
    ([0] stands for the ValueError of an empty list, which no caller
    produces). *)
Fixpoint argmin_from (best : R) (besti k : nat) (l : list R) : nat :=
  match l with
  | [] => besti
  | a :: rest =>
      if Rlt_dec a best then argmin_from a k (S k) rest
      else argmin_from best besti (S k) rest
  end.

Definition argmin (l : list R) : nat :=
  match l with
  | [] => O
  | a :: rest => argmin_from a 0 1 rest
  end.

(** [np.random.normal(loc, scale)]: [loc + scale * xi] for a standard
    normal draw [xi], supplied by the caller. *)
Definition random_normal (loc scale xi : R) : result R :=
  if Rlt_dec scale 0 then Err ValueError else Ok (loc + scale * xi).

End Np.

(** ** server_task1.py: the Monte-Carlo ensemble propagator *)

Module Task1.
Import Np.

Definition INTERVAL : R := 0.1.
Definition D : R := 0.4.
(** The wheel radius, [R] in the source. *)
Definition R_ : R := 0.1.
Definition UNCERTAINTY_MODEL : list R := [20; 6; 25; 8].
Definition MESSAGE_LIMIT : nat := 2216.

(** The logged trajectories, [np.zeros((101, MESSAGE_LIMIT + 1))]:
    [x_euler self i k] is [self.x_euler[i, k]], member [i] at tick [k]. *)
Record Server : Type := mkServer {
  x_euler : array (array R);
  y_euler : array (array R);
  yaw_euler : array (array R);
  message_count : nat
}.

(** The state [Server.__init__] builds. *)
Definition init : Server :=
  mkServer (fun _ _ => 0) (fun _ _ => 0) (fun _ _ => 0) 0.

Definition store2 (a : array (array R)) (i k : nat) (v : R)
  : array (array R) :=
  store a i (store (a i) k v).

(** The column [message_count - 1]; numpy reads index [-1] as the last
    column. *)
Definition previous (count : nat) : nat :=
  match count with
  | O => MESSAGE_LIMIT
  | S c => c
  end.

Definition rot_head (wl wr : R) : R :=
  let wl := wl * PI / 30 in
  let wr := wr * PI / 30 in
  INTERVAL * R_ * (wr - wl) / (2 * D).

Definition trans_head (wl wr : R) : R :=
  let wl := wl * PI / 30 in
  let wr := wr * PI / 30 in
  INTERVAL * R_ * (wr + wl) / 2.

Definition epsilon_rot (rot_head trans_head : R) : R :=
  nth 0 UNCERTAINTY_MODEL 0 * (rot_head ^ 2)
  + nth 1 UNCERTAINTY_MODEL 0 * (trans_head ^ 2).

Definition epsilon_trans (rot_head trans_head : R) : R :=
  nth 2 UNCERTAINTY_MODEL 0 * (trans_head ^ 2)
  + nth 3 UNCERTAINTY_MODEL 0 * 2 * (rot_head ^ 2).

(** "Regulate the psi": one conditional turn, no loop. *)
Definition regulate (yaw_euler : R) : R :=
  if Rgt_dec yaw_euler PI then yaw_euler - 2 * PI
  else if Rlt_dec yaw_euler (- PI) then yaw_euler + 2 * PI
  else yaw_euler.

(** The pose of member [i] before regulation; [draws] holds the three
    standard-normal draws behind the member's [np.random.normal] calls. *)
Definition propagate (rot_head trans_head epsilon_rot epsilon_trans : R)
    (draws : R * R * R) (i : nat) (state_k : vec3) : result vec3 :=
  if Nat.ltb 0 i then
    n1 <- random_normal 0 epsilon_rot (fst (fst draws)) ;;
    let sigma_rot_1 := rot_head + n1 in
    n2 <- random_normal 0 epsilon_rot (snd (fst draws)) ;;
    let sigma_rot_2 := rot_head + n2 in
    n3 <- random_normal 0 epsilon_trans (snd draws) ;;
    let sigma_trans := trans_head + n3 in
    Ok (mkvec (v0 state_k + sigma_trans * cos (v2 state_k + sigma_rot_1))
              (v1 state_k + sigma_trans * sin (v2 state_k + sigma_rot_1))
              (v2 state_k + sigma_rot_1 + sigma_rot_2))
  else
    Ok (mkvec (v0 state_k + trans_head * cos (v2 state_k + rot_head))
              (v1 state_k + trans_head * sin (v2 state_k + rot_head))
              (v2 state_k + 2 * rot_head)).

(** The body of [for i in range(0, 101)]. *)
Definition member_step (rot_head trans_head epsilon_rot epsilon_trans : R)
    (draws : nat -> R * R * R) (i : nat) (self : Server) : result Server :=
  let k := message_count self in
  _ <- check_index (previous k) MESSAGE_LIMIT ;;
  let state_k := mkvec (x_euler self i (previous k))
                       (y_euler self i (previous k))
                       (yaw_euler self i (previous k)) in
  pose <- propagate rot_head trans_head epsilon_rot epsilon_trans
            (draws i) i state_k ;;
  let yaw_euler' := regulate (v2 pose) in
  _ <- check_index k MESSAGE_LIMIT ;;
  Ok (mkServer (store2 (x_euler self) i k (v0 pose))
               (store2 (y_euler self) i k (v1 pose))
               (store2 (yaw_euler self) i k yaw_euler')
               k).

(** [Server.step_calculation]; [draws i] holds the standard-normal draws
    of member [i] at this tick, in the order of its three
    [np.random.normal] calls. *)
Definition step_calculation (self : Server) (wl wr : R)
    (draws : nat -> R * R * R) : result Server :=
  let rot := rot_head wl wr in
  let trans := trans_head wl wr in
  for_each (member_step rot trans (epsilon_rot rot trans)
              (epsilon_trans rot trans) draws)
           (seq 0 101) self.

(** [Server.listener_callback], with [data = (msg.data[0], msg.data[1])]. *)
Definition listener_callback (self : Server) (data : R * R)
    (draws : nat -> R * R * R) : result Server :=
  let self := mkServer (x_euler self) (y_euler self) (yaw_euler self)
                (message_count self + 1) in
  step_calculation self (fst data) (snd data) draws.

End Task1.

(** ** server_task2.py: the extended Kalman filter *)

Module Task2.
Import Np.

Definition INTERVAL : R := 0.1.
Definition D : R := 0.44.
Definition Radius : R := 0.12.
Definition ODOM_LIMIT : nat := 383.
Definition SENSOR_LIMIT : nat := 127.
(** The measurement noise, [R] in the source: [np.eye(3) * 0.000025]. *)
Definition R_ : mat3 := mscale_r eye 0.000025.
Definition M : mat3 :=
  mkmat (mkvec 0.001 0 0) (mkvec 0 0.0002 0) (mkvec 0 0 0.0002).
Definition L0 : R * R := (7.5, -4.0).
Definition L1 : R * R := (-5.0, 8.0).
Definition L2 : R * R := (-7.0, -6.5).

Record Server : Type := mkServer {
  x : R;
  y : R;
  yaw : R;
  P : mat3;
  A : mat3;
  odom_count : nat;
  sensor_count : nat;
  x_predict : array R;
  y_predict : array R;
  yaw_predict : array R;
  P_predict : array mat3;
  x_update : array R;
  y_update : array R;
  yaw_update : array R;
  P_update : array mat3;
  wl : array R;
  wr : array R;
  dist_hat : array vec3;
  dist : array vec3;
  mahalanobis : array vec3
}.

Definition set_x (v : R) (self : Server) : Server :=
  mkServer v (y self) (yaw self) (P self) (A self) (odom_count self)
    (sensor_count self) (x_predict self) (y_predict self) (yaw_predict self)
    (P_predict self) (x_update self) (y_update self) (yaw_update self)
    (P_update self) (wl self) (wr self) (dist_hat self) (dist self)
    (mahalanobis self).

Definition set_y (v : R) (self : Server) : Server :=
  mkServer (x self) v (yaw self) (P self) (A self) (odom_count self)
    (sensor_count self) (x_predict self) (y_predict self) (yaw_predict self)
    (P_predict self) (x_update self) (y_update self) (yaw_update self)
    (P_update self) (wl self) (wr self) (dist_hat self) (dist self)
    (mahalanobis self).

Definition set_yaw (v : R) (self : Server) : Server :=
  mkServer (x self) (y self) v (P self) (A self) (odom_count self)
    (sensor_count self) (x_predict self) (y_predict self) (yaw_predict self)
    (P_predict self) (x_update self) (y_update self) (yaw_update self)
    (P_update self) (wl self) (wr self) (dist_hat self) (dist self)
    (mahalanobis self).

Definition set_P (v : mat3) (self : Server) : Server :=
  mkServer (x self) (y self) (yaw self) v (A self) (odom_count self)
    (sensor_count self) (x_predict self) (y_predict self) (yaw_predict self)
    (P_predict self) (x_update self) (y_update self) (yaw_update self)
    (P_update self) (wl self) (wr self) (dist_hat self) (dist self)
    (mahalanobis self).

Definition set_A (v : mat3) (self : Server) : Server :=
  mkServer (x self) (y self) (yaw self) (P self) v (odom_count self)
    (sensor_count self) (x_predict self) (y_predict self) (yaw_predict self)
    (P_predict self) (x_update self) (y_update self) (yaw_update self)
    (P_update self) (wl self) (wr self) (dist_hat self) (dist self)
    (mahalanobis self).

Definition set_odom_count (v : nat) (self : Server) : Server :=
  mkServer (x self) (y self) (yaw self) (P self) (A self) v (sensor_count
    self) (x_predict self) (y_predict self) (yaw_predict self) (P_predict
    self) (x_update self) (y_update self) (yaw_update self) (P_update self)
    (wl self) (wr self) (dist_hat self) (dist self) (mahalanobis self).

Definition set_sensor_count (v : nat) (self : Server) : Server :=
  mkServer (x self) (y self) (yaw self) (P self) (A self) (odom_count self)
    v (x_predict self) (y_predict self) (yaw_predict self) (P_predict self)
    (x_update self) (y_update self) (yaw_update self) (P_update self) (wl
    self) (wr self) (dist_hat self) (dist self) (mahalanobis self).

Definition set_x_predict (v : array R) (self : Server) : Server :=
  mkServer (x self) (y self) (yaw self) (P self) (A self) (odom_count self)
    (sensor_count self) v (y_predict self) (yaw_predict self) (P_predict
    self) (x_update self) (y_update self) (yaw_update self) (P_update self)
    (wl self) (wr self) (dist_hat self) (dist self) (mahalanobis self).

Definition set_y_predict (v : array R) (self : Server) : Server :=
  mkServer (x self) (y self) (yaw self) (P self) (A self) (odom_count self)
    (sensor_count self) (x_predict self) v (yaw_predict self) (P_predict
    self) (x_update self) (y_update self) (yaw_update self) (P_update self)
    (wl self) (wr self) (dist_hat self) (dist self) (mahalanobis self).

Definition set_yaw_predict (v : array R) (self : Server) : Server :=
  mkServer (x self) (y self) (yaw self) (P self) (A self) (odom_count self)
    (sensor_count self) (x_predict self) (y_predict self) v (P_predict self)
    (x_update self) (y_update self) (yaw_update self) (P_update self) (wl
    self) (wr self) (dist_hat self) (dist self) (mahalanobis self).

Definition set_P_predict (v : array mat3) (self : Server) : Server :=
  mkServer (x self) (y self) (yaw self) (P self) (A self) (odom_count self)
    (sensor_count self) (x_predict self) (y_predict self) (yaw_predict self)
    v (x_update self) (y_update self) (yaw_update self) (P_update self) (wl
    self) (wr self) (dist_hat self) (dist self) (mahalanobis self).

Definition set_x_update (v : array R) (self : Server) : Server :=
  mkServer (x self) (y self) (yaw self) (P self) (A self) (odom_count self)
    (sensor_count self) (x_predict self) (y_predict self) (yaw_predict self)
    (P_predict self) v (y_update self) (yaw_update self) (P_update self) (wl
    self) (wr self) (dist_hat self) (dist self) (mahalanobis self).

Definition set_y_update (v : array R) (self : Server) : Server :=
  mkServer (x self) (y self) (yaw self) (P self) (A self) (odom_count self)
    (sensor_count self) (x_predict self) (y_predict self) (yaw_predict self)
    (P_predict self) (x_update self) v (yaw_update self) (P_update self) (wl
    self) (wr self) (dist_hat self) (dist self) (mahalanobis self).

Definition set_yaw_update (v : array R) (self : Server) : Server :=
  mkServer (x self) (y self) (yaw self) (P self) (A self) (odom_count self)
    (sensor_count self) (x_predict self) (y_predict self) (yaw_predict self)
    (P_predict self) (x_update self) (y_update self) v (P_update self) (wl
    self) (wr self) (dist_hat self) (dist self) (mahalanobis self).

Definition set_P_update (v : array mat3) (self : Server) : Server :=
  mkServer (x self) (y self) (yaw self) (P self) (A self) (odom_count self)
    (sensor_count self) (x_predict self) (y_predict self) (yaw_predict self)
    (P_predict self) (x_update self) (y_update self) (yaw_update self) v (wl
    self) (wr self) (dist_hat self) (dist self) (mahalanobis self).

Definition set_wl (v : array R) (self : Server) : Server :=
  mkServer (x self) (y self) (yaw self) (P self) (A self) (odom_count self)
    (sensor_count self) (x_predict self) (y_predict self) (yaw_predict self)
    (P_predict self) (x_update self) (y_update self) (yaw_update self)
    (P_update self) v (wr self) (dist_hat self) (dist self) (mahalanobis
    self).

Definition set_wr (v : array R) (self : Server) : Server :=
  mkServer (x self) (y self) (yaw self) (P self) (A self) (odom_count self)
    (sensor_count self) (x_predict self) (y_predict self) (yaw_predict self)
    (P_predict self) (x_update self) (y_update self) (yaw_update self)
    (P_update self) (wl self) v (dist_hat self) (dist self) (mahalanobis
    self).

Definition set_dist_hat (v : array vec3) (self : Server) : Server :=
  mkServer (x self) (y self) (yaw self) (P self) (A self) (odom_count self)
    (sensor_count self) (x_predict self) (y_predict self) (yaw_predict self)
    (P_predict self) (x_update self) (y_update self) (yaw_update self)
    (P_update self) (wl self) (wr self) v (dist self) (mahalanobis self).

Definition set_dist (v : array vec3) (self : Server) : Server :=
  mkServer (x self) (y self) (yaw self) (P self) (A self) (odom_count self)
    (sensor_count self) (x_predict self) (y_predict self) (yaw_predict self)
    (P_predict self) (x_update self) (y_update self) (yaw_update self)
    (P_update self) (wl self) (wr self) (dist_hat self) v (mahalanobis self).

Definition set_mahalanobis (v : array vec3) (self : Server) : Server :=
  mkServer (x self) (y self) (yaw self) (P self) (A self) (odom_count self)
    (sensor_count self) (x_predict self) (y_predict self) (yaw_predict self)
    (P_predict self) (x_update self) (y_update self) (yaw_update self)
    (P_update self) (wl self) (wr self) (dist_hat self) (dist self) v.
(** The state [Server.__init__] builds (estimator fields and logs). *)
Definition init : Server :=
  let d0 := mkvec (sqrt (fst L0 * fst L0 + snd L0 * snd L0))
                  (sqrt (fst L1 * fst L1 + snd L1 * snd L1))
                  (sqrt (fst L2 * fst L2 + snd L2 * snd L2)) in
  mkServer 0 0 0 (mscale_r eye 0.1) eye 0 0
    (fun _ => 0) (fun _ => 0) (fun _ => 0)
    (store (fun _ => zeros) 0 (mscale_r eye 0.1))
    (fun _ => 0) (fun _ => 0) (fun _ => 0) (fun _ => zeros)
    (fun _ => 0) (fun _ => 0)
    (store (fun _ => mkvec 0 0 0) 0 d0) (store (fun _ => mkvec 0 0 0) 0 d0)
    (fun _ => mkvec 0 0 0).

(** [a[j, index] = v] on a 3 x (limit + 1) array kept by columns. *)
Definition store_slot (a : array vec3) (j index : nat) (v : R) : array vec3 :=
  store a index (vset (a index) j v).

(** *** The prediction: [Server.step_calculation] *)

Definition rot_head (wl wr interval : R) : R :=
  interval * Radius * (wr - wl) / (2 * D).

Definition trans_head (wl wr interval : R) : R :=
  interval * Radius * (wr + wl) / 2.

(** [Server.step_calculation].  The plots drawn after the last message
    ([index == ODOM_LIMIT]) are left out. *)
Definition step_calculation (self : Server) (wl wr interval : R)
  : result Server :=
  let rot_head := rot_head wl wr interval in
  let trans_head := trans_head wl wr interval in
  (* Extract the last value of the robot state, A, and P matrix *)
  let index := odom_count self in
  let x := x self in
  let y := y self in
  let yaw := yaw self in
  let A := A self in
  let P := P self in
  (* Log the wheels speed *)
  _ <- check_index index ODOM_LIMIT ;;
  let self := set_wl (store (Task2.wl self) index wl) self in
  let self := set_wr (store (Task2.wr self) index wr) self in
  (* Function f *)
  let x_predict := x + trans_head * cos (yaw + rot_head) in
  let y_predict := y + trans_head * sin (yaw + rot_head) in
  let yaw_predict := yaw + rot_head * 2 in
  let self := set_x_predict (store (Task2.x_predict self) index x_predict) self in
  let self := set_y_predict (store (Task2.y_predict self) index y_predict) self in
  let self :=
    set_yaw_predict (store (Task2.yaw_predict self) index yaw_predict) self in
  let self := set_x x_predict self in
  let self := set_y y_predict self in
  let self := set_yaw yaw_predict self in
  (* Linearization *)
  let L := eye in
  let L := set_row L 0 (mkvec (cos (yaw + rot_head))
                              (- trans_head * sin (yaw + rot_head)) 0) in
  let L := set_row L 1 (mkvec (sin (yaw + rot_head))
                              (trans_head * cos (yaw + rot_head)) 0) in
  let L := set_row L 2 (mkvec 0 1 1) in
  let A := set A 0 2 (- trans_head * sin (yaw + rot_head)) in
  let A := set A 1 2 (trans_head * cos (yaw + rot_head)) in
  (* Calculate new covariances matrix *)
  let P := madd (matmul (matmul A P) (transpose A))
                (matmul (matmul L M) (transpose L)) in
  let P := mscale 0.5 (madd P (transpose P)) in
  (* Save to temporary and logged variables *)
  let self := set_A A self in
  let self := set_P P self in
  let self := set_P_predict (store (P_predict self) index P) self in
  Ok self.

(** [Server.odom_callback], with [velocity = (msg.velocity[0],
    msg.velocity[1])]; [dt] is the interval the callback derives from the
    message stamps, [round(self.tspan1[-1] - self.tspan1[-2], 4)]. *)
Definition odom_callback (self : Server) (velocity : R * R) (dt : R)
  : result Server :=
  let self := set_odom_count (odom_count self + 1) self in
  step_calculation self (snd velocity) (fst velocity) dt.

(** *** The correction: [Server.update] *)

Definition dist_hat_of (x y : R) (L : R * R) : R :=
  sqrt ((x - fst L) ^ 2 + (y - snd L) ^ 2).

(** The body of [for j in range(0, 3)]: appends [Xij] to [Xi] and [Sij]
    to [Si]. *)
Definition score (z zh : vec3) (H P : mat3) (i j : nat)
    (XS : list R * list R) : result (list R * list R) :=
  let vij := vget z i - vget zh j in
  let Sij := dot (row_mat (row H j) P) (row H j) + get R_ j j in
  Sinv <- inv Sij ;;
  let Xij := vij * Sinv * vij in
  Ok (fst XS ++ [Xij], snd XS ++ [Sij]).

(** The scores of measurement [i] against the three landmarks and
    "Choose the minimum one": [j = np.argmin(Xi)], with [Xi] and [Si]. *)
Definition associate (z zh : vec3) (H P : mat3) (i : nat)
  : result (nat * (list R * list R)) :=
  XS <- for_each (score z zh H P i) (seq 0 3) ([], []) ;;
  Ok (argmin (fst XS), XS).

(** The inner loop [for i in range(0, 3)]: [if self.dist[i, index] ==
    0.0: self.dist[i, index] = temp; break]. *)
Fixpoint fill_empty (slots : list nat) (column : vec3) (temp : R) : vec3 :=
  match slots with
  | [] => column
  | i :: rest =>
      if Req_dec_T (vget column i) 0 then vset column i temp
      else fill_empty rest column temp
  end.

(** The locals that live across the iterations of the measurement loop,
    and the object whose logs the loop mutates. *)
Record locals : Type := mklocals {
  loc_P : mat3;
  loc_state : vec3;
  loc_temp : option R;
  loc_self : Server
}.

(** The body of [for i in range(0, 3)]. *)
Definition measurement_step (index : nat) (z zh : vec3) (H : mat3)
    (i : nat) (s : locals) : result locals :=
  let P := loc_P s in
  let state := loc_state s in
  let temp := loc_temp s in
  let self := loc_self s in
  a <- associate z zh H P i ;;
  let j := fst a in
  let Xi := fst (snd a) in
  let Si := snd (snd a) in
  (* Update the state and covariances by using the matched measurement *)
  Sinv <- inv (nth j Si 0) ;;
  let K := vscale_r (mat_col P (row H j)) Sinv in
  let P := matmul (msub eye (outer K (row H j))) P in
  let P := mscale 0.5 (madd P (transpose P)) in
  let state := vadd state (vscale_r K (vget z i - vget zh j)) in
  _ <- check_index index SENSOR_LIMIT ;;
  let self :=
    set_mahalanobis (store_slot (mahalanobis self) j index (nth j Xi 0)) self in
  (* Save the actual measurement, save to temp if duplicated *)
  let self_temp :=
    if Req_dec_T (vget (dist self index) j) 0
    then (set_dist (store_slot (dist self) j index (vget z i)) self, temp)
    else (self, Some (vget z i)) in
  let self := fst self_temp in
  let temp := snd self_temp in
  (* Fill the duplicated actual measurement that did not have a match *)
  let self :=
    match temp with
    | Some t =>
        set_dist (store (dist self) index
                    (fill_empty (seq 0 3) (dist self index) t)) self
    | None => self
    end in
  Ok (mklocals P state temp self).

(** [Server.update].  The [print] of the total distance difference is left
    out. *)
Definition update (self : Server) (dist_0 dist_1 dist_2 : R)
  : result Server :=
  (* Extract the last value of P, x, y, psi *)
  let index := sensor_count self in
  let P := P self in
  let x := x self in
  let y := y self in
  let yaw := yaw self in
  (* Predict the measurement *)
  let dist_hat_0 := dist_hat_of x y L0 in
  let dist_hat_1 := dist_hat_of x y L1 in
  let dist_hat_2 := dist_hat_of x y L2 in
  (* Actual and Predicted Measurement vectors *)
  let z := mkvec dist_0 dist_1 dist_2 in
  let zh := mkvec dist_hat_0 dist_hat_1 dist_hat_2 in
  (* H linearization *)
  let H := zeros in
  H0 <- vdiv (mkvec (x - fst L0) (y - snd L0) 0) dist_hat_0 ;;
  let H := set_row H 0 H0 in
  H1 <- vdiv (mkvec (x - fst L1) (y - snd L1) 0) dist_hat_1 ;;
  let H := set_row H 1 H1 in
  H2 <- vdiv (mkvec (x - fst L2) (y - snd L2) 0) dist_hat_2 ;;
  let H := set_row H 2 H2 in
  (* Predicted state vector *)
  let state := mkvec x y yaw in
  (* In case there is duplication *)
  let temp := None in
  (* Iterate through each actual measurement ith *)
  s <- for_each (measurement_step index z zh H) (seq 0 3)
         (mklocals P state temp self) ;;
  let P := loc_P s in
  let state := loc_state s in
  let self := loc_self s in
  (* Save to temporary variables and logged variables *)
  let self := set_x (v0 state) self in
  let self := set_y (v1 state) self in
  let self := set_yaw (v2 state) self in
  let self := set_P P self in
  let self := set_x_update (store (x_update self) index (v0 state)) self in
  let self := set_y_update (store (y_update self) index (v1 state)) self in
  let self := set_yaw_update (store (yaw_update self) index (v2 state)) self in
  let self := set_P_update (store (P_update self) index P) self in
  let self := set_dist_hat (store_slot (dist_hat self) 0 index dist_hat_0) self in
  let self := set_dist_hat (store_slot (dist_hat self) 1 index dist_hat_1) self in
  let self := set_dist_hat (store_slot (dist_hat self) 2 index dist_hat_2) self in
  Ok self.

(** [Server.sensor_callback], with [position = (msg.position[0],
    msg.position[1], msg.position[2])]. *)
Definition sensor_callback (self : Server) (position : R * R * R)
  : result Server :=
  let self := set_sensor_count (sensor_count self + 1) self in
  update self (fst (fst position)) (snd (fst position)) (snd position).

End Task2.

(** ** The formulas of the specification

    Matrices and vectors are written by entries, as on paper, so that the
    comparisons below relate the numpy expressions of the servers to the
    textbook formulas. *)

Module Spec.

Definition vector : Type := nat -> R.
Definition matrix : Type := nat -> nat -> R.

Definition sum3 (f : nat -> R) : R := f 0%nat + f 1%nat + f 2%nat.

Definition I3 : matrix := fun a b => if Nat.eqb a b then 1 else 0.

Definition mul (A B : matrix) : matrix :=
  fun a b => sum3 (fun k => A a k * B k b).

Definition tr (A : matrix) : matrix := fun a b => A b a.

Definition plus (A B : matrix) : matrix := fun a b => A a b + B a b.

Definition minus (A B : matrix) : matrix := fun a b => A a b - B a b.

(** [K·h] for a column [K] and a row [h]. *)
Definition col_row (K h : vector) : matrix := fun a b => K a * h b.

(** CovarianceMaintainer: [0.5*(P + Pᵗ)]. *)
Definition symmetrized (P : matrix) : matrix :=
  fun a b => 0.5 * (P a b + P b a).

(** Pose invariant of the data model: [yaw ∈ (-π, π]]. *)
Definition yaw_in_range (yaw : R) : Prop := - PI < yaw <= PI.

(** MotionModel. *)
Definition rotation (dt Rw D wL wR : R) : R := dt * Rw * (wR - wL) / (2 * D).

Definition translation (dt Rw wL wR : R) : R := dt * Rw * (wR + wL) / 2.

(** NoiseSampler variances. *)
Definition eps_rot (a1 a2 rotation translation : R) : R :=
  a1 * (rotation * rotation) + a2 * (translation * translation).

Definition eps_trans (a3 a4 rotation translation : R) : R :=
  a3 * (translation * translation) + a4 * 2 * (rotation * rotation).

(** EKFPredictor. *)
Definition A_jac (yaw rotation translation : R) : matrix :=
  fun a b =>
    match a, b with
    | 0%nat, 2%nat => - translation * sin (yaw + rotation)
    | 1%nat, 2%nat => translation * cos (yaw + rotation)
    | _, _ => I3 a b
    end.

Definition L_jac (yaw rotation translation : R) : matrix :=
  fun a b =>
    match a, b with
    | 0%nat, 0%nat => cos (yaw + rotation)
    | 0%nat, 1%nat => - translation * sin (yaw + rotation)
    | 1%nat, 0%nat => sin (yaw + rotation)
    | 1%nat, 1%nat => translation * cos (yaw + rotation)
    | 2%nat, 1%nat => 1
    | 2%nat, 2%nat => 1
    | _, _ => 0
    end.

Definition predict_cov (P A L M : matrix) : matrix :=
  symmetrized (plus (mul (mul A P) (tr A)) (mul (mul L M) (tr L))).

(** DataAssociation. *)
Definition landmark (j : nat) : R * R :=
  match j with
  | 0%nat => (7.5, -4.0)
  | 1%nat => (-5.0, 8.0)
  | _ => (-7.0, -6.5)
  end.

(** [zh_j = ‖(x,y) − Landmark_j‖] *)
Definition zh (x y : R) (j : nat) : R :=
  sqrt ((x - fst (landmark j)) * (x - fst (landmark j))
        + (y - snd (landmark j)) * (y - snd (landmark j))).

(** [H_j = (x−Ljx, y−Ljy, 0) / zh_j] *)
Definition H (x y : R) (j : nat) : vector :=
  fun k =>
    match k with
    | 0%nat => (x - fst (landmark j)) / zh x y j
    | 1%nat => (y - snd (landmark j)) / zh x y j
    | _ => 0
    end.

(** [R_jj], the same for the three landmarks. *)
Definition Rjj : R := 0.000025.

(** [S_ij = H_j·P·H_jᵗ + R_jj] *)
Definition S (P : matrix) (h : vector) : R :=
  sum3 (fun a => sum3 (fun b => h a * P a b * h b)) + Rjj.

(** [X_ij = v_ij² / S_ij] with [v_ij = z_i − zh_j] *)
Definition X (x y : R) (P : matrix) (zi : R) (j : nat) : R :=
  (zi - zh x y j) * (zi - zh x y j) / S P (H x y j).

(** [j* = argmin_j f j] over the three landmarks, none removed. *)
Definition argmin3 (f : nat -> R) (j : nat) : Prop :=
  (j < 3)%nat /\ forall j' : nat, (j' < 3)%nat -> f j <= f j'.

(** EKFCorrector. *)
Definition gain (P : matrix) (h : vector) : vector :=
  fun a => sum3 (fun b => P a b * h b) / S P h.

Definition cov_update (P : matrix) (h : vector) : matrix :=
  symmetrized (mul (minus I3 (col_row (gain P h) h)) P).

Definition state_update (state : vector) (P : matrix) (h : vector) (v : R)
  : vector :=
  fun a => state a + gain P h a * v.

End Spec.

(** ** Predicates used by the proofs *)

Module Inv.
Import Np.

Definition symmetric (P : mat3) : Prop := transpose P = P.

(** [v·P·vᵗ] and [u·P·vᵗ] *)
Definition quad (P : mat3) (v : vec3) : R := dot (row_mat v P) v.

Definition bil (P : mat3) (u v : vec3) : R := dot (row_mat u P) v.

Definition psd (P : mat3) : Prop := forall v : vec3, 0 <= quad P v.

Definition trace (P : mat3) : R := get P 0 0 + get P 1 1 + get P 2 2.

(** [P' ⪯ P] in the Loewner order. *)
Definition below (P' P : mat3) : Prop := forall v : vec3, quad P' v <= quad P v.

(** The shape [step_calculation] keeps [self.A] in: the identity outside
    the entries [A[0,2]] and [A[1,2]]. *)
Definition jacobian_shaped (A : mat3) : Prop :=
  v0 (row0 A) = 1 /\ v1 (row0 A) = 0 /\
  v0 (row1 A) = 0 /\ v1 (row1 A) = 1 /\
  row2 A = mkvec 0 0 1.

(** The states a run of the node goes through. *)
Inductive reachable : Task2.Server -> Prop :=
| reach_init : reachable Task2.init
| reach_odom : forall self velocity dt self',
    reachable self ->
    Task2.odom_callback self velocity dt = Ok self' ->
    reachable self'
| reach_sensor : forall self position self',
    reachable self ->
    Task2.sensor_callback self position = Ok self' ->
    reachable self'.

Definition entries (M : mat3) : Spec.matrix := get M.

Definition coords (v : vec3) : Spec.vector := vget v.

(** Equality of 3x3 matrices and of 3-vectors given by entries. *)
Definition same_matrix (P Q : Spec.matrix) : Prop :=
  forall a b : nat, (a < 3)%nat -> (b < 3)%nat -> P a b = Q a b.

Definition same_vector (u v : Spec.vector) : Prop :=
  forall a : nat, (a < 3)%nat -> u a = v a.

Definition diag (p0 p1 p2 : R) : mat3 :=
  mkmat (mkvec p0 0 0) (mkvec 0 p1 0) (mkvec 0 0 p2).

(** The pose next to landmarks 0 and 1 used for covariances that are not
    positive semidefinite: its rows of [H], its predicted ranges, and a
    measurement triple. *)
Definition H78 : mat3 :=
  mkmat (mkvec 0 1 0) (mkvec 1 0 0)
        (mkvec (14.5 / sqrt 420.5) (14.5 / sqrt 420.5) 0).

Definition zh78 : vec3 := mkvec 12 12.5 (sqrt 420.5).

Definition z78 : vec3 := mkvec 100 20 12.

(** The yaw sum of ensemble member [i] before "Regulate the psi", from
    the member's yaw at the previous tick. *)
Definition ensemble_raw_yaw (yaw rot_head trans_head : R) (draws : R * R * R)
    (i : nat) : R :=
  if Nat.ltb 0 i then
    yaw
    + (rot_head
       + (0 + Task1.epsilon_rot rot_head trans_head * fst (fst draws)))
    + (rot_head
       + (0 + Task1.epsilon_rot rot_head trans_head * snd (fst draws)))
  else yaw + 2 * rot_head.

(** Names for the values [Task2.measurement_step] computes on its way:
    [Sij], [Xij], the list [Xi], the matched [j], then [K], [P] and
    [state]. *)
Definition Sij (P H : mat3) (j : nat) : R :=
  dot (row_mat (row H j) P) (row H j) + get Task2.R_ j j.

Definition Xij (z zh : vec3) (H P : mat3) (i j : nat) : R :=
  (vget z i - vget zh j) * / Sij P H j * (vget z i - vget zh j).

Definition Xi (z zh : vec3) (H P : mat3) (i : nat) : list R :=
  [Xij z zh H P i 0; Xij z zh H P i 1; Xij z zh H P i 2].

Definition Si (P H : mat3) : list R := [Sij P H 0; Sij P H 1; Sij P H 2].

Definition matched (z zh : vec3) (H P : mat3) (i : nat) : nat :=
  argmin (Xi z zh H P i).

Definition kalman_K (P : mat3) (h : vec3) (s : R) : vec3 :=
  vscale_r (mat_col P h) (/ s).

Definition kalman_P (P : mat3) (h : vec3) (s : R) : mat3 :=
  let P1 := matmul (msub eye (outer (kalman_K P h s) h)) P in
  mscale 0.5 (madd P1 (transpose P1)).

Definition kalman_state (state : vec3) (P : mat3) (h : vec3) (s v : R)
  : vec3 :=
  vadd state (vscale_r (kalman_K P h s) v).

(** The measured-distance column and [temp] after the bookkeeping of one
    measurement [zi] matched to landmark [j]. *)
Definition slots_after (column : vec3) (temp : option R) (j : nat) (zi : R)
  : vec3 * option R :=
  let saved :=
    if Req_dec_T (vget column j) 0 then (vset column j zi, temp)
    else (column, Some zi) in
  match snd saved with
  | Some t => (Task2.fill_empty (seq 0 3) (fst saved) t, snd saved)
  | None => saved
  end.

(** What the spec asks of a duplicate instead: hold the value, and write
    it once the three measurements are processed. *)
Definition slots_held (column : vec3) (temp : option R) (j : nat) (zi : R)
  : vec3 * option R :=
  if Req_dec_T (vget column j) 0 then (vset column j zi, temp)
  else (column, Some zi).

Definition slots_flush (saved : vec3 * option R) : vec3 :=
  match snd saved with
  | Some t => Task2.fill_empty (seq 0 3) (fst saved) t
  | None => fst saved
  end.

(** The column the spec describes for the matches [(j, zi)] of one tick,
    in arrival order: every duplicate is held, and the held value is
    written after the last measurement. *)
Definition held_column (matches : list (nat * R)) : vec3 :=
  slots_flush
    (fold_left (fun saved m => slots_held (fst saved) (snd saved) (fst m) (snd m))
               matches (mkvec 0 0 0, None)).

(** The predicted ranges and the rows of [H] that [Task2.update] builds
    from the pose it starts from. *)
Definition zh_of (x y : R) : vec3 :=
  mkvec (Task2.dist_hat_of x y Task2.L0) (Task2.dist_hat_of x y Task2.L1)
        (Task2.dist_hat_of x y Task2.L2).

Definition H_of (x y : R) : mat3 :=
  mkmat (mkvec ((x - fst Task2.L0) / Task2.dist_hat_of x y Task2.L0)
               ((y - snd Task2.L0) / Task2.dist_hat_of x y Task2.L0)
               (0 / Task2.dist_hat_of x y Task2.L0))
        (mkvec ((x - fst Task2.L1) / Task2.dist_hat_of x y Task2.L1)
               ((y - snd Task2.L1) / Task2.dist_hat_of x y Task2.L1)
               (0 / Task2.dist_hat_of x y Task2.L1))
        (mkvec ((x - fst Task2.L2) / Task2.dist_hat_of x y Task2.L2)
               ((y - snd Task2.L2) / Task2.dist_hat_of x y Task2.L2)
               (0 / Task2.dist_hat_of x y Task2.L2)).

(** The pose is away from the three landmarks: no predicted range is
    zero. *)
Definition ranges_nonzero (x y : R) : Prop :=
  Task2.dist_hat_of x y Task2.L0 <> 0 /\
  Task2.dist_hat_of x y Task2.L1 <> 0 /\
  Task2.dist_hat_of x y Task2.L2 <> 0.

(** The matrices [L], [A] and [P] that [Task2.step_calculation] builds. *)
Definition L_of (yaw rot_head trans_head : R) : mat3 :=
  mkmat (mkvec (cos (yaw + rot_head)) (- trans_head * sin (yaw + rot_head)) 0)
        (mkvec (sin (yaw + rot_head)) (trans_head * cos (yaw + rot_head)) 0)
        (mkvec 0 1 1).

Definition A_of (A : mat3) (yaw rot_head trans_head : R) : mat3 :=
  set (set A 0 2 (- trans_head * sin (yaw + rot_head))) 1 2
      (trans_head * cos (yaw + rot_head)).

Definition predicted_P (A P L : mat3) : mat3 :=
  let P1 := madd (matmul (matmul A P) (transpose A))
                 (matmul (matmul L Task2.M) (transpose L)) in
  mscale 0.5 (madd P1 (transpose P1)).

(** The locals [Task2.update] enters its measurement loop with. *)
Definition loop_entry (self : Task2.Server) : Task2.locals :=
  Task2.mklocals (Task2.P self)
    (mkvec (Task2.x self) (Task2.y self) (Task2.yaw self)) None self.

(** What one iteration of the measurement loop does to the locals. *)
Definition step_effect (index : nat) (z zh : vec3) (H : mat3) (i : nat)
    (s s' : Task2.locals) : Prop :=
  let j := matched z zh H (Task2.loc_P s) i in
  let h := row H j in
  let Sj := Sij (Task2.loc_P s) H j in
  Task2.loc_P s' = kalman_P (Task2.loc_P s) h Sj /\
  Task2.loc_state s'
    = kalman_state (Task2.loc_state s) (Task2.loc_P s) h Sj
        (vget z i - vget zh j) /\
  Task2.dist (Task2.loc_self s') index
    = fst (slots_after (Task2.dist (Task2.loc_self s) index)
             (Task2.loc_temp s) j (vget z i)) /\
  Task2.loc_temp s'
    = snd (slots_after (Task2.dist (Task2.loc_self s) index)
             (Task2.loc_temp s) j (vget z i)) /\
  vget (Task2.mahalanobis (Task2.loc_self s') index) j
    = Xij z zh H (Task2.loc_P s) i j /\
  Task2.sensor_count (Task2.loc_self s')
    = Task2.sensor_count (Task2.loc_self s) /\
  Task2.odom_count (Task2.loc_self s')
    = Task2.odom_count (Task2.loc_self s) /\
  Task2.A (Task2.loc_self s') = Task2.A (Task2.loc_self s).

(** A run of [Task2.update]: the three iterations in the order
    [i = 0, 1, 2], each starting from the locals the one before left,
    and the state written back at the end. *)
Definition correction_run (self : Task2.Server) (z : vec3)
    (s1 s2 s3 : Task2.locals) (self' : Task2.Server) : Prop :=
  let index := Task2.sensor_count self in
  let zh := zh_of (Task2.x self) (Task2.y self) in
  let H := H_of (Task2.x self) (Task2.y self) in
  Task2.measurement_step index z zh H 0 (loop_entry self) = Ok s1 /\
  Task2.measurement_step index z zh H 1 s1 = Ok s2 /\
  Task2.measurement_step index z zh H 2 s2 = Ok s3 /\
  step_effect index z zh H 0 (loop_entry self) s1 /\
  step_effect index z zh H 1 s1 s2 /\
  step_effect index z zh H 2 s2 s3 /\
  Task2.x self' = v0 (Task2.loc_state s3) /\
  Task2.y self' = v1 (Task2.loc_state s3) /\
  Task2.yaw self' = v2 (Task2.loc_state s3) /\
  Task2.P self' = Task2.loc_P s3 /\
  Task2.dist self' = Task2.dist (Task2.loc_self s3) /\
  Task2.mahalanobis self' = Task2.mahalanobis (Task2.loc_self s3) /\
  Task2.A self' = Task2.A self /\
  Task2.sensor_count self' = Task2.sensor_count self /\
  Task2.odom_count self' = Task2.odom_count self.

End Inv.

(** ** Python built-ins the callbacks use *)

Module Py.

(** [l[-1]] and [l[-2]] of a Python list. *)
Definition last_item (l : list R) : result R :=
  match rev l with
  | a :: _ => Ok a
  | [] => Err IndexError
  end.

Definition item_before_last (l : list R) : result R :=
  match rev l with
  | _ :: b :: _ => Ok b
  | _ => Err IndexError
  end.

(** Rounding to the nearest integer, ties to the even one. *)
Definition round_half_even (x : R) : Z :=
  let n := Int_part x in
  if Rlt_dec (frac_part x) (1 / 2) then n
  else if Rgt_dec (frac_part x) (1 / 2) then (n + 1)%Z
  else if Z.even n then n else (n + 1)%Z.

(** [round(x, 4)] *)
Definition round4 (x : R) : R := IZR (round_half_even (x * 10000)) / 10000.

End Py.

(** ** server_task2.py: the node with its time bookkeeping

    [Task2.Server] holds the estimator and its logs; the node adds the
    stamps of the last messages and the two time axes. *)

Module Node2.
Import Np.

(** [msg.header.stamp] *)
Record stamp : Type := mkstamp { sec : Z; nanosec : Z }.

(** [msg.header.stamp.sec + msg.header.stamp.nanosec / 1e+9] *)
Definition seconds (t : stamp) : R := IZR (sec t) + IZR (nanosec t) / 1000000000.

Record Node : Type := mkNode {
  server : Task2.Server;
  ts1 : R;
  ts2 : R;
  tspan1 : list R;
  tspan2 : list R
}.

(** The state [Server.__init__] builds. *)
Definition init : Node := mkNode Task2.init 0 0 [0] [0].

(** [Server.odom_callback] *)
Definition odom_callback (self : Node) (t : stamp) (velocity : R * R)
  : result Node :=
  (* Increase the counter and process the prediction *)
  let count := (Task2.odom_count (server self) + 1)%nat in
  (* Calculate dt and save the timestamp *)
  let ts := seconds t in
  span <- (if Nat.eqb count 1 then Ok (tspan1 self ++ [0.1])
           else
             l <- Py.last_item (tspan1 self) ;;
             Ok (tspan1 self ++ [ts - ts1 self + l])) ;;
  (* Prediction *)
  a <- Py.last_item span ;;
  b <- Py.item_before_last span ;;
  srv <- Task2.odom_callback (server self) velocity (Py.round4 (a - b)) ;;
  Ok (mkNode srv ts (ts2 self) span (tspan2 self)).

(** [Server.sensor_callback] *)
Definition sensor_callback (self : Node) (t : stamp) (position : R * R * R)
  : result Node :=
  (* Calculate dt and save the timestamp *)
  let ts := seconds t in
  span <- (if Req_dec_T (ts2 self) 0
           then Ok (tspan2 self ++ [IZR (nanosec t) / 1000000000])
           else
             l <- Py.last_item (tspan2 self) ;;
             Ok (tspan2 self ++ [ts - ts2 self + l])) ;;
  (* Update *)
  srv <- Task2.sensor_callback (server self) position ;;
  Ok (mkNode srv (ts1 self) ts (tspan1 self) span).

(** The messages of the two subscriptions. *)
Inductive message : Type :=
| joint_states (t : stamp) (velocity : R * R)
| landmarks (t : stamp) (position : R * R * R).

Definition dispatch (m : message) (self : Node) : result Node :=
  match m with
  | joint_states t velocity => odom_callback self t velocity
  | landmarks t position => sensor_callback self t position
  end.

(** [rclpy.spin(server)]: the callbacks run one at a time, in the order
    the messages arrive. *)
Definition spin (msgs : list message) (self : Node) : result Node :=
  for_each dispatch msgs self.

(** [Server.canvas]: the tick of the update logs drawn at frame [index],
    [if index % 3 == 0: i = int(index / 3)]. *)
Definition canvas_update_index (index : nat) : option nat :=
  if Nat.eqb (index mod 3) 0 then Some (index / 3)%nat else None.

(** The frames of [Server.canvas], [range(0, ODOM_LIMIT)]. *)
Definition canvas_frames : list nat := seq 0 Task2.ODOM_LIMIT.

End Node2.

(** ** server_task1.py: the constructor loop and the mean trajectory *)

Module Node1.

(** One message of [/Wheels_data] with the draws its step consumes. *)
Definition message : Type := (R * R) * (nat -> R * R * R).

(** The loop of [Server.__init__],
    [while self.message_count < MESSAGE_LIMIT: rclpy.spin_once(self)],
    over the messages that arrive. *)
Fixpoint spin_until_limit (msgs : list message) (self : Task1.Server)
  : result Task1.Server :=
  match msgs with
  | [] => Ok self
  | m :: rest =>
      if Nat.ltb (Task1.message_count self) Task1.MESSAGE_LIMIT then
        self' <- Task1.listener_callback self (fst m) (snd m) ;;
        spin_until_limit rest self'
      else Ok self
  end.

(** [a.sum(axis=0)[k]] of a [101 x (MESSAGE_LIMIT + 1)] array. *)
Definition sum_members (a : array (array R)) (k : nat) : R :=
  fold_left (fun acc i => acc + a i k) (seq 0 101) 0.

(** [Server.plot]: [x_mean] and [y_mean], the mean trajectory. *)
Definition x_mean (self : Task1.Server) (k : nat) : R :=
  (sum_members (Task1.x_euler self) k - Task1.x_euler self 0%nat k) / 100.

Definition y_mean (self : Task1.Server) (k : nat) : R :=
  (sum_members (Task1.y_euler self) k - Task1.y_euler self 0%nat k) / 100.

End Node1.

(** ** Observations the statements below use *)

Module Log.
Import Np.

(** The row of the prediction logs at tick [k]. *)
Definition predicted_entry (self : Task2.Server) (k : nat)
  : R * R * R * mat3 * R * R :=
  (Task2.x_predict self k, Task2.y_predict self k, Task2.yaw_predict self k,
   Task2.P_predict self k, Task2.wl self k, Task2.wr self k).

(** The row of the correction logs at tick [k]. *)
Definition updated_entry (self : Task2.Server) (k : nat)
  : R * R * R * mat3 * vec3 * vec3 * vec3 :=
  (Task2.x_update self k, Task2.y_update self k, Task2.yaw_update self k,
   Task2.P_update self k, Task2.dist_hat self k, Task2.dist self k,
   Task2.mahalanobis self k).

(** The entries of a column of a [3 x n] log, top down. *)
Definition column_entries (v : vec3) : list R := [v0 v; v1 v; v2 v].

(** The covariance couples the heading to neither coordinate. *)
Definition heading_decoupled (P : mat3) : Prop :=
  get P 0 2 = 0 /\ get P 1 2 = 0 /\ get P 2 0 = 0 /\ get P 2 1 = 0.

(** The stamps, in seconds, of the odometry and of the range messages of
    a run, in arrival order. *)
Fixpoint odom_stamps (msgs : list Node2.message) : list R :=
  match msgs with
  | [] => []
  | Node2.joint_states t _ :: rest => Node2.seconds t :: odom_stamps rest
  | Node2.landmarks _ _ :: rest => odom_stamps rest
  end.

Fixpoint sensor_stamps (msgs : list Node2.message) : list Node2.stamp :=
  match msgs with
  | [] => []
  | Node2.joint_states _ _ :: rest => sensor_stamps rest
  | Node2.landmarks t _ :: rest => t :: sensor_stamps rest
  end.

(** The time axes the stamps of a run give: the odometry axis puts the
    first message at [0.1], the range axis puts the first message at the
    fraction of a second of its stamp. *)
Definition odom_axis (stamps : list R) : list R :=
  0 :: map (fun t => 0.1 + (t - hd 0 stamps)) stamps.

Definition sensor_axis (stamps : list Node2.stamp) : list R :=
  0 :: map (fun t => Node2.seconds t
                     - IZR (Node2.sec (hd (Node2.mkstamp 0 0) stamps))) stamps.

(** The node has the odometry axis of the stamps [ts]: the axis, the
    counter and the stamp kept in [ts1]. *)
Definition odom_axis_at (self : Node2.Node) (ts : list R) : Prop :=
  Node2.tspan1 self = odom_axis ts /\
  Task2.odom_count (Node2.server self) = length ts /\
  (forall ts' tl, ts = ts' ++ [tl] -> Node2.ts1 self = tl).

(** The node has the range axis of the stamps [ss]: the axis and the
    stamp kept in [ts2], which is [0] before the first message. *)
Definition sensor_axis_at (self : Node2.Node) (ss : list Node2.stamp) : Prop :=
  Node2.tspan2 self = sensor_axis ss /\
  (ss = [] -> Node2.ts2 self = 0) /\
  (forall ss' tl, ss = ss' ++ [tl] -> Node2.ts2 self = Node2.seconds tl).

(** The pose of ensemble member [i] at tick [k]. *)
Definition pose_at (self : Task1.Server) (i k : nat) : vec3 :=
  mkvec (Task1.x_euler self i k) (Task1.y_euler self i k)
        (Task1.yaw_euler self i k).

(** The pose [Task1.member_step] stores for member [i], from the member's
    pose at the previous tick. *)
Definition member_pose (state_k : vec3) (rot_head trans_head : R)
    (draws : R * R * R) (i : nat) : vec3 :=
  if Nat.ltb 0 i then
    let sigma_rot_1 :=
      rot_head + (0 + Task1.epsilon_rot rot_head trans_head * fst (fst draws)) in
    let sigma_rot_2 :=
      rot_head + (0 + Task1.epsilon_rot rot_head trans_head * snd (fst draws)) in
    let sigma_trans :=
      trans_head + (0 + Task1.epsilon_trans rot_head trans_head * snd draws) in
    mkvec (v0 state_k + sigma_trans * cos (v2 state_k + sigma_rot_1))
          (v1 state_k + sigma_trans * sin (v2 state_k + sigma_rot_1))
          (Task1.regulate (v2 state_k + sigma_rot_1 + sigma_rot_2))
  else
    mkvec (v0 state_k + trans_head * cos (v2 state_k + rot_head))
          (v1 state_k + trans_head * sin (v2 state_k + rot_head))
          (Task1.regulate (v2 state_k + 2 * rot_head)).

End Log.

(** * Proofs *)

Import Np.
Import Inv.

Ltac destruct_mat P := destruct P as [[? ? ?] [? ? ?] [? ? ?]].
Ltac destruct_vec v := destruct v as [? ? ?].

(** Unfolds the numpy fragment down to the entries. *)
Ltac np_entries :=
  cbv [quad bil trace below kalman_P kalman_K row_mat mat_col dot col matmul
       msub vsub outer eye zeros vscale vscale_r mscale mscale_r madd vadd
       transpose get set row set_row vget vset
       v0 v1 v2 row0 row1 row2].

Ltac three_cases a :=
  destruct a as [|[|[|a]]]; [ | | | exfalso; lia].

(** ** Results, arrays and the numpy fragment *)

Lemma mkvec_eq (a b c a' b' c' : R) :
  a = a' -> b = b' -> c = c' -> mkvec a b c = mkvec a' b' c'.
Proof. congruence. Qed.

Lemma mkmat_eq (r s t r' s' t' : vec3) :
  r = r' -> s = s' -> t = t' -> mkmat r s t = mkmat r' s' t'.
Proof. congruence. Qed.


Lemma symmetrize_symmetric (P : mat3) :
  symmetric (mscale 0.5 (madd P (transpose P))).
Proof.
  destruct_mat P. unfold symmetric, transpose, col, mscale, madd, vscale, vadd.
  simpl. apply mkmat_eq; apply mkvec_eq; ring.
Qed.

Lemma argmin_three (a b c : R) :
  let j := argmin [a; b; c] in
  (j < 3)%nat /\
  (forall k, (k < 3)%nat -> nth j [a; b; c] 0 <= nth k [a; b; c] 0) /\
  (forall k, (k < j)%nat -> nth j [a; b; c] 0 < nth k [a; b; c] 0).
Proof.
  unfold argmin, argmin_from.
  destruct (Rlt_dec b a); [destruct (Rlt_dec c b) | destruct (Rlt_dec c a)]; simpl;
  (split; [lia|]); split; intros k Hk;
  destruct k as [|[|[|k]]]; simpl; try lra; try lia.
Qed.

Lemma check_index_ok (index limit : nat) :
  (index <= limit)%nat -> check_index index limit = Ok tt.
Proof.
  intros Hle. unfold check_index.
  destruct (Nat.leb_spec index limit); [reflexivity | lia].
Qed.

Lemma check_index_err (index limit : nat) :
  (limit < index)%nat -> check_index index limit = Err IndexError.
Proof.
  intros Hle. unfold check_index.
  destruct (Nat.leb_spec index limit); [lia | reflexivity].
Qed.

Lemma store_same {T} (a : array T) (n : nat) (v : T) : store a n v n = v.
Proof. unfold store. rewrite Nat.eqb_refl. reflexivity. Qed.

Lemma vget_vset_same (v : vec3) (j : nat) (a : R) : vget (vset v j a) j = a.
Proof. destruct j as [|[|j]]; reflexivity. Qed.

(** ** The extended Kalman filter *)

Section EKF.
Import Task2.

(** *** The measurement loop of the correction *)

Lemma inv_ok (s : R) : s <> 0 -> inv s = Ok (/ s).
Proof. intros Hs. unfold inv. destruct (Req_dec_T s 0); [contradiction | reflexivity]. Qed.

Lemma inv_err (s : R) : s = 0 -> inv s = Err LinAlgError.
Proof. intros Hs. unfold inv. destruct (Req_dec_T s 0); [reflexivity | contradiction]. Qed.

Lemma score_eq (z zh : vec3) (H P : mat3) (i j : nat) (XS : list R * list R) :
  score z zh H P i j XS
  = (Sinv <- inv (Sij P H j) ;;
     Ok (fst XS ++ [(vget z i - vget zh j) * Sinv * (vget z i - vget zh j)],
         snd XS ++ [Sij P H j])).
Proof. reflexivity. Qed.

Lemma associate_ok (z zh : vec3) (H P : mat3) (i : nat) :
  Sij P H 0 <> 0 -> Sij P H 1 <> 0 -> Sij P H 2 <> 0 ->
  associate z zh H P i = Ok (matched z zh H P i, (Xi z zh H P i, Si P H)).
Proof.
  intros S0 S1 S2. unfold associate. cbn [seq for_each].
  rewrite !score_eq.
  rewrite (inv_ok _ S0). cbn [bind fst snd app]. rewrite score_eq.
  rewrite (inv_ok _ S1). cbn [bind fst snd app]. rewrite score_eq.
  rewrite (inv_ok _ S2). cbn [bind fst snd app].
  reflexivity.
Qed.

Lemma associate_singular (z zh : vec3) (H P : mat3) (i j : nat) :
  (j < 3)%nat -> Sij P H j = 0 ->
  associate z zh H P i = Err LinAlgError.
Proof.
  intros Hj Hz. unfold associate. cbn [seq for_each]. rewrite score_eq.
  destruct (Req_dec_T (Sij P H 0) 0) as [E0|N0].
  { rewrite (inv_err _ E0). reflexivity. }
  rewrite (inv_ok _ N0). cbn [bind fst snd app]. rewrite score_eq.
  destruct (Req_dec_T (Sij P H 1) 0) as [E1|N1].
  { rewrite (inv_err _ E1). reflexivity. }
  rewrite (inv_ok _ N1). cbn [bind fst snd app]. rewrite score_eq.
  destruct (Req_dec_T (Sij P H 2) 0) as [E2|N2].
  { rewrite (inv_err _ E2). reflexivity. }
  destruct j as [|[|[|j]]]; try contradiction; lia.
Qed.

Lemma associate_inversion (z zh : vec3) (H P : mat3) (i : nat) a :
  associate z zh H P i = Ok a ->
  Sij P H 0 <> 0 /\ Sij P H 1 <> 0 /\ Sij P H 2 <> 0 /\
  a = (matched z zh H P i, (Xi z zh H P i, Si P H)).
Proof.
  intros E.
  destruct (Req_dec_T (Sij P H 0) 0) as [E0|N0].
  { rewrite (associate_singular z zh H P i 0) in E; [discriminate | lia | exact E0]. }
  destruct (Req_dec_T (Sij P H 1) 0) as [E1|N1].
  { rewrite (associate_singular z zh H P i 1) in E; [discriminate | lia | exact E1]. }
  destruct (Req_dec_T (Sij P H 2) 0) as [E2|N2].
  { rewrite (associate_singular z zh H P i 2) in E; [discriminate | lia | exact E2]. }
  rewrite (associate_ok z zh H P i N0 N1 N2) in E. inversion E. auto.
Qed.

Lemma matched_lt (z zh : vec3) (H P : mat3) (i : nat) : (matched z zh H P i < 3)%nat.
Proof. unfold matched, Xi. apply argmin_three. Qed.

Lemma Si_nth (P H : mat3) (j : nat) : (j < 3)%nat -> nth j (Si P H) 0 = Sij P H j.
Proof. intros Hj. destruct j as [|[|[|j]]]; try reflexivity; lia. Qed.

Lemma Xi_nth (z zh : vec3) (H P : mat3) (i j : nat) :
  (j < 3)%nat -> nth j (Xi z zh H P i) 0 = Xij z zh H P i j.
Proof. intros Hj. destruct j as [|[|[|j]]]; try reflexivity; lia. Qed.

(** One iteration of the measurement loop, when nothing is raised. *)
Lemma measurement_step_ok (index : nat) (z zh : vec3) (H : mat3) (i : nat) (s : locals) :
  (index <= SENSOR_LIMIT)%nat ->
  Sij (loc_P s) H 0 <> 0 -> Sij (loc_P s) H 1 <> 0 -> Sij (loc_P s) H 2 <> 0 ->
  exists s',
    measurement_step index z zh H i s = Ok s' /\ step_effect index z zh H i s s'.
Proof.
  intros Hidx S0 S1 S2.
  pose proof (matched_lt z zh H (loc_P s) i) as Hj.
  unfold step_effect, measurement_step. cbv zeta.
  rewrite (associate_ok z zh H (loc_P s) i S0 S1 S2).
  cbn [bind fst snd]. cbv zeta.
  set (j := matched z zh H (loc_P s) i) in *. clearbody j.
  rewrite (Si_nth _ _ _ Hj), (Xi_nth _ _ _ _ _ _ Hj).
  assert (Sj : Sij (loc_P s) H j <> 0).
  { destruct j as [|[|[|j]]]; try assumption; lia. }
  rewrite (inv_ok _ Sj). cbn [bind].
  rewrite (check_index_ok _ _ Hidx). cbn [bind].
  eexists. split; [reflexivity|].
  cbn [loc_P loc_state loc_temp loc_self].
  unfold slots_after, store_slot.
  cbn [dist mahalanobis sensor_count odom_count A set_dist set_mahalanobis fst snd].
  destruct (Req_dec_T (vget (dist (loc_self s) index) j) 0) as [E|N];
    cbn [dist mahalanobis sensor_count odom_count A set_dist set_mahalanobis fst snd].
  - destruct (loc_temp s) as [t|];
      cbn [dist mahalanobis sensor_count odom_count A set_dist set_mahalanobis fst snd];
      rewrite ?store_same, ?vget_vset_same; repeat split; reflexivity.
  - rewrite ?store_same, ?vget_vset_same. repeat split; reflexivity.
Qed.

(** *** Quadratic forms, symmetry and positive semidefiniteness *)

Lemma symmetric_entries (P : mat3) :
  symmetric P ->
  v1 (row0 P) = v0 (row1 P) /\ v2 (row0 P) = v0 (row2 P) /\ v2 (row1 P) = v1 (row2 P).
Proof.
  destruct_mat P. unfold symmetric, transpose, col. simpl. intros E.
  inversion E. auto.
Qed.

(** A quadratic that is nowhere negative has a non-positive discriminant. *)
Lemma discriminant (a b c : R) :
  (forall t : R, 0 <= a + 2 * b * t + c * (t * t)) -> 0 <= c -> b * b <= a * c.
Proof.
  intros Hq Hc.
  destruct (Req_dec_T c 0) as [Ec|Nc].
  - subst c. destruct (Req_dec_T b 0) as [Eb|Nb].
    + subst b. lra.
    + specialize (Hq (- (a + 1) / (2 * b))).
      replace (a + 2 * b * (- (a + 1) / (2 * b)) + 0 * (- (a + 1) / (2 * b) * (- (a + 1) / (2 * b))))
        with (-1) in Hq by (field; exact Nb).
      lra.
  - assert (Hpos : 0 < c) by lra.
    specialize (Hq (- b / c)).
    replace (a + 2 * b * (- b / c) + c * (- b / c * (- b / c)))
      with ((a * c - b * b) / c) in Hq by (field; exact Nc).
    assert (Hn : 0 <= (a * c - b * b) / c * c) by (apply Rmult_le_pos; lra).
    replace ((a * c - b * b) / c * c) with (a * c - b * b) in Hn by (field; exact Nc).
    lra.
Qed.

Lemma kalman_P_symmetric (P : mat3) (h : vec3) (s : R) : symmetric (kalman_P P h s).
Proof.
  unfold kalman_P. cbv zeta.
  set (P1 := matmul _ _). clearbody P1.
  destruct_mat P1. unfold symmetric. np_entries. f_equal; f_equal; ring.
Qed.

Lemma quad_symmetrize (Q : mat3) (v : vec3) :
  quad (mscale 0.5 (madd Q (transpose Q))) v = quad Q v.
Proof.
  destruct_mat Q. destruct_vec v.
  np_entries.
  replace 0.5 with (/ 2) by lra. field.
Qed.

Lemma quad_rank_one (P : mat3) (K h v : vec3) :
  quad (matmul (msub eye (outer K h)) P) v = quad P v - dot v K * bil P h v.
Proof.
  destruct_mat P. destruct_vec h. destruct_vec v. destruct_vec K.
  np_entries. ring.
Qed.

Lemma dot_kalman_K (P : mat3) (h v : vec3) (s : R) :
  dot v (kalman_K P h s) = bil P v h * / s.
Proof.
  destruct_mat P. destruct_vec h. destruct_vec v.
  np_entries. ring.
Qed.

(** One Kalman update of a symmetric covariance [P]: the quadratic form
    loses a square, so the covariance shrinks; when [P] is positive
    semidefinite as well, so is the outcome. *)
Section SymmetricCovariance.

Variable P : mat3.
Hypothesis P_symmetric : symmetric P.

Lemma quad_line (u v : vec3) (t : R) :
  quad P (vadd u (vscale t v)) = quad P u + 2 * bil P u v * t + quad P v * (t * t).
Proof.
  pose proof (symmetric_entries P P_symmetric) as (E1 & E2 & E3).
  clear P_symmetric. revert E1 E2 E3.
  destruct_mat P. destruct_vec u. destruct_vec v.
  cbn [v0 v1 v2 row0 row1 row2]. intros -> -> ->.
  np_entries. ring.
Qed.

Lemma bil_symmetric (u v : vec3) : bil P u v = bil P v u.
Proof.
  pose proof (symmetric_entries P P_symmetric) as (E1 & E2 & E3).
  clear P_symmetric. revert E1 E2 E3.
  destruct_mat P. destruct_vec u. destruct_vec v.
  cbn [v0 v1 v2 row0 row1 row2]. intros -> -> ->.
  np_entries. ring.
Qed.

Lemma kalman_P_quad (h v : vec3) (s : R) :
  quad (kalman_P P h s) v = quad P v - bil P v h * bil P v h * / s.
Proof.
  unfold kalman_P. cbv zeta.
  rewrite quad_symmetrize, quad_rank_one, dot_kalman_K.
  rewrite (bil_symmetric h v). ring.
Qed.

Lemma kalman_P_below (h : vec3) (s : R) : 0 < s -> below (kalman_P P h s) P.
Proof.
  intros Hpos v. rewrite kalman_P_quad.
  assert (Hi : 0 < / s) by (apply Rinv_0_lt_compat; exact Hpos).
  assert (0 <= bil P v h * bil P v h * / s).
  { apply Rmult_le_pos; [nra | lra]. }
  lra.
Qed.

Lemma trace_kalman_P (h : vec3) (s : R) :
  trace (kalman_P P h s) = trace P - dot (mat_col P h) (mat_col P h) * / s.
Proof.
  pose proof (symmetric_entries P P_symmetric) as (E1 & E2 & E3).
  clear P_symmetric. revert E1 E2 E3.
  destruct_mat P. destruct_vec h.
  cbn [v0 v1 v2 row0 row1 row2]. intros -> -> ->.
  np_entries. replace 0.5 with (/ 2) by lra. generalize (/ s). intros t. field.
Qed.

Section PositiveSemidefinite.

Hypothesis P_psd : psd P.

Lemma cauchy_schwarz (u v : vec3) : bil P u v * bil P u v <= quad P u * quad P v.
Proof.
  apply discriminant.
  - intros t. rewrite <- quad_line. apply P_psd.
  - apply P_psd.
Qed.

Lemma kalman_P_psd (h : vec3) (r : R) :
  0 < r -> psd (kalman_P P h (quad P h + r)).
Proof.
  intros Hr v. rewrite kalman_P_quad.
  pose proof (cauchy_schwarz v h) as CS.
  pose proof (P_psd v) as Hv. pose proof (P_psd h) as Hh.
  set (b := bil P v h) in *. set (a := quad P v) in *. set (c := quad P h) in *.
  assert (Hpos : 0 < c + r) by lra.
  assert (Hle : b * b <= a * (c + r)) by nra.
  assert (Hi : 0 < / (c + r)) by (apply Rinv_0_lt_compat; exact Hpos).
  assert (E : a - b * b * / (c + r) = (a * (c + r) - b * b) * / (c + r))
    by (field; lra).
  rewrite E. apply Rmult_le_pos; lra.
Qed.

End PositiveSemidefinite.

End SymmetricCovariance.

(** *** The correction as a whole *)

Lemma vdiv_ok (v : vec3) (d : R) :
  d <> 0 -> vdiv v d = Ok (mkvec (v0 v / d) (v1 v / d) (v2 v / d)).
Proof. intros Hd. unfold vdiv. destruct (Req_dec_T d 0); [contradiction | reflexivity]. Qed.

Lemma vdiv_nan (v : vec3) (d : R) : d = 0 -> vdiv v d = Err NotANumber.
Proof. intros Hd. unfold vdiv. destruct (Req_dec_T d 0); [reflexivity | contradiction]. Qed.

Lemma for_each_three {S : Type} (body : nat -> S -> result S) (s s3 : S) :
  for_each body (seq 0 3) s = Ok s3 <->
  exists s1 s2, body 0%nat s = Ok s1 /\ body 1%nat s1 = Ok s2 /\ body 2%nat s2 = Ok s3.
Proof.
  cbn [seq for_each]. split.
  - intros E.
    destruct (body 0%nat s) as [s1|] eqn:E1; [|discriminate]. cbn [bind] in E.
    destruct (body 1%nat s1) as [s2|] eqn:E2; [|discriminate]. cbn [bind] in E.
    destruct (body 2%nat s2) as [s3'|] eqn:E3; [|discriminate]. cbn [bind] in E.
    inversion E. subst. exists s1, s2. auto.
  - intros (s1 & s2 & E1 & E2 & E3). rewrite E1. cbn [bind]. rewrite E2. cbn [bind].
    rewrite E3. reflexivity.
Qed.

Lemma update_ok (self : Server) (z0 z1 z2 : R) (s3 : locals) :
  ranges_nonzero (x self) (y self) ->
  for_each (measurement_step (sensor_count self) (mkvec z0 z1 z2)
              (zh_of (x self) (y self)) (H_of (x self) (y self)))
           (seq 0 3) (loop_entry self) = Ok s3 ->
  exists self',
    update self z0 z1 z2 = Ok self' /\
    x self' = v0 (loc_state s3) /\ y self' = v1 (loc_state s3) /\
    yaw self' = v2 (loc_state s3) /\ P self' = loc_P s3 /\
    A self' = A (loc_self s3) /\
    dist self' = dist (loc_self s3) /\
    mahalanobis self' = mahalanobis (loc_self s3) /\
    sensor_count self' = sensor_count (loc_self s3) /\
    odom_count self' = odom_count (loc_self s3).
Proof.
  intros (N0 & N1 & N2) E. unfold update.
  rewrite (vdiv_ok _ _ N0). cbn [bind].
  rewrite (vdiv_ok _ _ N1). cbn [bind].
  rewrite (vdiv_ok _ _ N2). cbn [bind].
  change (set_row (set_row (set_row zeros 0 _) 1 _) 2 _) with (H_of (x self) (y self)).
  change (mkvec (dist_hat_of (x self) (y self) L0) _ _) with (zh_of (x self) (y self)).
  change (mklocals (P self) _ None self) with (loop_entry self).
  rewrite E. cbn [bind].
  eexists. split; [reflexivity|]. simpl. repeat split; reflexivity.
Qed.

Lemma update_nan (self : Server) (z0 z1 z2 : R) :
  ~ ranges_nonzero (x self) (y self) -> update self z0 z1 z2 = Err NotANumber.
Proof.
  intros Hn. unfold update.
  destruct (Req_dec_T (dist_hat_of (x self) (y self) L0) 0) as [E0|N0].
  { rewrite (vdiv_nan _ _ E0). reflexivity. }
  rewrite (vdiv_ok _ _ N0). cbn [bind].
  destruct (Req_dec_T (dist_hat_of (x self) (y self) L1) 0) as [E1|N1].
  { rewrite (vdiv_nan _ _ E1). reflexivity. }
  rewrite (vdiv_ok _ _ N1). cbn [bind].
  destruct (Req_dec_T (dist_hat_of (x self) (y self) L2) 0) as [E2|N2].
  { rewrite (vdiv_nan _ _ E2). reflexivity. }
  exfalso. apply Hn. repeat split; assumption.
Qed.

Lemma update_inversion (self : Server) (z0 z1 z2 : R) (self' : Server) :
  update self z0 z1 z2 = Ok self' ->
  ranges_nonzero (x self) (y self) /\
  exists s3,
    for_each (measurement_step (sensor_count self) (mkvec z0 z1 z2)
                (zh_of (x self) (y self)) (H_of (x self) (y self)))
             (seq 0 3) (loop_entry self) = Ok s3 /\
    x self' = v0 (loc_state s3) /\ y self' = v1 (loc_state s3) /\
    yaw self' = v2 (loc_state s3) /\ P self' = loc_P s3 /\
    A self' = A (loc_self s3) /\
    dist self' = dist (loc_self s3) /\
    mahalanobis self' = mahalanobis (loc_self s3) /\
    sensor_count self' = sensor_count (loc_self s3) /\
    odom_count self' = odom_count (loc_self s3).
Proof.
  intros E.
  assert (Hr : ranges_nonzero (x self) (y self)).
  { destruct (Req_dec_T (dist_hat_of (x self) (y self) L0) 0) as [E0|N0];
      [rewrite update_nan in E; [discriminate | intros (? & ? & ?); contradiction]|].
    destruct (Req_dec_T (dist_hat_of (x self) (y self) L1) 0) as [E1|N1];
      [rewrite update_nan in E; [discriminate | intros (? & ? & ?); contradiction]|].
    destruct (Req_dec_T (dist_hat_of (x self) (y self) L2) 0) as [E2|N2];
      [rewrite update_nan in E; [discriminate | intros (? & ? & ?); contradiction]|].
    repeat split; assumption. }
  split; [exact Hr|].
  destruct (for_each (measurement_step (sensor_count self) (mkvec z0 z1 z2)
                (zh_of (x self) (y self)) (H_of (x self) (y self)))
             (seq 0 3) (loop_entry self)) as [s3|e] eqn:Eloop.
  - destruct (update_ok self z0 z1 z2 s3 Hr Eloop) as (self'' & Eu & Hx).
    rewrite Eu in E. inversion E. subst self''. exists s3. split; [reflexivity | exact Hx].
  - exfalso. revert E. unfold update. destruct Hr as (N0 & N1 & N2).
    rewrite (vdiv_ok _ _ N0). cbn [bind].
    rewrite (vdiv_ok _ _ N1). cbn [bind].
    rewrite (vdiv_ok _ _ N2). cbn [bind].
    change (set_row (set_row (set_row zeros 0 _) 1 _) 2 _) with (H_of (x self) (y self)).
    change (mkvec (dist_hat_of (x self) (y self) L0) _ _) with (zh_of (x self) (y self)).
    change (mklocals (P self) _ None self) with (loop_entry self).
    rewrite Eloop. cbn [bind]. discriminate.
Qed.

Lemma R_jj (j : nat) : get R_ j j = 1 * 0.000025.
Proof. destruct j as [|[|j]]; reflexivity. Qed.

Lemma Sij_quad (P H : mat3) (j : nat) : Sij P H j = quad P (row H j) + 1 * 0.000025.
Proof. unfold Sij. rewrite R_jj. reflexivity. Qed.

Lemma Sij_pos (P H : mat3) (j : nat) : psd P -> 0 < Sij P H j.
Proof. intros Hp. rewrite Sij_quad. specialize (Hp (row H j)). lra. Qed.

Lemma Xij_nonneg (z zh : vec3) (H P : mat3) (i j : nat) :
  psd P -> 0 <= Xij z zh H P i j.
Proof.
  intros Hp. unfold Xij.
  pose proof (Rinv_0_lt_compat _ (Sij_pos P H j Hp)) as Hi.
  set (v := vget z i - vget zh j). set (w := / Sij P H j) in *.
  replace (v * w * v) with (v * v * w) by ring.
  apply Rmult_le_pos; [nra | lra].
Qed.

Lemma Xij_zero (z zh : vec3) (H P : mat3) (i j : nat) :
  psd P -> Xij z zh H P i j <= 0 -> vget z i - vget zh j = 0.
Proof.
  intros Hp Hle. unfold Xij in Hle.
  pose proof (Rinv_0_lt_compat _ (Sij_pos P H j Hp)) as Hi.
  set (v := vget z i - vget zh j) in *. set (w := / Sij P H j) in *.
  destruct (Req_dec_T v 0) as [E|N]; [exact E | exfalso].
  assert (0 < v * v) by nra.
  assert (0 < v * v * w) by (apply Rmult_lt_0_compat; assumption).
  lra.
Qed.

Lemma matched_least (z zh : vec3) (H P : mat3) (i k : nat) :
  (k < 3)%nat -> Xij z zh H P i (matched z zh H P i) <= Xij z zh H P i k.
Proof.
  intros Hk.
  destruct (argmin_three (Xij z zh H P i 0) (Xij z zh H P i 1) (Xij z zh H P i 2))
    as (Hj & Hmin & _).
  fold (Xi z zh H P i) in Hj, Hmin. fold (matched z zh H P i) in Hj, Hmin.
  specialize (Hmin k Hk).
  rewrite !Xi_nth in Hmin by assumption. exact Hmin.
Qed.

Lemma matched_first (z zh : vec3) (H P : mat3) (i k : nat) :
  (k < matched z zh H P i)%nat ->
  Xij z zh H P i (matched z zh H P i) < Xij z zh H P i k.
Proof.
  intros Hk.
  destruct (argmin_three (Xij z zh H P i 0) (Xij z zh H P i 1) (Xij z zh H P i 2))
    as (Hj & _ & Hfst).
  fold (Xi z zh H P i) in Hj, Hfst. fold (matched z zh H P i) in Hj, Hfst.
  specialize (Hfst k Hk).
  rewrite !Xi_nth in Hfst by lia. exact Hfst.
Qed.

(** The first index whose score is least is the matched one. *)
Lemma matched_unique (z zh : vec3) (H P : mat3) (i j : nat) :
  (j < 3)%nat ->
  (forall k, (k < 3)%nat -> Xij z zh H P i j <= Xij z zh H P i k) ->
  (forall k, (k < j)%nat -> Xij z zh H P i j < Xij z zh H P i k) ->
  matched z zh H P i = j.
Proof.
  intros Hj Hmin Hfst.
  pose proof (matched_lt z zh H P i) as Hm.
  destruct (Nat.lt_trichotomy (matched z zh H P i) j) as [Hlt | [E | Hgt]].
  - specialize (Hfst _ Hlt). pose proof (matched_least z zh H P i j Hj). lra.
  - exact E.
  - pose proof (matched_first z zh H P i j Hgt). specialize (Hmin _ Hm). lra.
Qed.

Lemma vadd_zero_gain (state K : vec3) : vadd state (vscale_r K 0) = state.
Proof. destruct_vec state. destruct_vec K. np_entries. f_equal; ring. Qed.

(** One measurement on a symmetric positive-semidefinite covariance: the
    step succeeds and keeps the covariance symmetric, positive
    semidefinite and no larger. *)
Lemma measurement_step_psd (index : nat) (z zh : vec3) (H : mat3) (i : nat) (s : locals) :
  (index <= SENSOR_LIMIT)%nat -> symmetric (loc_P s) -> psd (loc_P s) ->
  exists s',
    measurement_step index z zh H i s = Ok s' /\
    step_effect index z zh H i s s' /\
    symmetric (loc_P s') /\ psd (loc_P s') /\ below (loc_P s') (loc_P s).
Proof.
  intros Hidx Hs Hp.
  assert (Hpos : forall j, 0 < Sij (loc_P s) H j) by (intros j; apply Sij_pos, Hp).
  assert (Hne : forall j, Sij (loc_P s) H j <> 0).
  { intros j. specialize (Hpos j). lra. }
  destruct (measurement_step_ok index z zh H i s Hidx (Hne 0%nat) (Hne 1%nat) (Hne 2%nat))
    as (s' & E & Heff).
  exists s'. split; [exact E|]. split; [exact Heff|].
  destruct Heff as (HP & _). rewrite HP.
  split; [apply kalman_P_symmetric|].
  split.
  { rewrite Sij_quad. apply kalman_P_psd; [exact Hs | exact Hp | lra]. }
  apply kalman_P_below; [exact Hs | apply Hpos].
Qed.

Lemma measurement_step_inversion (index : nat) (z zh : vec3) (H : mat3) (i : nat)
    (s s' : locals) :
  measurement_step index z zh H i s = Ok s' ->
  (index <= SENSOR_LIMIT)%nat /\
  Sij (loc_P s) H 0 <> 0 /\ Sij (loc_P s) H 1 <> 0 /\ Sij (loc_P s) H 2 <> 0.
Proof.
  intros E. unfold measurement_step in E.
  destruct (associate z zh H (loc_P s) i) as [a|e] eqn:Ea; [|discriminate].
  destruct (associate_inversion _ _ _ _ _ _ Ea) as (N0 & N1 & N2 & Ha).
  split; [|auto].
  destruct (Nat.le_gt_cases index SENSOR_LIMIT) as [Hle|Hgt]; [exact Hle | exfalso].
  subst a. cbn [bind fst snd] in E. cbv zeta in E.
  rewrite (Si_nth _ _ _ (matched_lt z zh H (loc_P s) i)) in E.
  assert (Nj : Sij (loc_P s) H (matched z zh H (loc_P s) i) <> 0).
  { pose proof (matched_lt z zh H (loc_P s) i) as Hj.
    destruct (matched z zh H (loc_P s) i) as [|[|[|j]]]; try assumption; lia. }
  rewrite (inv_ok _ Nj) in E. cbn [bind] in E.
  rewrite (check_index_err _ _ Hgt) in E. discriminate.
Qed.

Lemma measurement_step_effect (index : nat) (z zh : vec3) (H : mat3) (i : nat)
    (s s' : locals) :
  measurement_step index z zh H i s = Ok s' -> step_effect index z zh H i s s'.
Proof.
  intros E.
  destruct (measurement_step_inversion _ _ _ _ _ _ _ E) as (Hidx & N0 & N1 & N2).
  destruct (measurement_step_ok index z zh H i s Hidx N0 N1 N2) as (s'' & E' & Heff).
  rewrite E in E'. inversion E'. subst s''. exact Heff.
Qed.

Lemma measurement_step_singular (index : nat) (z zh : vec3) (H : mat3) (i j : nat)
    (s : locals) :
  (j < 3)%nat -> Sij (loc_P s) H j = 0 ->
  measurement_step index z zh H i s = Err LinAlgError.
Proof.
  intros Hj Hz. unfold measurement_step.
  rewrite (associate_singular z zh H (loc_P s) i j Hj Hz). reflexivity.
Qed.

(** A measurement that equals one of the predicted ranges has a zero
    innovation at its match: the state does not move. *)
Lemma exact_measurement_keeps_state (index : nat) (z zh : vec3) (H : mat3)
    (i j0 : nat) (s s' : locals) :
  psd (loc_P s) -> (j0 < 3)%nat -> vget z i = vget zh j0 ->
  measurement_step index z zh H i s = Ok s' ->
  loc_state s' = loc_state s.
Proof.
  intros Hp Hj0 Hz E.
  destruct (measurement_step_effect _ _ _ _ _ _ _ E) as (_ & Hst & _).
  rewrite Hst.
  assert (Hv : vget z i - vget zh (matched z zh H (loc_P s) i) = 0).
  { apply (Xij_zero z zh H (loc_P s) i _ Hp).
    pose proof (matched_least z zh H (loc_P s) i j0 Hj0) as Hle.
    assert (E0 : Xij z zh H (loc_P s) i j0 = 0).
    { unfold Xij. rewrite Hz. ring. }
    lra. }
  rewrite Hv. unfold kalman_state. apply vadd_zero_gain.
Qed.

(** *** Runs of the correction *)

Lemma update_run (self : Server) (z0 z1 z2 : R) (self' : Server) :
  update self z0 z1 z2 = Ok self' ->
  ranges_nonzero (x self) (y self) /\
  (sensor_count self <= SENSOR_LIMIT)%nat /\
  exists s1 s2 s3, correction_run self (mkvec z0 z1 z2) s1 s2 s3 self'.
Proof.
  intros E. destruct (update_inversion _ _ _ _ _ E) as (Hr & s3 & Eloop & Hx).
  split; [exact Hr|].
  apply for_each_three in Eloop. destruct Eloop as (s1 & s2 & E1 & E2 & E3).
  pose proof (measurement_step_effect _ _ _ _ _ _ _ E1) as F1.
  pose proof (measurement_step_effect _ _ _ _ _ _ _ E2) as F2.
  pose proof (measurement_step_effect _ _ _ _ _ _ _ E3) as F3.
  split; [apply (measurement_step_inversion _ _ _ _ _ _ _ E1)|].
  exists s1, s2, s3. unfold correction_run. cbv zeta.
  destruct Hx as (Hx & Hy & Hyaw & HP & HA & Hd & Hm & Hsc & Hoc).
  destruct F1 as (_ & _ & _ & _ & _ & C1 & O1 & A1).
  destruct F2 as (_ & _ & _ & _ & _ & C2 & O2 & A2).
  destruct F3 as (_ & _ & _ & _ & _ & C3 & O3 & A3).
  pose proof (measurement_step_effect _ _ _ _ _ _ _ E1) as F1.
  pose proof (measurement_step_effect _ _ _ _ _ _ _ E2) as F2.
  pose proof (measurement_step_effect _ _ _ _ _ _ _ E3) as F3.
  cbn [loop_entry loc_self] in C1, O1, A1.
  refine (conj E1 (conj E2 (conj E3 (conj F1 (conj F2 (conj F3 _)))))).
  repeat split; try assumption; congruence.
Qed.

(** From a symmetric positive-semidefinite covariance and a pose away from
    the landmarks, the correction returns: no inverse is singular. *)
Lemma update_total (self : Server) (z0 z1 z2 : R) :
  symmetric (P self) -> psd (P self) ->
  ranges_nonzero (x self) (y self) ->
  (sensor_count self <= SENSOR_LIMIT)%nat ->
  exists self' s1 s2 s3,
    update self z0 z1 z2 = Ok self' /\
    correction_run self (mkvec z0 z1 z2) s1 s2 s3 self' /\
    symmetric (loc_P s1) /\ psd (loc_P s1) /\ below (loc_P s1) (P self) /\
    symmetric (loc_P s2) /\ psd (loc_P s2) /\ below (loc_P s2) (loc_P s1) /\
    symmetric (loc_P s3) /\ psd (loc_P s3) /\ below (loc_P s3) (loc_P s2).
Proof.
  intros Hs Hp Hr Hidx.
  set (z := mkvec z0 z1 z2).
  set (zh := zh_of (x self) (y self)). set (H := H_of (x self) (y self)).
  destruct (measurement_step_psd (sensor_count self) z zh H 0 (loop_entry self) Hidx Hs Hp)
    as (s1 & E1 & F1 & Hs1 & Hp1 & Hb1).
  destruct (measurement_step_psd (sensor_count self) z zh H 1 s1 Hidx Hs1 Hp1)
    as (s2 & E2 & F2 & Hs2 & Hp2 & Hb2).
  destruct (measurement_step_psd (sensor_count self) z zh H 2 s2 Hidx Hs2 Hp2)
    as (s3 & E3 & F3 & Hs3 & Hp3 & Hb3).
  assert (Eloop : for_each (measurement_step (sensor_count self) z zh H) (seq 0 3)
                    (loop_entry self) = Ok s3).
  { apply for_each_three. exists s1, s2. auto. }
  destruct (update_ok self z0 z1 z2 s3 Hr Eloop) as (self' & Eu & _).
  destruct (update_run _ _ _ _ _ Eu) as (_ & _ & t1 & t2 & t3 & Hrun).
  assert (t1 = s1 /\ t2 = s2 /\ t3 = s3) as (-> & -> & ->).
  { destruct Hrun as (G1 & G2 & G3 & _). fold z zh H in G1, G2, G3.
    rewrite E1 in G1. inversion G1. subst t1.
    rewrite E2 in G2. inversion G2. subst t2.
    rewrite E3 in G3. inversion G3. auto. }
  exists self', s1, s2, s3. cbn [loop_entry loc_P] in Hb1.
  refine (conj Eu (conj Hrun _)).
  repeat split; assumption.
Qed.

(** *** The prediction *)

Lemma step_calculation_ok (self : Server) (wl wr interval : R) :
  (odom_count self <= ODOM_LIMIT)%nat ->
  exists self',
    step_calculation self wl wr interval = Ok self' /\
    let rot := rot_head wl wr interval in
    let trans := trans_head wl wr interval in
    x self' = x self + trans * cos (yaw self + rot) /\
    y self' = y self + trans * sin (yaw self + rot) /\
    yaw self' = yaw self + rot * 2 /\
    A self' = A_of (A self) (yaw self) rot trans /\
    P self' = predicted_P (A_of (A self) (yaw self) rot trans) (P self)
                (L_of (yaw self) rot trans) /\
    odom_count self' = odom_count self /\
    sensor_count self' = sensor_count self /\
    dist self' = dist self.
Proof.
  intros Hidx. unfold step_calculation.
  rewrite (check_index_ok _ _ Hidx). cbn [bind].
  eexists. split; [reflexivity|]. cbv zeta. simpl.
  repeat split; reflexivity.
Qed.

Lemma step_calculation_inversion (self : Server) (wl wr interval : R) (self' : Server) :
  step_calculation self wl wr interval = Ok self' -> (odom_count self <= ODOM_LIMIT)%nat.
Proof.
  intros E.
  destruct (Nat.le_gt_cases (odom_count self) ODOM_LIMIT) as [Hle|Hgt]; [exact Hle|].
  unfold step_calculation in E. rewrite (check_index_err _ _ Hgt) in E. discriminate.
Qed.

Lemma quad_madd (X Y : mat3) (v : vec3) : quad (madd X Y) v = quad X v + quad Y v.
Proof. destruct_mat X. destruct_mat Y. destruct_vec v. np_entries. ring. Qed.

Lemma quad_congruence (A P : mat3) (v : vec3) :
  quad (matmul (matmul A P) (transpose A)) v = quad P (row_mat v A).
Proof. destruct_mat A. destruct_mat P. destruct_vec v. np_entries. ring. Qed.

Lemma M_psd : psd M.
Proof. intros v. destruct_vec v. unfold M. np_entries. nra. Qed.

Lemma predicted_P_symmetric (A P L : mat3) : symmetric (predicted_P A P L).
Proof. unfold predicted_P. cbv zeta. apply symmetrize_symmetric. Qed.

Lemma predicted_P_psd (A P L : mat3) : psd P -> psd (predicted_P A P L).
Proof.
  intros Hp v. unfold predicted_P. cbv zeta.
  rewrite quad_symmetrize, quad_madd, !quad_congruence.
  pose proof (Hp (row_mat v A)). pose proof (M_psd (row_mat v L)). lra.
Qed.

Lemma A_of_shaped (A : mat3) (yaw rot trans : R) :
  jacobian_shaped A -> jacobian_shaped (A_of A yaw rot trans).
Proof.
  destruct_mat A. unfold jacobian_shaped, A_of. np_entries.
  intros (E1 & E2 & E3 & E4 & E5). repeat split; assumption.
Qed.

Lemma init_symmetric : symmetric (P init).
Proof. unfold symmetric. simpl. np_entries. f_equal; f_equal; ring. Qed.

Lemma init_psd : psd (P init).
Proof. intros v. destruct_vec v. simpl. np_entries. nra. Qed.

(** *** Reachable states *)

Lemma odom_callback_inversion (self : Server) (velocity : R * R) (dt : R) (self' : Server) :
  odom_callback self velocity dt = Ok self' ->
  let rot := rot_head (snd velocity) (fst velocity) dt in
  let trans := trans_head (snd velocity) (fst velocity) dt in
  x self' = x self + trans * cos (yaw self + rot) /\
  y self' = y self + trans * sin (yaw self + rot) /\
  yaw self' = yaw self + rot * 2 /\
  A self' = A_of (A self) (yaw self) rot trans /\
  P self' = predicted_P (A_of (A self) (yaw self) rot trans) (P self)
              (L_of (yaw self) rot trans) /\
  odom_count self' = (odom_count self + 1)%nat /\
  sensor_count self' = sensor_count self /\
  dist self' = dist self.
Proof.
  unfold odom_callback. intros E.
  pose proof (step_calculation_inversion _ _ _ _ _ E) as Hidx.
  destruct (step_calculation_ok _ (snd velocity) (fst velocity) dt Hidx) as (self'' & E' & Hx).
  rewrite E in E'. inversion E'. subst self''. exact Hx.
Qed.

Lemma reachable_invariant (self : Server) :
  reachable self ->
  symmetric (P self) /\ psd (P self) /\ jacobian_shaped (A self).
Proof.
  induction 1 as [| self velocity dt self' Hreach (Hs & Hp & Ha) E
                  | self position self' Hreach (Hs & Hp & Ha) E].
  - split; [exact init_symmetric|]. split; [exact init_psd|].
    unfold jacobian_shaped. simpl. repeat split; reflexivity.
  - destruct (odom_callback_inversion _ _ _ _ E) as (_ & _ & _ & HA & HP & _).
    rewrite HA, HP.
    split; [apply predicted_P_symmetric|].
    split; [apply predicted_P_psd; exact Hp | apply A_of_shaped; exact Ha].
  - unfold sensor_callback in E.
    destruct (update_run _ _ _ _ _ E) as (Hr & Hidx & _).
    set (self1 := set_sensor_count (sensor_count self + 1) self) in *.
    destruct (update_total self1 (fst (fst position)) (snd (fst position)) (snd position)
                Hs Hp Hr Hidx)
      as (self'' & s1 & s2 & s3 & E' & Hrun & _ & _ & _ & _ & _ & _ & Hs3 & Hp3 & _).
    rewrite E in E'. inversion E'. subst self''.
    destruct Hrun as (_ & _ & _ & _ & _ & _ & _ & _ & _ & HP & _ & _ & HA & _).
    rewrite HP, HA. split; [exact Hs3|]. split; [exact Hp3 | exact Ha].
Qed.

(** *** Predicted ranges *)

Lemma dist_hat_of_zero (x y : R) (L : R * R) :
  dist_hat_of x y L = 0 <-> (x, y) = L.
Proof.
  unfold dist_hat_of. destruct L as [lx ly]. cbn [fst snd]. split.
  - intros E.
    pose proof (pow2_ge_0 (x - lx)) as Hx. pose proof (pow2_ge_0 (y - ly)) as Hy.
    apply sqrt_eq_0 in E; [|lra].
    assert (Ex : (x - lx) ^ 2 = 0) by lra. assert (Ey : (y - ly) ^ 2 = 0) by lra.
    assert (x - lx = 0).
    { destruct (Req_dec_T (x - lx) 0) as [|N]; [assumption|].
      exfalso. exact (pow_nonzero _ 2 N Ex). }
    assert (y - ly = 0).
    { destruct (Req_dec_T (y - ly) 0) as [|N]; [assumption|].
      exfalso. exact (pow_nonzero _ 2 N Ey). }
    f_equal; lra.
  - intros E. inversion E. subst.
    replace ((lx - lx) ^ 2 + (ly - ly) ^ 2) with 0 by ring. apply sqrt_0.
Qed.

Lemma ranges_nonzero_iff (x y : R) :
  ranges_nonzero x y <-> (x, y) <> L0 /\ (x, y) <> L1 /\ (x, y) <> L2.
Proof.
  unfold ranges_nonzero. rewrite !dist_hat_of_zero. tauto.
Qed.

Lemma dist_hat_of_spec (x y : R) (j : nat) :
  (j < 3)%nat -> vget (zh_of x y) j = Spec.zh x y j.
Proof.
  intros Hj. unfold Spec.zh, zh_of, dist_hat_of.
  destruct j as [|[|[|j]]]; try lia; cbn [vget v0 v1 v2 Spec.landmark L0 L1 L2 fst snd];
    f_equal; ring.
Qed.

Lemma origin_ranges :
  dist_hat_of 0 0 L0 = 8.5 /\ dist_hat_of 0 0 L1 = sqrt 89 /\
  dist_hat_of 0 0 L2 = sqrt 91.25.
Proof.
  unfold dist_hat_of, L0, L1, L2. cbn [fst snd]. repeat split.
  - apply sqrt_lem_1; lra.
  - f_equal. lra.
  - f_equal. lra.
Qed.

Lemma origin_ranges_nonzero : ranges_nonzero 0 0.
Proof.
  apply ranges_nonzero_iff. unfold L0, L1, L2.
  repeat split; intros E; inversion E; lra.
Qed.

Lemma sqrt_89_bounds : 9.4 < sqrt 89 < 9.5.
Proof.
  split.
  - replace 9.4 with (sqrt (9.4 * 9.4)) by (apply sqrt_square; lra).
    apply sqrt_lt_1; lra.
  - replace 9.5 with (sqrt (9.5 * 9.5)) by (apply sqrt_square; lra).
    apply sqrt_lt_1; lra.
Qed.

Lemma trace_quad (P : mat3) :
  trace P = quad P (mkvec 1 0 0) + quad P (mkvec 0 1 0) + quad P (mkvec 0 0 1).
Proof. destruct_mat P. np_entries. ring. Qed.

Lemma below_trace (P' P : mat3) : below P' P -> trace P' <= trace P.
Proof.
  intros Hb. rewrite !trace_quad.
  pose proof (Hb (mkvec 1 0 0)). pose proof (Hb (mkvec 0 1 0)).
  pose proof (Hb (mkvec 0 0 1)). lra.
Qed.

Lemma below_trans (P1 P2 P3 : mat3) : below P1 P2 -> below P2 P3 -> below P1 P3.
Proof. intros H12 H23 v. specialize (H12 v). specialize (H23 v). lra. Qed.

(** In exact arithmetic the innovation covariance of a reachable state is
    positive for every landmark: a non-positive one can only come from
    rounding. *)
Lemma reachable_innovation_positive (self : Server) (H : mat3) (j : nat) :
  reachable self -> 0 < Sij (P self) H j.
Proof.
  intros Hreach. destruct (reachable_invariant self Hreach) as (_ & Hp & _).
  apply Sij_pos, Hp.
Qed.

(** *** The numpy expressions against the formulas of the spec *)

Lemma H_of_spec (x y : R) (j : nat) :
  (j < 3)%nat -> same_vector (coords (row (H_of x y) j)) (Spec.H x y j).
Proof.
  intros Hj a Ha. unfold coords, Spec.H, Spec.zh, H_of, dist_hat_of.
  three_cases j; three_cases a;
    cbn [row vget v0 v1 v2 row0 row1 row2 Spec.landmark L0 L1 L2 fst snd];
    try (unfold Rdiv; ring);
    f_equal; f_equal; ring.
Qed.

Lemma Sij_spec (M H : mat3) (j : nat) (Pm : Spec.matrix) (hs : Spec.vector) :
  same_matrix (entries M) Pm -> same_vector (coords (row H j)) hs ->
  Sij M H j = Spec.S Pm hs.
Proof.
  intros HM Hh. rewrite Sij_quad. unfold Spec.S, Spec.sum3, Spec.Rjj.
  rewrite <- !HM by lia. rewrite <- !Hh by lia.
  unfold entries, coords. destruct_mat M. destruct (row H j) as [h0 h1 h2].
  np_entries. ring.
Qed.

Lemma kalman_P_spec (M : mat3) (h : vec3) (Pm : Spec.matrix) (hs : Spec.vector) :
  same_matrix (entries M) Pm -> same_vector (coords h) hs ->
  same_matrix (entries (kalman_P M h (Spec.S Pm hs))) (Spec.cov_update Pm hs).
Proof.
  intros HM Hh a b Ha Hb.
  unfold Spec.cov_update, Spec.symmetrized, Spec.mul, Spec.minus, Spec.col_row,
    Spec.gain, Spec.sum3, Spec.I3.
  generalize (Spec.S Pm hs). intros s.
  three_cases a; three_cases b; cbn [Nat.eqb];
    rewrite <- !HM by lia; rewrite <- !Hh by lia;
    unfold entries, coords; destruct_mat M; destruct_vec h;
    np_entries; unfold Rdiv; ring.
Qed.

Lemma kalman_state_spec (state : vec3) (M : mat3) (h : vec3) (v : R)
    (st : Spec.vector) (Pm : Spec.matrix) (hs : Spec.vector) :
  same_vector (coords state) st -> same_matrix (entries M) Pm ->
  same_vector (coords h) hs ->
  same_vector (coords (kalman_state state M h (Spec.S Pm hs) v))
              (Spec.state_update st Pm hs v).
Proof.
  intros Hst HM Hh a Ha.
  unfold Spec.state_update, Spec.gain, Spec.sum3.
  generalize (Spec.S Pm hs). intros s.
  three_cases a; rewrite <- !HM by lia; rewrite <- !Hh by lia; rewrite <- !Hst by lia;
    unfold entries, coords, kalman_state; destruct_mat M; destruct_vec h;
    destruct_vec state; np_entries; unfold Rdiv; ring.
Qed.

Lemma Xij_spec (x y : R) (z : vec3) (M : mat3) (i j : nat) (Pm : Spec.matrix) :
  (j < 3)%nat -> same_matrix (entries M) Pm ->
  Xij z (zh_of x y) (H_of x y) M i j = Spec.X x y Pm (vget z i) j.
Proof.
  intros Hj HM. unfold Xij, Spec.X.
  rewrite (Sij_spec M (H_of x y) j Pm (Spec.H x y j) HM (H_of_spec x y j Hj)).
  rewrite (dist_hat_of_spec x y j Hj). unfold Rdiv. ring.
Qed.

Lemma matched_spec (x y : R) (z : vec3) (M : mat3) (i : nat) (Pm : Spec.matrix) :
  same_matrix (entries M) Pm ->
  Spec.argmin3 (Spec.X x y Pm (vget z i)) (matched z (zh_of x y) (H_of x y) M i).
Proof.
  intros HM. pose proof (matched_lt z (zh_of x y) (H_of x y) M i) as Hj.
  split; [exact Hj|]. intros j' Hj'.
  rewrite <- !(Xij_spec x y z M i) by assumption.
  apply matched_least, Hj'.
Qed.

(** *** Exact measurements and duplicate matches *)

Lemma Xij_exact (z zh : vec3) (H P : mat3) (i j : nat) :
  vget z i = vget zh j -> Xij z zh H P i j = 0.
Proof. intros E. unfold Xij. rewrite E. ring. Qed.

Lemma Xij_pos (z zh : vec3) (H P : mat3) (i j : nat) :
  psd P -> vget z i <> vget zh j -> 0 < Xij z zh H P i j.
Proof.
  intros Hp Hne.
  pose proof (Xij_nonneg z zh H P i j Hp) as Hge.
  destruct (Req_dec_T (Xij z zh H P i j) 0) as [E|N]; [exfalso | lra].
  apply Hne. pose proof (Xij_zero z zh H P i j Hp) as Hz. lra.
Qed.

(** With a positive-semidefinite covariance, a measurement equal to the
    predicted range of landmark [j], and to none before it, is matched to
    [j]. *)
Lemma matched_exact (z zh : vec3) (H P : mat3) (i j : nat) :
  psd P -> (j < 3)%nat -> vget z i = vget zh j ->
  (forall k, (k < j)%nat -> vget z i <> vget zh k) ->
  matched z zh H P i = j.
Proof.
  intros Hp Hj E Hfirst. apply matched_unique; [exact Hj | |].
  - intros k Hk. rewrite (Xij_exact z zh H P i j E). apply Xij_nonneg, Hp.
  - intros k Hk. rewrite (Xij_exact z zh H P i j E). apply Xij_pos; [exact Hp | auto].
Qed.

Lemma slots_after_empty (column : vec3) (j : nat) (zi : R) :
  vget column j = 0 -> slots_after column None j zi = (vset column j zi, None).
Proof.
  intros E. unfold slots_after. destruct (Req_dec_T (vget column j) 0); [reflexivity | contradiction].
Qed.

Lemma slots_after_taken (column : vec3) (temp : option R) (j : nat) (zi : R) :
  vget column j <> 0 ->
  slots_after column temp j zi = (fill_empty (seq 0 3) column zi, Some zi).
Proof.
  intros N. unfold slots_after. destruct (Req_dec_T (vget column j) 0); [contradiction | reflexivity].
Qed.

Lemma fill_empty_cons_taken (i : nat) (rest : list nat) (column : vec3) (t : R) :
  vget column i <> 0 -> fill_empty (i :: rest) column t = fill_empty rest column t.
Proof.
  intros N. cbn [fill_empty]. destruct (Req_dec_T (vget column i) 0); [contradiction | reflexivity].
Qed.

Lemma fill_empty_cons_empty (i : nat) (rest : list nat) (column : vec3) (t : R) :
  vget column i = 0 -> fill_empty (i :: rest) column t = vset column i t.
Proof.
  intros E. cbn [fill_empty]. destruct (Req_dec_T (vget column i) 0); [reflexivity | contradiction].
Qed.

Lemma slots_held_empty (column : vec3) (temp : option R) (j : nat) (zi : R) :
  vget column j = 0 -> slots_held column temp j zi = (vset column j zi, temp).
Proof.
  intros E. unfold slots_held. destruct (Req_dec_T (vget column j) 0); [reflexivity | contradiction].
Qed.

Lemma slots_held_taken (column : vec3) (temp : option R) (j : nat) (zi : R) :
  vget column j <> 0 -> slots_held column temp j zi = (column, Some zi).
Proof.
  intros N. unfold slots_held. destruct (Req_dec_T (vget column j) 0); [contradiction | reflexivity].
Qed.

(** The tick in which two measurements select landmark 0 and the third
    selects landmark 1. *)
Lemma duplicate_run :
  let self1 := set_sensor_count (sensor_count init + 1) init in
  let z := mkvec 8.5 8.5 (sqrt 89) in
  let zh := zh_of (x self1) (y self1) in
  let H := H_of (x self1) (y self1) in
  exists self' s1 s2 s3,
    update self1 8.5 8.5 (sqrt 89) = Ok self' /\
    correction_run self1 z s1 s2 s3 self' /\
    matched z zh H (P self1) 0 = 0%nat /\
    matched z zh H (loc_P s1) 1 = 0%nat /\
    matched z zh H (loc_P s2) 2 = 1%nat.
Proof.
  intros self1 z zh H.
  assert (Hzh : zh = mkvec 8.5 (sqrt 89) (sqrt 91.25)).
  { unfold zh, zh_of. cbn [x y self1 set_sensor_count init].
    destruct origin_ranges as (-> & -> & ->). reflexivity. }
  assert (Hidx : (sensor_count self1 <= SENSOR_LIMIT)%nat)
    by (cbn; unfold SENSOR_LIMIT; lia).
  destruct (update_total self1 8.5 8.5 (sqrt 89) init_symmetric init_psd
              origin_ranges_nonzero Hidx)
    as (self' & s1 & s2 & s3 & E & Hrun & _ & Hp1 & _ & _ & Hp2 & _).
  exists self', s1, s2, s3. split; [exact E|]. split; [exact Hrun|].
  fold zh H. rewrite Hzh. pose proof sqrt_89_bounds as B.
  split; [|split].
  - apply matched_exact; [exact init_psd | lia | reflexivity | intros k Hk; lia].
  - apply matched_exact; [exact Hp1 | lia | reflexivity | intros k Hk; lia].
  - apply matched_exact; [exact Hp2 | lia | reflexivity |].
    intros k Hk. assert (k = 0%nat) by lia. subst k. unfold z. cbn [vget v0 v1 v2]. intros Heq. lra.
Qed.

(** C5, at the tick [(8.5, 8.5, √89)] from the initial state: measurements
    0 and 1 match landmark 0 and measurement 2 matches landmark 1.  The
    code writes the duplicate into slot 1 at once, so that measurement 2
    finds its own slot taken and lands in slot 2; holding the duplicate
    until the three measurements are processed gives another column. *)
Theorem C5_duplicate_written_at_once :
  exists self' : Server,
    sensor_callback init (8.5, 8.5, sqrt 89) = Ok self' /\
    dist self' 1%nat = mkvec 8.5 8.5 (sqrt 89) /\
    held_column [(0%nat, 8.5); (0%nat, 8.5); (1%nat, sqrt 89)]
      = mkvec 8.5 (sqrt 89) 8.5 /\
    dist self' 1%nat
      <> held_column [(0%nat, 8.5); (0%nat, 8.5); (1%nat, sqrt 89)].
Proof.
  destruct duplicate_run as (self' & s1 & s2 & s3 & E & Hrun & J0 & J1 & J2).
  exists self'. split; [exact E|].
  pose proof sqrt_89_bounds as B.
  assert (Hheld : held_column [(0%nat, 8.5); (0%nat, 8.5); (1%nat, sqrt 89)]
                  = mkvec 8.5 (sqrt 89) 8.5).
  { unfold held_column. cbn [fold_left fst snd].
    rewrite (slots_held_empty (mkvec 0 0 0) None 0 8.5) by reflexivity.
    cbn [fst snd vset v0 v1 v2].
    rewrite (slots_held_taken (mkvec 8.5 0 0) None 0 8.5) by (cbn; lra).
    cbn [fst snd].
    rewrite (slots_held_empty (mkvec 8.5 0 0) (Some 8.5) 1 (sqrt 89)) by reflexivity.
    cbn [fst snd vset v0 v1 v2].
    unfold slots_flush. cbn [fst snd seq].
    rewrite fill_empty_cons_taken by (cbn; lra).
    rewrite fill_empty_cons_taken by (cbn; lra).
    rewrite fill_empty_cons_empty by reflexivity. reflexivity. }
  assert (Hdist : dist self' 1%nat = mkvec 8.5 8.5 (sqrt 89)).
  { destruct Hrun as (_ & _ & _ & F1 & F2 & F3 & _ & _ & _ & _ & Hd & _).
    rewrite Hd.
    destruct F1 as (_ & _ & D1 & T1 & _). destruct F2 as (_ & _ & D2 & T2 & _).
    destruct F3 as (_ & _ & D3 & _).
    cbn [sensor_count set_sensor_count init Nat.add loop_entry loc_self loc_temp
         loc_P dist P x y vget v0 v1 v2] in D1, T1, D2, T2, D3, J0, J1, J2.
    rewrite J0 in D1, T1. rewrite J1 in D2, T2. rewrite J2 in D3.
    change (store (fun _ : nat => mkvec 0 0 0) 0 _ 1%nat) with (mkvec 0 0 0) in D1, T1.
    rewrite slots_after_empty in D1, T1 by reflexivity.
    cbn [fst snd vset v0 v1 v2] in D1, T1.
    rewrite D1, T1 in D2, T2.
    rewrite slots_after_taken in D2, T2 by (cbn; lra).
    cbn [fst snd seq] in D2, T2.
    rewrite fill_empty_cons_taken in D2 by (cbn; lra).
    rewrite fill_empty_cons_empty in D2 by reflexivity.
    cbn [vset v0 v1 v2] in D2.
    rewrite D2, T2 in D3.
    rewrite slots_after_taken in D3 by (cbn; lra).
    cbn [fst snd seq] in D3.
    rewrite fill_empty_cons_taken in D3 by (cbn; lra).
    rewrite fill_empty_cons_taken in D3 by (cbn; lra).
    rewrite fill_empty_cons_empty in D3 by reflexivity.
    exact D3. }
  split; [exact Hdist|]. split; [exact Hheld|].
  rewrite Hdist, Hheld. intros Heq. inversion Heq. lra.
Qed.

Lemma same_matrix_refl (P : Spec.matrix) : same_matrix P P.
Proof. intros a b _ _. reflexivity. Qed.

Lemma same_vector_refl (v : Spec.vector) : same_vector v v.
Proof. intros a _. reflexivity. Qed.

Lemma associate_of_step (index : nat) (z zh : vec3) (H : mat3) (i : nat) (s s' : locals) :
  measurement_step index z zh H i s = Ok s' ->
  associate z zh H (loc_P s) i
  = Ok (matched z zh H (loc_P s) i, (Xi z zh H (loc_P s) i, Si (loc_P s) H)).
Proof.
  intros E. destruct (measurement_step_inversion _ _ _ _ _ _ _ E) as (_ & N0 & N1 & N2).
  apply associate_ok; assumption.
Qed.

(** C2.  In the correction the measurements are associated in arrival
    order [i = 0, 1, 2]; measurement [i] is matched to the landmark [j]
    that [associate] returns, which minimises [X_ij = v_ij² / S_ij] over all
    three landmarks, [S_ij] being taken with the covariance the earlier
    measurements of the tick have left.  No landmark leaves the candidate
    set: there is a tick in which measurements 0 and 1 both match
    landmark 0. *)
Theorem C2_greedy_association :
  (forall (self : Server) (z0 z1 z2 : R) (self' : Server),
      update self z0 z1 z2 = Ok self' ->
      let z := mkvec z0 z1 z2 in
      let zh := zh_of (x self) (y self) in
      let H := H_of (x self) (y self) in
      exists (j0 j1 j2 : nat) (P1 P2 : mat3),
        (exists XS, associate z zh H (P self) 0 = Ok (j0, XS)) /\
        Spec.argmin3 (Spec.X (x self) (y self) (entries (P self)) z0) j0 /\
        P1 = kalman_P (P self) (row H j0) (Sij (P self) H j0) /\
        (exists XS, associate z zh H P1 1 = Ok (j1, XS)) /\
        Spec.argmin3 (Spec.X (x self) (y self) (entries P1) z1) j1 /\
        P2 = kalman_P P1 (row H j1) (Sij P1 H j1) /\
        (exists XS, associate z zh H P2 2 = Ok (j2, XS)) /\
        Spec.argmin3 (Spec.X (x self) (y self) (entries P2) z2) j2 /\
        P self' = kalman_P P2 (row H j2) (Sij P2 H j2)) /\
  (exists (self self' : Server) (z0 z1 z2 : R) (XS XS' : list R * list R),
      let z := mkvec z0 z1 z2 in
      let zh := zh_of (x self) (y self) in
      let H := H_of (x self) (y self) in
      update self z0 z1 z2 = Ok self' /\
      associate z zh H (P self) 0 = Ok (0%nat, XS) /\
      associate z zh H (kalman_P (P self) (row H 0) (Sij (P self) H 0)) 1
        = Ok (0%nat, XS')).
Proof.
  split.
  - intros self z0 z1 z2 self' E z zh H.
    destruct (update_run _ _ _ _ _ E) as (_ & _ & s1 & s2 & s3 & Hrun).
    destruct Hrun as (G1 & G2 & G3 & F1 & F2 & F3 & _ & _ & _ & HP & _).
    fold z zh H in G1, G2, G3, F1, F2, F3.
    destruct F1 as (HP1 & _). destruct F2 as (HP2 & _). destruct F3 as (HP3 & _).
    pose proof (associate_of_step _ _ _ _ _ _ _ G1) as A1.
    pose proof (associate_of_step _ _ _ _ _ _ _ G2) as A2.
    pose proof (associate_of_step _ _ _ _ _ _ _ G3) as A3.
    cbn [loop_entry loc_P] in HP1, A1.
    exists (matched z zh H (P self) 0), (matched z zh H (loc_P s1) 1),
           (matched z zh H (loc_P s2) 2), (loc_P s1), (loc_P s2).
    split; [eexists; exact A1|].
    split; [apply (matched_spec (x self) (y self) z (P self) 0), same_matrix_refl|].
    split; [exact HP1|].
    split; [eexists; exact A2|].
    split; [apply (matched_spec (x self) (y self) z (loc_P s1) 1), same_matrix_refl|].
    split; [exact HP2|].
    split; [eexists; exact A3|].
    split; [apply (matched_spec (x self) (y self) z (loc_P s2) 2), same_matrix_refl|].
    rewrite HP. exact HP3.
  - destruct duplicate_run as (self' & s1 & s2 & s3 & E & Hrun & J0 & J1 & _).
    destruct Hrun as (G1 & G2 & _ & F1 & _).
    destruct F1 as (HP1 & _).
    pose proof (associate_of_step _ _ _ _ _ _ _ G1) as A1.
    pose proof (associate_of_step _ _ _ _ _ _ _ G2) as A2.
    cbn [loop_entry loc_P] in HP1, A1.
    rewrite J0 in A1, HP1. rewrite J1 in A2. rewrite HP1 in A2.
    eexists _, self', 8.5, 8.5, (sqrt 89), _, _.
    cbv zeta. split; [exact E|]. split; [exact A1 | exact A2].
Qed.

(** C2 at the exact ranges from the initial state. *)
Lemma C2_greedy_association_witness :
  exists (self' : Server) (j0 j1 j2 : nat),
    update init 8.5 (sqrt 89) (sqrt 91.25) = Ok self' /\
    Spec.argmin3 (Spec.X (x init) (y init) (entries (P init)) 8.5) j0.
Proof.
  destruct (update_total init 8.5 (sqrt 89) (sqrt 91.25) init_symmetric init_psd
              origin_ranges_nonzero (Nat.le_0_l SENSOR_LIMIT))
    as (self' & _ & _ & _ & E & _).
  destruct (proj1 C2_greedy_association init 8.5 (sqrt 89) (sqrt 91.25) self' E)
    as (j0 & j1 & j2 & P1 & P2 & _ & Hj0 & _).
  exists self', j0, j1, j2. split; [exact E | exact Hj0].
Defined.

(** C3.  A correction that returns has applied, in arrival order and to
    the landmark matched to each measurement, the gain [K = P·Hᵗ / S], the
    covariance [P' = (I − K·H)·P] symmetrized, and the state
    [state' = state + K·v]. *)
Theorem C3_sequential_kalman_update (self : Server) (z0 z1 z2 : R) (self' : Server) :
  update self z0 z1 z2 = Ok self' ->
  exists j0 j1 j2 : nat,
    let Hs := Spec.H (x self) (y self) in
    let zh := Spec.zh (x self) (y self) in
    let P0 := entries (P self) in
    let P1 := Spec.cov_update P0 (Hs j0) in
    let P2 := Spec.cov_update P1 (Hs j1) in
    let P3 := Spec.cov_update P2 (Hs j2) in
    let st0 := coords (mkvec (x self) (y self) (yaw self)) in
    let st1 := Spec.state_update st0 P0 (Hs j0) (z0 - zh j0) in
    let st2 := Spec.state_update st1 P1 (Hs j1) (z1 - zh j1) in
    let st3 := Spec.state_update st2 P2 (Hs j2) (z2 - zh j2) in
    Spec.argmin3 (Spec.X (x self) (y self) P0 z0) j0 /\
    Spec.argmin3 (Spec.X (x self) (y self) P1 z1) j1 /\
    Spec.argmin3 (Spec.X (x self) (y self) P2 z2) j2 /\
    same_matrix (entries (P self')) P3 /\
    same_vector (coords (mkvec (x self') (y self') (yaw self'))) st3.
Proof.
  intros E.
  destruct (update_run _ _ _ _ _ E) as (_ & _ & s1 & s2 & s3 & Hrun).
  destruct Hrun as (_ & _ & _ & F1 & F2 & F3 & HX & HY & HW & HP & _).
  set (z := mkvec z0 z1 z2) in *.
  set (zh := zh_of (x self) (y self)) in *.
  set (H := H_of (x self) (y self)) in *.
  destruct F1 as (HP1 & HS1 & _). destruct F2 as (HP2 & HS2 & _).
  destruct F3 as (HP3 & HS3 & _).
  cbn [loop_entry loc_P loc_state] in HP1, HS1.
  set (j0 := matched z zh H (P self) 0) in *.
  set (j1 := matched z zh H (loc_P s1) 1) in *.
  set (j2 := matched z zh H (loc_P s2) 2) in *.
  assert (Hj0 : (j0 < 3)%nat) by apply matched_lt.
  assert (Hj1 : (j1 < 3)%nat) by apply matched_lt.
  assert (Hj2 : (j2 < 3)%nat) by apply matched_lt.
  exists j0, j1, j2. cbv zeta.
  set (Hs := Spec.H (x self) (y self)).
  set (P0 := entries (P self)).
  set (P1 := Spec.cov_update P0 (Hs j0)).
  set (P2 := Spec.cov_update P1 (Hs j1)).
  set (st0 := coords (mkvec (x self) (y self) (yaw self))).
  set (st1 := Spec.state_update st0 P0 (Hs j0) (z0 - Spec.zh (x self) (y self) j0)).
  set (st2 := Spec.state_update st1 P1 (Hs j1) (z1 - Spec.zh (x self) (y self) j1)).
  assert (M0 : same_matrix (entries (P self)) P0) by apply same_matrix_refl.
  assert (V0 : same_vector (coords (mkvec (x self) (y self) (yaw self))) st0)
    by apply same_vector_refl.
  assert (Hh : forall j, (j < 3)%nat -> same_vector (coords (row H j)) (Hs j))
    by (intros j Hj; apply H_of_spec, Hj).
  assert (Hz : forall j, (j < 3)%nat -> vget zh j = Spec.zh (x self) (y self) j)
    by (intros j Hj; apply dist_hat_of_spec, Hj).
  assert (E0 : Sij (P self) H j0 = Spec.S P0 (Hs j0))
    by (apply Sij_spec; [exact M0 | apply Hh, Hj0]).
  assert (M1 : same_matrix (entries (loc_P s1)) P1).
  { rewrite HP1, E0. apply kalman_P_spec; [exact M0 | apply Hh, Hj0]. }
  assert (V1 : same_vector (coords (loc_state s1)) st1).
  { rewrite HS1, E0. unfold st1. rewrite <- (Hz _ Hj0).
    apply kalman_state_spec; [exact V0 | exact M0 | apply Hh, Hj0]. }
  assert (E1 : Sij (loc_P s1) H j1 = Spec.S P1 (Hs j1))
    by (apply Sij_spec; [exact M1 | apply Hh, Hj1]).
  assert (M2 : same_matrix (entries (loc_P s2)) P2).
  { rewrite HP2, E1. apply kalman_P_spec; [exact M1 | apply Hh, Hj1]. }
  assert (V2 : same_vector (coords (loc_state s2)) st2).
  { rewrite HS2, E1. unfold st2. rewrite <- (Hz _ Hj1).
    apply kalman_state_spec; [exact V1 | exact M1 | apply Hh, Hj1]. }
  assert (E2 : Sij (loc_P s2) H j2 = Spec.S P2 (Hs j2))
    by (apply Sij_spec; [exact M2 | apply Hh, Hj2]).
  split; [apply (matched_spec (x self) (y self) z (P self) 0 P0 M0)|].
  split; [apply (matched_spec (x self) (y self) z (loc_P s1) 1 P1 M1)|].
  split; [apply (matched_spec (x self) (y self) z (loc_P s2) 2 P2 M2)|].
  split.
  - rewrite HP, HP3, E2. apply kalman_P_spec; [exact M2 | apply Hh, Hj2].
  - assert (V3 : same_vector (coords (loc_state s3))
                   (Spec.state_update st2 P2 (Hs j2) (z2 - Spec.zh (x self) (y self) j2))).
    { rewrite HS3, E2. rewrite <- (Hz _ Hj2).
      apply kalman_state_spec; [exact V2 | exact M2 | apply Hh, Hj2]. }
    intros a Ha. rewrite <- (V3 a Ha). unfold coords.
    destruct a as [|[|[|a]]]; cbn [vget v0 v1 v2]; try lia; congruence.
Qed.

(** C3 at the exact ranges from the initial state. *)
Lemma C3_sequential_kalman_update_witness :
  exists (self' : Server) (j0 : nat),
    update init 8.5 (sqrt 89) (sqrt 91.25) = Ok self' /\
    Spec.argmin3 (Spec.X (x init) (y init) (entries (P init)) 8.5) j0.
Proof.
  destruct (update_total init 8.5 (sqrt 89) (sqrt 91.25) init_symmetric init_psd
              origin_ranges_nonzero (Nat.le_0_l SENSOR_LIMIT))
    as (self' & _ & _ & _ & E & _).
  destruct (C3_sequential_kalman_update init 8.5 (sqrt 89) (sqrt 91.25) self' E)
    as (j0 & j1 & j2 & Hj0 & _).
  exists self', j0. split; [exact E | exact Hj0].
Defined.

(** C4.  The prediction returns the mean
    [x + translation·cos(yaw+rotation)], [y + translation·sin(yaw+rotation)],
    [yaw + 2·rotation] and the covariance [A·P·Aᵗ + L·M·Lᵗ] symmetrized,
    with [A] and [L] the Jacobians of the spec.  [self.A] is updated in
    place, so it must enter with the identity outside [A[0,2]] and
    [A[1,2]]; [reachable_invariant] shows that it always does. *)
Theorem C4_ekf_predict (self : Server) (wl wr dt : R) :
  jacobian_shaped (A self) -> (odom_count self <= ODOM_LIMIT)%nat ->
  exists self' : Server,
    step_calculation self wl wr dt = Ok self' /\
    let rotation := Spec.rotation dt Radius D wl wr in
    let translation := Spec.translation dt Radius wl wr in
    x self' = x self + translation * cos (yaw self + rotation) /\
    y self' = y self + translation * sin (yaw self + rotation) /\
    yaw self' = yaw self + 2 * rotation /\
    same_matrix (entries (A self')) (Spec.A_jac (yaw self) rotation translation) /\
    same_matrix (entries (P self'))
      (Spec.predict_cov (entries (P self))
         (Spec.A_jac (yaw self) rotation translation)
         (Spec.L_jac (yaw self) rotation translation)
         (entries M)).
Proof.
  intros Hshape Hidx.
  destruct (step_calculation_ok self wl wr dt Hidx) as (self' & E & Hx).
  exists self'. split; [exact E|]. cbv zeta in *.
  change (Spec.rotation dt Radius D wl wr) with (rot_head wl wr dt).
  change (Spec.translation dt Radius wl wr) with (trans_head wl wr dt).
  destruct Hx as (HX & HY & HW & HA & HP & _).
  set (rot := rot_head wl wr dt) in *. set (trans := trans_head wl wr dt) in *.
  clearbody rot trans.
  split; [exact HX|]. split; [exact HY|]. split; [rewrite HW; ring|].
  destruct Hshape as (S1 & S2 & S3 & S4 & S5).
  rewrite HA, HP. clear HX HY HW HA HP E.
  set (c := cos (yaw self + rot)). set (s := sin (yaw self + rot)). clearbody c s.
  set (Pm := P self). clearbody Pm.
  set (Am := A self) in *. clearbody Am.
  destruct Am as [[a00 a01 a02] [a10 a11 a12] ar2].
  cbn [v0 v1 v2 row0 row1 row2] in S1, S2, S3, S4, S5. subst.
  split.
  - intros a b Ha Hb. unfold entries, Spec.A_jac, Spec.I3, A_of.
    three_cases a; three_cases b; np_entries; cbn [Nat.eqb]; reflexivity.
  - intros a b Ha Hb.
    unfold Spec.predict_cov, Spec.symmetrized, Spec.plus, Spec.mul, Spec.tr,
      Spec.sum3, Spec.A_jac, Spec.L_jac, Spec.I3, entries, predicted_P, A_of, L_of, M.
    destruct_mat Pm.
    three_cases a; three_cases b; np_entries; cbn [Nat.eqb]; ring.
Qed.

(** C4 at rest from the initial state. *)
Lemma C4_ekf_predict_witness :
  exists self' : Server,
    step_calculation init 0 0 0.1 = Ok self' /\ yaw self' = 0.
Proof.
  assert (Hshape : jacobian_shaped (A init)).
  { unfold jacobian_shaped. simpl. repeat split; reflexivity. }
  destruct (C4_ekf_predict init 0 0 0.1 Hshape (Nat.le_0_l ODOM_LIMIT))
    as (self' & E & _ & _ & HW & _).
  exists self'. split; [exact E|]. rewrite HW. unfold Spec.rotation. simpl. lra.
Defined.

(** C7.  After every prediction, after every Kalman update of a
    correction, and after the correction as a whole, the covariance equals
    its transpose: it has been replaced by [0.5·(Q + Qᵗ)]. *)
Theorem C7_covariance_symmetric :
  (forall (self : Server) (wl wr dt : R) (self' : Server),
      step_calculation self wl wr dt = Ok self' ->
      symmetric (P self') /\
      exists Q, P self' = mscale 0.5 (madd Q (transpose Q))) /\
  (forall (index : nat) (z zh : vec3) (H : mat3) (i : nat) (s s' : locals),
      measurement_step index z zh H i s = Ok s' ->
      symmetric (loc_P s') /\
      exists Q, loc_P s' = mscale 0.5 (madd Q (transpose Q))) /\
  (forall (self : Server) (z0 z1 z2 : R) (self' : Server),
      update self z0 z1 z2 = Ok self' ->
      symmetric (P self') /\
      exists Q, P self' = mscale 0.5 (madd Q (transpose Q))).
Proof.
  assert (Hstep : forall index z zh H i s s',
             measurement_step index z zh H i s = Ok s' ->
             symmetric (loc_P s') /\
             exists Q, loc_P s' = mscale 0.5 (madd Q (transpose Q))).
  { intros index z zh H i s s' E.
    destruct (measurement_step_effect _ _ _ _ _ _ _ E) as (HP & _).
    rewrite HP. split; [apply kalman_P_symmetric|].
    unfold kalman_P. cbv zeta. eexists. reflexivity. }
  split; [|split].
  - intros self wl wr dt self' E.
    pose proof (step_calculation_inversion _ _ _ _ _ E) as Hidx.
    destruct (step_calculation_ok self wl wr dt Hidx) as (self'' & E' & _ & _ & _ & _ & HP & _).
    rewrite E in E'. inversion E'. subst self''. rewrite HP.
    split; [apply predicted_P_symmetric|].
    unfold predicted_P. cbv zeta. eexists. reflexivity.
  - exact Hstep.
  - intros self z0 z1 z2 self' E.
    destruct (update_run _ _ _ _ _ E) as (_ & _ & s1 & s2 & s3 & Hrun).
    destruct Hrun as (_ & _ & G3 & _ & _ & _ & _ & _ & _ & HP & _).
    rewrite HP. exact (Hstep _ _ _ _ _ _ _ G3).
Qed.

(** C7 for the prediction at rest from the initial state. *)
Lemma C7_covariance_symmetric_witness :
  exists self' : Server,
    step_calculation init 0 0 0.1 = Ok self' /\ symmetric (P self').
Proof.
  destruct (step_calculation_ok init 0 0 0.1 (Nat.le_0_l ODOM_LIMIT)) as (self' & E & _).
  exists self'. split; [exact E|].
  exact (proj1 (proj1 C7_covariance_symmetric init 0 0 0.1 self' E)).
Defined.

(** C10.  The correction divides by the predicted ranges: it returns only
    if the pose differs from every landmark, and at a landmark the
    predicted range is zero and the division yields no number. *)
Theorem C10_update_needs_nonzero_ranges (self : Server) (z0 z1 z2 : R) :
  (forall self' : Server,
      update self z0 z1 z2 = Ok self' ->
      forall j : nat, (j < 3)%nat -> (x self, y self) <> Spec.landmark j) /\
  (forall j : nat,
      (j < 3)%nat -> (x self, y self) = Spec.landmark j ->
      Spec.zh (x self) (y self) j = 0 /\
      update self z0 z1 z2 = Err NotANumber).
Proof.
  assert (Hlm : forall j, (j < 3)%nat -> (x self, y self) = Spec.landmark j ->
                  ~ ranges_nonzero (x self) (y self)).
  { intros j Hj E (N0 & N1 & N2).
    three_cases j; [apply N0 | apply N1 | apply N2]; apply dist_hat_of_zero; exact E. }
  split.
  - intros self' E j Hj Hpos.
    destruct (update_run _ _ _ _ _ E) as (Hr & _). exact (Hlm j Hj Hpos Hr).
  - intros j Hj Hpos. split.
    + rewrite <- (dist_hat_of_spec _ _ _ Hj).
      three_cases j; cbn [zh_of vget v0 v1 v2]; apply dist_hat_of_zero; exact Hpos.
    + apply update_nan. exact (Hlm j Hj Hpos).
Qed.

(** C10 with the pose on landmark 0. *)
Lemma C10_update_needs_nonzero_ranges_witness :
  update (set_y (-4.0) (set_x 7.5 init)) 1 2 3 = Err NotANumber.
Proof.
  apply (proj2 (C10_update_needs_nonzero_ranges (set_y (-4.0) (set_x 7.5 init)) 1 2 3)
           0%nat).
  - lia.
  - reflexivity.
Defined.

(** *** A covariance that is not positive semidefinite *)

Lemma Sij_diag (p0 p1 p2 : R) (H : mat3) (j : nat) :
  Sij (diag p0 p1 p2) H j
  = p0 * (v0 (row H j) * v0 (row H j)) + p1 * (v1 (row H j) * v1 (row H j))
    + p2 * (v2 (row H j) * v2 (row H j)) + 0.000025.
Proof.
  rewrite Sij_quad. destruct (row H j) as [h0 h1 h2]. unfold diag. np_entries. ring.
Qed.

Lemma kalman_P_diag_y (p0 p1 p2 s : R) :
  kalman_P (diag p0 p1 p2) (mkvec 0 1 0) s = diag p0 (p1 - p1 * p1 * / s) p2.
Proof.
  unfold diag. np_entries. replace 0.5 with (/ 2) by lra.
  generalize (/ s). intros t. apply mkmat_eq; apply mkvec_eq; field.
Qed.

Lemma kalman_P_diag_x (p0 p1 p2 s : R) :
  kalman_P (diag p0 p1 p2) (mkvec 1 0 0) s = diag (p0 - p0 * p0 * / s) p1 p2.
Proof.
  unfold diag. np_entries. replace 0.5 with (/ 2) by lra.
  generalize (/ s). intros t. apply mkmat_eq; apply mkvec_eq; field.
Qed.

Lemma ranges_at_7_8 :
  dist_hat_of 7.5 8 L0 = 12 /\ dist_hat_of 7.5 8 L1 = 12.5 /\
  dist_hat_of 7.5 8 L2 = sqrt 420.5.
Proof.
  unfold dist_hat_of, L0, L1, L2. cbn [fst snd]. repeat split.
  - apply sqrt_lem_1; lra.
  - apply sqrt_lem_1; lra.
  - f_equal. lra.
Qed.

Lemma sqrt_420_bounds : 20 < sqrt 420.5 < 21.
Proof.
  split.
  - replace 20 with (sqrt (20 * 20)) at 1 by (apply sqrt_square; lra).
    apply sqrt_lt_1; lra.
  - replace 21 with (sqrt (21 * 21)) at 1 by (apply sqrt_square; lra).
    apply sqrt_lt_1; lra.
Qed.

Lemma H_at_7_8 :
  H_of 7.5 8
  = mkmat (mkvec 0 1 0) (mkvec 1 0 0)
          (mkvec (14.5 / sqrt 420.5) (14.5 / sqrt 420.5) 0).
Proof.
  unfold H_of. destruct ranges_at_7_8 as (-> & -> & ->).
  unfold L0, L1, L2. cbn [fst snd].
  apply mkmat_eq; apply mkvec_eq; try lra; unfold Rdiv; try ring; f_equal; lra.
Qed.

Lemma unit_diagonal : 14.5 / sqrt 420.5 * (14.5 / sqrt 420.5) = 0.5.
Proof.
  pose proof sqrt_420_bounds as B.
  assert (Hq : sqrt 420.5 * sqrt 420.5 = 420.5) by (apply sqrt_sqrt; lra).
  assert (Hn : sqrt 420.5 <> 0) by lra.
  apply Rmult_eq_reg_r with (sqrt 420.5 * sqrt 420.5); [|nra].
  assert (Hf : forall n q : R, q <> 0 -> n / q * (n / q) * (q * q) = n * n)
    by (intros n q Hnz; field; exact Hnz).
  rewrite (Hf _ _ Hn), Hq. lra.
Qed.


Lemma Sij_diag_H78 (p0 p1 p2 : R) :
  Sij (diag p0 p1 p2) H78 0 = p1 + 0.000025 /\
  Sij (diag p0 p1 p2) H78 1 = p0 + 0.000025 /\
  Sij (diag p0 p1 p2) H78 2 = 0.5 * p0 + 0.5 * p1 + 0.000025.
Proof.
  rewrite !Sij_diag. unfold H78. cbn [row row0 row1 row2 v0 v1 v2].
  rewrite unit_diagonal. repeat split; lra.
Qed.

Lemma neg_P1 :
  kalman_P (diag (-1) (-1) (-1)) (mkvec 0 1 0) (-1 + 0.000025)
  = diag (-1) (1 / 39999) (-1).
Proof.
  rewrite kalman_P_diag_y. unfold diag. apply mkmat_eq; apply mkvec_eq; lra.
Qed.

Lemma neg_P2 :
  kalman_P (diag (-1) (1 / 39999) (-1)) (mkvec 1 0 0) (-1 + 0.000025)
  = diag (1 / 39999) (1 / 39999) (-1).
Proof.
  rewrite kalman_P_diag_x. unfold diag. apply mkmat_eq; apply mkvec_eq; lra.
Qed.

Lemma neg_match0 : matched z78 zh78 H78 (diag (-1) (-1) (-1)) 0 = 0%nat.
Proof.
  pose proof sqrt_420_bounds as B.
  destruct (Sij_diag_H78 (-1) (-1) (-1)) as (S0 & S1 & S2).
  replace (0.5 * -1 + 0.5 * -1 + 0.000025) with (-1 + 0.000025) in S2 by lra.
  assert (Hw : / (-1 + 0.000025) * (-1 + 0.000025) = 1) by (apply Rinv_l; lra).
  apply matched_unique; [lia | | intros k Hk; lia].
  intros k Hk. unfold Xij. rewrite S0.
  destruct k as [|[|[|k]]]; [rewrite S0 | rewrite S1 | rewrite S2 | lia];
    unfold z78, zh78; cbn [vget v0 v1 v2];
    set (w := / (-1 + 0.000025)) in *; set (q := sqrt 420.5) in *.
  - apply Rle_refl.
  - nra.
  - assert (Hsq : (100 - q) * (100 - q) <= (100 - 12) * (100 - 12)) by nra.
    nra.
Qed.

Lemma neg_match1 : matched z78 zh78 H78 (diag (-1) (1 / 39999) (-1)) 1 = 1%nat.
Proof.
  pose proof sqrt_420_bounds as B.
  destruct (Sij_diag_H78 (-1) (1 / 39999) (-1)) as (S0 & S1 & S2).
  assert (Hw : / (-1 + 0.000025) * (-1 + 0.000025) = 1) by (apply Rinv_l; lra).
  assert (Hp : / (1 / 39999 + 0.000025) * (1 / 39999 + 0.000025) = 1)
    by (apply Rinv_l; lra).
  assert (Hu : / (0.5 * -1 + 0.5 * (1 / 39999) + 0.000025)
               * (0.5 * -1 + 0.5 * (1 / 39999) + 0.000025) = 1)
    by (apply Rinv_l; lra).
  apply matched_unique; [lia | |].
  - intros k Hk. unfold Xij. rewrite S1.
    destruct k as [|[|[|k]]]; [rewrite S0 | rewrite S1 | rewrite S2 | lia];
      unfold z78, zh78; cbn [vget v0 v1 v2];
      set (w := / (-1 + 0.000025)) in *;
      set (p := / (1 / 39999 + 0.000025)) in *;
      set (u := / (0.5 * -1 + 0.5 * (1 / 39999) + 0.000025)) in *;
      set (q := sqrt 420.5) in *.
    + nra.
    + apply Rle_refl.
    + assert (Hsq : 0 <= (20 - q) * (20 - q) <= 1) by nra.
      assert (Hub : -3 < u < 0) by lra.
      assert (Hwb : w < -1) by lra.
      nra.
  - intros k Hk. assert (k = 0%nat) by lia. subst k. unfold Xij. rewrite S0, S1.
    unfold z78, zh78. cbn [vget v0 v1 v2].
    set (w := / (-1 + 0.000025)) in *. set (p := / (1 / 39999 + 0.000025)) in *.
    nra.
Qed.

Lemma mscale_r_eye (c : R) : mscale_r eye c = diag c c c.
Proof. unfold diag. np_entries. apply mkmat_eq; apply mkvec_eq; ring. Qed.

Lemma zh_at_7_8 : zh_of 7.5 8 = zh78.
Proof. unfold zh_of, zh78. destruct ranges_at_7_8 as (-> & -> & ->). reflexivity. Qed.

Lemma ranges_nonzero_7_8 : ranges_nonzero 7.5 8.
Proof.
  unfold ranges_nonzero. destruct ranges_at_7_8 as (-> & -> & ->).
  pose proof sqrt_420_bounds. repeat split; lra.
Qed.

Lemma update_loop_error (self : Server) (z0 z1 z2 : R) (e : error) :
  ranges_nonzero (x self) (y self) ->
  for_each (measurement_step (sensor_count self) (mkvec z0 z1 z2)
              (zh_of (x self) (y self)) (H_of (x self) (y self)))
           (seq 0 3) (loop_entry self) = Err e ->
  update self z0 z1 z2 = Err e.
Proof.
  intros (N0 & N1 & N2) E. unfold update.
  rewrite (vdiv_ok _ _ N0). cbn [bind].
  rewrite (vdiv_ok _ _ N1). cbn [bind].
  rewrite (vdiv_ok _ _ N2). cbn [bind].
  change (set_row (set_row (set_row zeros 0 _) 1 _) 2 _) with (H_of (x self) (y self)).
  change (mkvec (dist_hat_of (x self) (y self) L0) _ _) with (zh_of (x self) (y self)).
  change (mklocals (P self) _ None self) with (loop_entry self).
  rewrite E. reflexivity.
Qed.

Lemma Sij_entries (M H : mat3) (j : nat) :
  Sij M H j = Spec.S (entries M) (coords (row H j)).
Proof. apply Sij_spec; [intros a b _ _; reflexivity | intros a _; reflexivity]. Qed.

(** C6, as the code has it.  Only an innovation covariance [S] that is
    exactly zero stops a correction: the 1x1 inverse raises at once and no
    state is returned.  Every other [S], negative ones included, is used
    as it is: the measurement is processed with [K = P·Hᵗ / S]. *)
Theorem C6_only_a_zero_innovation_covariance_raises :
  (forall (self : Server) (z0 z1 z2 : R) (j : nat),
      ranges_nonzero (x self) (y self) -> (j < 3)%nat ->
      Spec.S (entries (P self)) (Spec.H (x self) (y self) j) = 0 ->
      update self z0 z1 z2 = Err LinAlgError) /\
  (forall (index : nat) (z zh : vec3) (H : mat3) (i j : nat) (s : locals),
      (j < 3)%nat ->
      Spec.S (entries (loc_P s)) (coords (row H j)) = 0 ->
      measurement_step index z zh H i s = Err LinAlgError) /\
  (forall (index : nat) (z zh : vec3) (H : mat3) (i : nat) (s : locals),
      (index <= SENSOR_LIMIT)%nat ->
      (forall j : nat, (j < 3)%nat ->
                       Spec.S (entries (loc_P s)) (coords (row H j)) <> 0) ->
      exists s' : locals,
        measurement_step index z zh H i s = Ok s' /\
        let j := matched z zh H (loc_P s) i in
        loc_P s' = kalman_P (loc_P s) (row H j) (Sij (loc_P s) H j) /\
        loc_state s'
          = kalman_state (loc_state s) (loc_P s) (row H j) (Sij (loc_P s) H j)
              (vget z i - vget zh j)).
Proof.
  split; [|split].
  - intros self z0 z1 z2 j Hr Hj HS.
    apply update_loop_error; [exact Hr|].
    cbn [seq for_each].
    rewrite (measurement_step_singular _ _ _ _ 0 j (loop_entry self) Hj); [reflexivity|].
    cbn [loop_entry loc_P].
    rewrite (Sij_spec (P self) _ j (entries (P self)) (Spec.H (x self) (y self) j));
      [exact HS | intros a b _ _; reflexivity | apply H_of_spec, Hj].
  - intros index z zh H i j s Hj HS.
    apply (measurement_step_singular index z zh H i j s Hj).
    rewrite Sij_entries. exact HS.
  - intros index z zh H i s Hidx HS.
    assert (N : forall j, (j < 3)%nat -> Sij (loc_P s) H j <> 0).
    { intros j Hj. rewrite Sij_entries. apply HS, Hj. }
    destruct (measurement_step_ok index z zh H i s Hidx
                (N 0%nat ltac:(lia)) (N 1%nat ltac:(lia)) (N 2%nat ltac:(lia)))
      as (s' & E & HP & HS' & _).
    exists s'. split; [exact E|]. cbv zeta. split; assumption.
Qed.

(** C6 with the covariance [-0.000025·I] at the pose [(7.5, 8)]: [S] is
    zero for landmark 0. *)
Lemma C6_only_a_zero_innovation_covariance_raises_witness :
  update (set_P (mscale_r eye (-0.000025))
            (set_y 8 (set_x 7.5 (set_sensor_count 1 init)))) 12 12.5 14 
  = Err LinAlgError.
Proof.
  apply (proj1 C6_only_a_zero_innovation_covariance_raises _ 12 12.5 14 0%nat).
  - exact ranges_nonzero_7_8.
  - lia.
  - cbn [x y P set_P set_x set_y set_sensor_count init].
    rewrite <- (Sij_spec (mscale_r eye (-0.000025)) (H_of 7.5 8) 0
                  (entries (mscale_r eye (-0.000025))) (Spec.H 7.5 8 0));
      [| intros a b _ _; reflexivity | apply H_of_spec; lia].
    rewrite mscale_r_eye, H_at_7_8.
    destruct (Sij_diag_H78 (-0.000025) (-0.000025) (-0.000025)) as (S0 & _).
    fold H78. rewrite S0. lra.
Defined.

(** Against C6 as stated: with the covariance [-I] at the pose
    [(7.5, 8)], [S] is negative from the first measurement on, and the
    correction returns a state all the same. *)
Lemma C6_counterexample :
  let self := set_P (mscale_r eye (-1))
                (set_y 8 (set_x 7.5 (set_sensor_count 1 init))) in
  Spec.S (entries (P self)) (Spec.H (x self) (y self) 0) < 0 /\
  exists self' : Server, update self 100 20 12 = Ok self'.
Proof.
  intros self.
  assert (HP0 : P self = diag (-1) (-1) (-1)) by apply mscale_r_eye.
  split.
  - rewrite <- (Sij_spec (P self) (H_of (x self) (y self)) 0
                  (entries (P self)) (Spec.H (x self) (y self) 0));
      [| intros a b _ _; reflexivity | apply H_of_spec; lia].
    rewrite HP0. cbn [x y self set_P set_x set_y set_sensor_count init].
    rewrite H_at_7_8. fold H78.
    destruct (Sij_diag_H78 (-1) (-1) (-1)) as (S0 & _). rewrite S0. lra.
  - assert (Hidx : (sensor_count self <= SENSOR_LIMIT)%nat)
      by (cbn; unfold SENSOR_LIMIT; lia).
    assert (Hr : ranges_nonzero (x self) (y self)) by exact ranges_nonzero_7_8.
    set (step := measurement_step (sensor_count self) (mkvec 100 20 12)
                   (zh_of (x self) (y self)) (H_of (x self) (y self))).
    assert (Hstep : step = measurement_step (sensor_count self) z78 zh78 H78).
    { unfold step. cbn [x y self set_P set_x set_y set_sensor_count init].
      rewrite H_at_7_8, zh_at_7_8. reflexivity. }
    (* first measurement: matched to landmark 0 with S < 0 *)
    destruct (Sij_diag_H78 (-1) (-1) (-1)) as (A0 & A1 & A2).
    destruct (measurement_step_ok (sensor_count self) z78 zh78 H78 0 (loop_entry self) Hidx)
      as (s1 & E1 & HP1 & _).
    1-3: cbn [loop_entry loc_P]; rewrite HP0; rewrite ?A0, ?A1, ?A2; lra.
    cbn [loop_entry loc_P] in HP1. rewrite HP0, neg_match0 in HP1.
    rewrite A0 in HP1. cbn [H78 row row0] in HP1. rewrite neg_P1 in HP1.
    (* second measurement: matched to landmark 1 with S < 0 *)
    destruct (Sij_diag_H78 (-1) (1 / 39999) (-1)) as (B0 & B1 & B2).
    destruct (measurement_step_ok (sensor_count self) z78 zh78 H78 1 s1 Hidx)
      as (s2 & E2 & HP2 & _).
    1-3: rewrite HP1; rewrite ?B0, ?B1, ?B2; lra.
    rewrite HP1, neg_match1 in HP2.
    rewrite B1 in HP2. cbn [H78 row row1] in HP2. rewrite neg_P2 in HP2.
    (* third measurement *)
    destruct (Sij_diag_H78 (1 / 39999) (1 / 39999) (-1)) as (C0 & C1 & C2).
    destruct (measurement_step_ok (sensor_count self) z78 zh78 H78 2 s2 Hidx)
      as (s3 & E3 & _).
    1-3: rewrite HP2; rewrite ?C0, ?C1, ?C2; lra.
    assert (Eloop : for_each step (seq 0 3) (loop_entry self) = Ok s3).
    { rewrite Hstep. apply for_each_three. exists s1, s2. auto. }
    destruct (update_ok self 100 20 12 s3 Hr Eloop) as (self' & E & _).
    exists self'. exact E.
Qed.

(** *** One odometry tick at rest, one exact range tick *)

Lemma at_rest (dt : R) : rot_head 0 0 dt = 0 /\ trans_head 0 0 dt = 0.
Proof. unfold rot_head, trans_head, Radius, D. split; lra. Qed.

Lemma predicted_P_at_rest :
  predicted_P (A_of eye 0 0 0) (mscale_r eye 0.1) (L_of 0 0 0)
  = mkmat (mkvec 0.101 0 0) (mkvec 0 0.1 0) (mkvec 0 0 0.1004).
Proof.
  unfold predicted_P, A_of, L_of, M. rewrite Rplus_0_r, cos_0, sin_0.
  np_entries. apply mkmat_eq; apply mkvec_eq; lra.
Qed.

(** C8.  From the initial state ([P = 0.1·I] at the origin), one odometry
    tick with both wheels at rest and then one range tick with the true
    distances to the three landmarks leave the state at [(0, 0, 0)], and
    the corrected covariance is below the predicted one in the Loewner
    order, with a strictly smaller trace. *)
Theorem C8_exact_ranges_scenario (dt : R) :
  exists self1 self2 : Server,
    odom_callback init (0, 0) dt = Ok self1 /\
    sensor_callback self1 (8.5, sqrt 89, sqrt 91.25) = Ok self2 /\
    (x self2, y self2, yaw self2) = (0, 0, 0) /\
    below (P self2) (P self1) /\
    trace (P self2) < trace (P self1).
Proof.
  destruct (at_rest dt) as (Hrot & Htrans).
  (* the odometry tick *)
  assert (Hidx1 : (odom_count (set_odom_count (odom_count init + 1) init) <= ODOM_LIMIT)%nat)
    by (cbn; unfold ODOM_LIMIT; lia).
  destruct (step_calculation_ok _ 0 0 dt Hidx1) as (self1 & E1 & Hx1).
  cbv zeta in Hx1. rewrite Hrot, Htrans in Hx1.
  destruct Hx1 as (X1 & Y1 & W1 & _ & P1 & _ & C1 & _).
  cbn [x y yaw P A sensor_count set_odom_count init] in X1, Y1, W1, P1, C1.
  rewrite predicted_P_at_rest in P1.
  assert (X1' : x self1 = 0) by (rewrite X1; ring).
  assert (Y1' : y self1 = 0) by (rewrite Y1; ring).
  assert (W1' : yaw self1 = 0) by (rewrite W1; ring).
  assert (Hreach : reachable self1) by (apply (reach_odom init (0, 0) dt); [constructor | exact E1]).
  destruct (reachable_invariant _ Hreach) as (Hs1 & Hp1 & _).
  (* the range tick *)
  set (self1' := set_sensor_count (sensor_count self1 + 1) self1).
  assert (Hr : ranges_nonzero (x self1') (y self1')).
  { cbn. rewrite X1', Y1'. exact origin_ranges_nonzero. }
  assert (Hidx2 : (sensor_count self1' <= SENSOR_LIMIT)%nat).
  { cbn. rewrite C1. unfold SENSOR_LIMIT. lia. }
  destruct (update_total self1' 8.5 (sqrt 89) (sqrt 91.25) Hs1 Hp1 Hr Hidx2)
    as (self2 & s1 & s2 & s3 & E2 & Hrun & Hs_1 & Hp_1 & Hb_1 & Hs_2 & Hp_2 & Hb_2
        & Hs_3 & Hp_3 & Hb_3).
  exists self1, self2. split; [exact E1|]. split; [exact E2|].
  destruct Hrun as (G1 & G2 & G3 & F1 & F2 & F3 & X2 & Y2 & W2 & P2 & _).
  assert (Hzh : zh_of (x self1') (y self1') = mkvec 8.5 (sqrt 89) (sqrt 91.25)).
  { cbn [x y self1' set_sensor_count]. rewrite X1', Y1'. unfold zh_of.
    destruct origin_ranges as (-> & -> & ->). reflexivity. }
  rewrite Hzh in G1, G2, G3, F1.
  (* zero innovations: the state stays *)
  assert (K1 : loc_state s1 = loc_state (loop_entry self1')).
  { apply (exact_measurement_keeps_state _ _ _ _ 0 0 (loop_entry self1') s1 Hp1 ltac:(lia) eq_refl G1). }
  assert (K2 : loc_state s2 = loc_state s1).
  { apply (exact_measurement_keeps_state _ _ _ _ 1 1 s1 s2 Hp_1 ltac:(lia) eq_refl G2). }
  assert (K3 : loc_state s3 = loc_state s2).
  { apply (exact_measurement_keeps_state _ _ _ _ 2 2 s2 s3 Hp_2 ltac:(lia) eq_refl G3). }
  split.
  { rewrite X2, Y2, W2, K3, K2, K1. cbn. rewrite X1', Y1', W1'. reflexivity. }
  assert (Hbelow : below (loc_P s3) (loc_P s1)) by (eapply below_trans; eassumption).
  split.
  { rewrite P2. eapply below_trans; [exact Hbelow | exact Hb_1]. }
  (* the first update strictly lowers the trace *)
  rewrite P2. apply Rle_lt_trans with (trace (loc_P s1)); [apply below_trace, Hbelow|].
  destruct F1 as (HP1 & _). cbn [loop_entry loc_P] in HP1.
  rewrite HP1, (trace_kalman_P _ Hs1).
  set (H := H_of (x self1') (y self1')) in *.
  set (j := matched _ _ _ _ _) in *.
  assert (Hj : j = 0%nat).
  { apply matched_unique; [lia | | intros k Hk; lia].
    intros k Hk. replace (Xij _ _ _ _ _ 0) with 0 by (unfold Xij; cbn [vget v0]; ring).
    apply Xij_nonneg, Hp1. }
  rewrite Hj.
  pose proof (Sij_pos (P self1') H 0 Hp1) as Spos.
  assert (Hi : 0 < / Sij (P self1') H 0) by (apply Rinv_0_lt_compat, Spos).
  assert (Hd : 0 < dot (mat_col (P self1') (row H 0)) (mat_col (P self1') (row H 0))).
  { cbn [P self1' set_sensor_count]. rewrite P1. unfold H.
    cbn [x y self1' set_sensor_count]. rewrite X1', Y1'. unfold H_of.
    destruct origin_ranges as (-> & _ & _). unfold L0. np_entries. cbn [fst snd]. lra. }
  assert (0 < dot (mat_col (P self1') (row H 0)) (mat_col (P self1') (row H 0))
              * / Sij (P self1') H 0) by (apply Rmult_lt_0_compat; assumption).
  cbn [P self1' set_sensor_count] in *. lra.
Qed.

End EKF.

(** ** The ensemble propagator *)

Section Ensemble.
Import Task1.

Lemma epsilon_rot_nonneg (rot trans : R) : 0 <= epsilon_rot rot trans.
Proof.
  unfold epsilon_rot, UNCERTAINTY_MODEL. cbn [nth].
  pose proof (pow2_ge_0 rot). pose proof (pow2_ge_0 trans). lra.
Qed.

Lemma epsilon_trans_nonneg (rot trans : R) : 0 <= epsilon_trans rot trans.
Proof.
  unfold epsilon_trans, UNCERTAINTY_MODEL. cbn [nth].
  pose proof (pow2_ge_0 rot). pose proof (pow2_ge_0 trans). lra.
Qed.

Lemma random_normal_ok (loc scale xi : R) :
  0 <= scale -> random_normal loc scale xi = Ok (loc + scale * xi).
Proof.
  intros Hs. unfold random_normal. destruct (Rlt_dec scale 0); [lra | reflexivity].
Qed.

Lemma propagate_ok (rot trans : R) (draws : R * R * R) (i : nat) (state_k : vec3) :
  exists pose,
    propagate rot trans (epsilon_rot rot trans) (epsilon_trans rot trans) draws i state_k
    = Ok pose /\
    v2 pose = ensemble_raw_yaw (v2 state_k) rot trans draws i.
Proof.
  unfold propagate, ensemble_raw_yaw. destruct (Nat.ltb 0 i).
  - repeat (rewrite random_normal_ok
              by (apply epsilon_rot_nonneg || apply epsilon_trans_nonneg);
            cbn [bind]).
    eexists. split; reflexivity.
  - eexists. split; reflexivity.
Qed.

Lemma previous_le (k : nat) :
  (k <= MESSAGE_LIMIT)%nat -> (previous k <= MESSAGE_LIMIT)%nat.
Proof. destruct k; cbn [previous]; lia. Qed.

Lemma previous_neq (k : nat) : previous k <> k.
Proof. destruct k; cbn [previous]; unfold MESSAGE_LIMIT; lia. Qed.

Lemma store2_same (a : array (array R)) (i k : nat) (v : R) : store2 a i k v i k = v.
Proof. unfold store2. rewrite !store_same. reflexivity. Qed.

Lemma store2_other (a : array (array R)) (i k i' k' : nat) (v : R) :
  i' <> i \/ k' <> k -> store2 a i k v i' k' = a i' k'.
Proof.
  intros Hne. unfold store2, store.
  destruct (Nat.eqb_spec i' i) as [->|]; [|reflexivity].
  destruct (Nat.eqb_spec k' k) as [->|]; [|reflexivity].
  destruct Hne; contradiction.
Qed.

(** One member of the ensemble. *)
Lemma member_step_ok (rot trans : R) (draws : nat -> R * R * R) (i : nat) (self : Server) :
  (message_count self <= MESSAGE_LIMIT)%nat ->
  exists self',
    member_step rot trans (epsilon_rot rot trans) (epsilon_trans rot trans) draws i self
    = Ok self' /\
    message_count self' = message_count self /\
    yaw_euler self' i (message_count self)
    = regulate (ensemble_raw_yaw (yaw_euler self i (previous (message_count self)))
                  rot trans (draws i) i) /\
    (forall i' k', i' <> i \/ k' <> message_count self ->
                   yaw_euler self' i' k' = yaw_euler self i' k').
Proof.
  intros Hk. unfold member_step.
  rewrite (check_index_ok _ _ (previous_le _ Hk)). cbn [bind].
  destruct (propagate_ok rot trans (draws i) i
              (mkvec (x_euler self i (previous (message_count self)))
                     (y_euler self i (previous (message_count self)))
                     (yaw_euler self i (previous (message_count self)))))
    as (pose & E & Hraw).
  rewrite E. cbn [bind]. rewrite (check_index_ok _ _ Hk). cbn [bind].
  eexists. split; [reflexivity|]. cbn [message_count yaw_euler].
  split; [reflexivity|]. split.
  - rewrite store2_same, Hraw. reflexivity.
  - intros i' k' Hne. apply store2_other, Hne.
Qed.

(** The loop over the members: every member listed gets its regulated yaw
    at the current tick; nothing else moves. *)
Lemma members_loop (rot trans : R) (draws : nat -> R * R * R) (l : list nat) :
  forall self : Server,
    (message_count self <= MESSAGE_LIMIT)%nat ->
    exists self',
      for_each (member_step rot trans (epsilon_rot rot trans) (epsilon_trans rot trans)
                  draws) l self = Ok self' /\
      message_count self' = message_count self /\
      (forall i k', k' <> message_count self ->
                    yaw_euler self' i k' = yaw_euler self i k') /\
      (forall i, ~ In i l ->
                 yaw_euler self' i (message_count self)
                 = yaw_euler self i (message_count self)) /\
      (forall i, In i l ->
                 yaw_euler self' i (message_count self)
                 = regulate (ensemble_raw_yaw
                               (yaw_euler self i (previous (message_count self)))
                               rot trans (draws i) i)).
Proof.
  induction l as [|i l IH]; intros self Hk.
  - exists self. cbn [for_each]. repeat split; try reflexivity. intros i [].
  - cbn [for_each].
    destruct (member_step_ok rot trans draws i self Hk) as (self1 & E1 & C1 & Y1 & F1).
    rewrite E1. cbn [bind].
    assert (Hk1 : (message_count self1 <= MESSAGE_LIMIT)%nat) by (rewrite C1; exact Hk).
    destruct (IH self1 Hk1) as (self' & E & C & F & N & Y).
    exists self'. split; [exact E|]. rewrite C1 in C, F, N, Y.
    assert (Hprev : forall i', yaw_euler self1 i' (previous (message_count self))
                               = yaw_euler self i' (previous (message_count self))).
    { intros i'. apply F1. right. apply previous_neq. }
    split; [exact C|]. split; [|split].
    + intros i' k' Hne. rewrite (F i' k' Hne). apply F1. right. exact Hne.
    + intros i' Hout. rewrite N by (intros Hin; apply Hout; right; exact Hin).
      apply F1. left. intros ->. apply Hout. left. reflexivity.
    + intros i' Hin'.
      destruct (in_dec Nat.eq_dec i' l) as [Hin|Hout].
      * rewrite (Y i' Hin), Hprev. reflexivity.
      * destruct Hin' as [->|Hin]; [|contradiction].
        rewrite (N i' Hout). exact Y1.
Qed.

Lemma regulate_range (raw : R) :
  Spec.yaw_in_range (regulate raw) <-> (-3 * PI < raw <= 3 * PI /\ raw <> - PI).
Proof.
  pose proof PI_RGT_0 as Hpi. unfold Spec.yaw_in_range, regulate.
  destruct (Rgt_dec raw PI) as [Hgt|Hle].
  - split; [intros (H1 & H2) | intros ((H1 & H2) & H3)].
    + split; [lra|]. lra.
    + lra.
  - destruct (Rlt_dec raw (- PI)) as [Hlt|Hge].
    + split; [intros (H1 & H2) | intros ((H1 & H2) & H3)].
      * split; [lra|]. lra.
      * lra.
    + split; [intros (H1 & H2) | intros ((H1 & H2) & H3)].
      * split; [lra|]. lra.
      * lra.
Qed.

Lemma ensemble_step_calculation_ok (self : Server) (wl wr : R) (draws : nat -> R * R * R) :
  (message_count self <= MESSAGE_LIMIT)%nat ->
  exists self',
    step_calculation self wl wr draws = Ok self' /\
    forall i, (i < 101)%nat ->
              yaw_euler self' i (message_count self)
              = regulate (ensemble_raw_yaw
                            (yaw_euler self i (previous (message_count self)))
                            (rot_head wl wr) (trans_head wl wr) (draws i) i).
Proof.
  intros Hk. unfold step_calculation.
  destruct (members_loop (rot_head wl wr) (trans_head wl wr) draws (seq 0 101) self Hk)
    as (self' & E & _ & _ & _ & Y).
  exists self'. split; [exact E|].
  intros i Hi. apply Y. apply in_seq. lia.
Qed.

End Ensemble.

(** ** Both estimators *)

(** C9.  Both servers compute [rotation = Δt·Rw·(ωR − ωL)/(2·D)] and
    [translation = Δt·Rw·(ωR + ωL)/2]; equal wheel speeds give
    [rotation = 0] and [translation = Δt·Rw·ω], zero speeds give zero
    increments; the noise variances of the ensemble are
    [20·rotation² + 6·translation²] and [25·translation² + 8·2·rotation²]. *)
Theorem C9_motion_model :
  (forall wl wr dt : R,
      Task2.rot_head wl wr dt = Spec.rotation dt Task2.Radius Task2.D wl wr /\
      Task2.trans_head wl wr dt = Spec.translation dt Task2.Radius wl wr) /\
  (forall wl wr : R,
      Task1.rot_head wl wr
        = Spec.rotation Task1.INTERVAL Task1.R_ Task1.D (wl * PI / 30) (wr * PI / 30) /\
      Task1.trans_head wl wr
        = Spec.translation Task1.INTERVAL Task1.R_ (wl * PI / 30) (wr * PI / 30)) /\
  (forall dt Rw D w : R,
      Spec.rotation dt Rw D w w = 0 /\ Spec.translation dt Rw w w = dt * Rw * w) /\
  (forall dt Rw D : R,
      Spec.rotation dt Rw D 0 0 = 0 /\ Spec.translation dt Rw 0 0 = 0) /\
  (forall w dt : R,
      Task2.rot_head w w dt = 0 /\ Task2.trans_head w w dt = dt * Task2.Radius * w) /\
  (forall w : R,
      Task1.rot_head w w = 0 /\
      Task1.trans_head w w = Task1.INTERVAL * Task1.R_ * (w * PI / 30)) /\
  (forall rotation translation : R,
      Task1.epsilon_rot rotation translation = Spec.eps_rot 20 6 rotation translation /\
      Task1.epsilon_trans rotation translation
        = Spec.eps_trans 25 8 rotation translation).
Proof.
  split; [intros; split; reflexivity|].
  split; [intros; split; reflexivity|].
  split.
  { intros dt Rw D w. unfold Spec.rotation, Spec.translation.
    split; [unfold Rdiv; ring | field]. }
  split.
  { intros dt Rw D. unfold Spec.rotation, Spec.translation, Rdiv. split; ring. }
  split.
  { intros w dt. unfold Task2.rot_head, Task2.trans_head, Task2.Radius, Task2.D. split; lra. }
  split.
  { intros w. unfold Task1.rot_head, Task1.trans_head, Task1.INTERVAL, Task1.R_, Task1.D.
    split; lra. }
  intros rotation translation.
  unfold Task1.epsilon_rot, Task1.epsilon_trans, Task1.UNCERTAINTY_MODEL,
    Spec.eps_rot, Spec.eps_trans.
  cbn [nth]. split; ring.
Qed.

(** C1, as the code has it.  Each ensemble member's per-tick step stores
    the raw yaw sum regulated once ([- 2π] above [π], [+ 2π] below [-π]),
    so the stored yaw lies in [(-π, π]] whenever the raw sum lies in
    [(-3π, 3π]] and is not [-π].  The EKF never wraps: the mean prediction
    leaves [yaw + 2·rotation], and each Kalman update of the correction
    leaves [yaw + K[2]·v]. *)
Theorem C1_yaw_wrapped_once_or_not_at_all :
  (forall (self : Task1.Server) (wl wr : R) (draws : nat -> R * R * R),
      (Task1.message_count self <= Task1.MESSAGE_LIMIT)%nat ->
      exists self' : Task1.Server,
        Task1.step_calculation self wl wr draws = Ok self' /\
        forall i : nat,
          (i < 101)%nat ->
          let k := Task1.message_count self in
          let raw :=
            ensemble_raw_yaw (Task1.yaw_euler self i (Task1.previous k))
              (Task1.rot_head wl wr) (Task1.trans_head wl wr) (draws i) i in
          Task1.yaw_euler self' i k = Task1.regulate raw /\
          (-3 * PI < raw <= 3 * PI -> raw <> - PI ->
           Spec.yaw_in_range (Task1.yaw_euler self' i k))) /\
  (forall (self : Task2.Server) (wl wr dt : R) (self' : Task2.Server),
      Task2.step_calculation self wl wr dt = Ok self' ->
      Task2.yaw self'
      = Task2.yaw self + 2 * Spec.rotation dt Task2.Radius Task2.D wl wr) /\
  (forall (index : nat) (z zh : vec3) (H : mat3) (i : nat) (s s' : Task2.locals),
      Task2.measurement_step index z zh H i s = Ok s' ->
      let j := matched z zh H (Task2.loc_P s) i in
      v2 (Task2.loc_state s')
      = v2 (Task2.loc_state s)
        + v2 (kalman_K (Task2.loc_P s) (row H j) (Sij (Task2.loc_P s) H j))
          * (vget z i - vget zh j)).
Proof.
  split; [|split].
  - intros self wl wr draws Hk.
    destruct (ensemble_step_calculation_ok self wl wr draws Hk) as (self' & E & Y).
    exists self'. split; [exact E|]. intros i Hi. cbv zeta.
    split; [exact (Y i Hi)|]. intros Hraw Hne. rewrite (Y i Hi).
    apply regulate_range. split; assumption.
  - intros self wl wr dt self' E.
    pose proof (step_calculation_inversion _ _ _ _ _ E) as Hidx.
    destruct (step_calculation_ok self wl wr dt Hidx) as (self'' & E' & _ & _ & HW & _).
    rewrite E in E'. inversion E'. subst self''. rewrite HW.
    unfold Task2.rot_head, Spec.rotation. ring.
  - intros index z zh H i s s' E.
    destruct (measurement_step_effect _ _ _ _ _ _ _ E) as (_ & HS & _).
    cbv zeta. rewrite HS. reflexivity.
Qed.

(** C1 at rest: the noiseless member and the EKF prediction from the
    initial states, with both wheels stopped. *)
Lemma C1_yaw_wrapped_once_or_not_at_all_witness :
  (exists self' : Task1.Server,
      Task1.step_calculation Task1.init 0 0 (fun _ => (0, 0, 0)) = Ok self' /\
      Spec.yaw_in_range (Task1.yaw_euler self' 0%nat 0%nat)) /\
  (exists self' : Task2.Server,
      Task2.step_calculation Task2.init 0 0 0.1 = Ok self' /\
      Task2.yaw self' = 0).
Proof.
  pose proof PI_RGT_0 as Hpi. split.
  - destruct (proj1 C1_yaw_wrapped_once_or_not_at_all Task1.init 0 0
                (fun _ => (0, 0, 0)) (Nat.le_0_l Task1.MESSAGE_LIMIT))
      as (self' & E & Y).
    exists self'. split; [exact E|].
    destruct (Y 0%nat ltac:(lia)) as (_ & Hin).
    assert (Hraw : ensemble_raw_yaw
                     (Task1.yaw_euler Task1.init 0%nat
                        (Task1.previous (Task1.message_count Task1.init)))
                     (Task1.rot_head 0 0) (Task1.trans_head 0 0) (0, 0, 0) 0%nat
                   = 0).
    { unfold ensemble_raw_yaw, Task1.rot_head, Task1.INTERVAL, Task1.R_, Task1.D.
      cbn [Nat.ltb Nat.leb Task1.init Task1.yaw_euler]. lra. }
    apply Hin; rewrite Hraw; lra.
  - destruct (step_calculation_ok Task2.init 0 0 0.1 (Nat.le_0_l Task2.ODOM_LIMIT))
      as (self' & E & _).
    exists self'. split; [exact E|].
    rewrite (proj1 (proj2 C1_yaw_wrapped_once_or_not_at_all) Task2.init 0 0 0.1 self' E).
    unfold Spec.rotation. simpl. lra.
Defined.

(** Against C1 as stated: wheel speeds of 0 and 6000 rpm give the
    noiseless member the raw yaw [5π], stored as [3π]; and one odometry
    tick of the EKF with [ωR = 440], [ωL = 0] leaves the yaw at [12]. *)
Lemma C1_counterexample :
  (exists self' : Task1.Server,
      Task1.listener_callback Task1.init (0, 6000) (fun _ => (0, 0, 0)) = Ok self' /\
      Task1.yaw_euler self' 0%nat 1%nat = 3 * PI /\
      ~ Spec.yaw_in_range (Task1.yaw_euler self' 0%nat 1%nat)) /\
  (exists self' : Task2.Server,
      Task2.odom_callback Task2.init (440, 0) 0.1 = Ok self' /\
      Task2.yaw self' = 12 /\
      ~ Spec.yaw_in_range (Task2.yaw self')).
Proof.
  pose proof PI_RGT_0 as Hpi. pose proof PI_4 as Hpi4.
  split.
  - unfold Task1.listener_callback. cbn [fst snd].
    set (self1 := Task1.mkServer _ _ _ _).
    assert (Hk : (Task1.message_count self1 <= Task1.MESSAGE_LIMIT)%nat)
      by (cbn; unfold Task1.MESSAGE_LIMIT; lia).
    destruct (ensemble_step_calculation_ok self1 0 6000 (fun _ => (0, 0, 0)) Hk)
      as (self' & E & Y).
    exists self'. split; [exact E|].
    assert (HY : Task1.yaw_euler self' 0%nat 1%nat = 3 * PI).
    { specialize (Y 0%nat ltac:(lia)).
      cbn [self1 Task1.message_count Task1.init Nat.add Task1.previous Task1.yaw_euler] in Y.
      rewrite Y. unfold ensemble_raw_yaw. cbn [Nat.ltb Nat.leb].
      assert (Hraw : 0 + 2 * Task1.rot_head 0 6000 = 5 * PI).
      { unfold Task1.rot_head, Task1.INTERVAL, Task1.R_, Task1.D. lra. }
      rewrite Hraw. unfold Task1.regulate.
      destruct (Rgt_dec (5 * PI) PI) as [_|N]; lra. }
    split; [exact HY|]. rewrite HY. unfold Spec.yaw_in_range. lra.
  - unfold Task2.odom_callback. cbn [fst snd].
    set (self1 := Task2.set_odom_count _ _).
    assert (Hk : (Task2.odom_count self1 <= Task2.ODOM_LIMIT)%nat)
      by (cbn; unfold Task2.ODOM_LIMIT; lia).
    destruct (step_calculation_ok self1 0 440 0.1 Hk) as (self' & E & _ & _ & HW & _).
    exists self'. split; [exact E|].
    assert (HY : Task2.yaw self' = 12).
    { rewrite HW. cbn [self1 Task2.yaw Task2.set_odom_count Task2.init].
      unfold Task2.rot_head, Task2.Radius, Task2.D. lra. }
    split; [exact HY|]. rewrite HY. unfold Spec.yaw_in_range. lra.
Qed.

(** ** Runs of the extended Kalman filter node *)

Section EKFRuns.
Import Task2.

(** *** What the callbacks leave alone *)

Lemma store_other {T} (a : array T) (n k : nat) (v : T) :
  k <> n -> store a n v k = a k.
Proof.
  intros Hne. unfold store.
  destruct (Nat.eqb_spec k n); [contradiction | reflexivity].
Qed.

Lemma store_slot_other (a : array vec3) (j n k : nat) (v : R) :
  k <> n -> store_slot a j n v k = a k.
Proof. intros Hne. unfold store_slot. apply store_other, Hne. Qed.

Lemma measurement_step_frame (index : nat) (z zh : vec3) (H : mat3) (i : nat)
    (s s' : locals) :
  measurement_step index z zh H i s = Ok s' ->
  x_predict (loc_self s') = x_predict (loc_self s) /\
  y_predict (loc_self s') = y_predict (loc_self s) /\
  yaw_predict (loc_self s') = yaw_predict (loc_self s) /\
  P_predict (loc_self s') = P_predict (loc_self s) /\
  wl (loc_self s') = wl (loc_self s) /\
  wr (loc_self s') = wr (loc_self s) /\
  x_update (loc_self s') = x_update (loc_self s) /\
  y_update (loc_self s') = y_update (loc_self s) /\
  yaw_update (loc_self s') = yaw_update (loc_self s) /\
  P_update (loc_self s') = P_update (loc_self s) /\
  dist_hat (loc_self s') = dist_hat (loc_self s) /\
  (forall k, k <> index ->
             dist (loc_self s') k = dist (loc_self s) k /\
             mahalanobis (loc_self s') k = mahalanobis (loc_self s) k).
Proof.
  intros E.
  destruct (measurement_step_inversion _ _ _ _ _ _ _ E) as (Hidx & S0 & S1 & S2).
  pose proof (matched_lt z zh H (loc_P s) i) as Hj.
  revert E. unfold measurement_step. cbv zeta.
  rewrite (associate_ok z zh H (loc_P s) i S0 S1 S2).
  cbn [bind fst snd]. cbv zeta.
  set (j := matched z zh H (loc_P s) i) in *. clearbody j.
  rewrite (Si_nth _ _ _ Hj), (Xi_nth _ _ _ _ _ _ Hj).
  assert (Sj : Sij (loc_P s) H j <> 0).
  { destruct j as [|[|[|j]]]; try assumption; lia. }
  rewrite (inv_ok _ Sj). cbn [bind].
  rewrite (check_index_ok _ _ Hidx). cbn [bind].
  intros E. inversion E as [E']. clear E E'.
  cbn [loc_self dist set_mahalanobis].
  destruct (Req_dec_T (vget (dist (loc_self s) index) j) 0) as [E0|N0];
    cbn [fst snd]; [destruct (loc_temp s) as [t|]|]; simpl;
    repeat (split; [reflexivity|]); intros k Hk;
    rewrite ?(store_other _ _ _ _ Hk), ?(store_slot_other _ _ _ _ _ Hk); auto.
Qed.

Lemma measurement_loop_frame (index : nat) (z zh : vec3) (H : mat3) (s s3 : locals) :
  for_each (measurement_step index z zh H) (seq 0 3) s = Ok s3 ->
  x_predict (loc_self s3) = x_predict (loc_self s) /\
  y_predict (loc_self s3) = y_predict (loc_self s) /\
  yaw_predict (loc_self s3) = yaw_predict (loc_self s) /\
  P_predict (loc_self s3) = P_predict (loc_self s) /\
  wl (loc_self s3) = wl (loc_self s) /\
  wr (loc_self s3) = wr (loc_self s) /\
  x_update (loc_self s3) = x_update (loc_self s) /\
  y_update (loc_self s3) = y_update (loc_self s) /\
  yaw_update (loc_self s3) = yaw_update (loc_self s) /\
  P_update (loc_self s3) = P_update (loc_self s) /\
  dist_hat (loc_self s3) = dist_hat (loc_self s) /\
  (forall k, k <> index ->
             dist (loc_self s3) k = dist (loc_self s) k /\
             mahalanobis (loc_self s3) k = mahalanobis (loc_self s) k).
Proof.
  intros E. apply for_each_three in E. destruct E as (s1 & s2 & E1 & E2 & E3).
  destruct (measurement_step_frame _ _ _ _ _ _ _ E1)
    as (A1 & A2 & A3 & A4 & A5 & A6 & A7 & A8 & A9 & A10 & A11 & A12).
  destruct (measurement_step_frame _ _ _ _ _ _ _ E2)
    as (B1 & B2 & B3 & B4 & B5 & B6 & B7 & B8 & B9 & B10 & B11 & B12).
  destruct (measurement_step_frame _ _ _ _ _ _ _ E3)
    as (C1 & C2 & C3 & C4 & C5 & C6 & C7 & C8 & C9 & C10 & C11 & C12).
  repeat (split; [congruence|]).
  intros k Hk. destruct (A12 k Hk), (B12 k Hk), (C12 k Hk). split; congruence.
Qed.

Lemma update_log (self : Server) (z0 z1 z2 : R) (self' : Server) :
  update self z0 z1 z2 = Ok self' ->
  (forall k, Log.predicted_entry self' k = Log.predicted_entry self k) /\
  (forall k, k <> sensor_count self ->
             Log.updated_entry self' k = Log.updated_entry self k) /\
  x_update self' (sensor_count self) = x self' /\
  y_update self' (sensor_count self) = y self' /\
  yaw_update self' (sensor_count self) = yaw self' /\
  P_update self' (sensor_count self) = P self' /\
  dist_hat self' (sensor_count self) = zh_of (x self) (y self).
Proof.
  intros E.
  destruct (update_inversion _ _ _ _ _ E) as ((N0 & N1 & N2) & s3 & Eloop & _).
  pose proof (measurement_loop_frame _ _ _ _ _ _ Eloop) as F.
  cbn [loop_entry loc_self] in F.
  destruct F as (A1 & A2 & A3 & A4 & A5 & A6 & A7 & A8 & A9 & A10 & A11 & A12).
  revert E. unfold update.
  rewrite (vdiv_ok _ _ N0). cbn [bind].
  rewrite (vdiv_ok _ _ N1). cbn [bind].
  rewrite (vdiv_ok _ _ N2). cbn [bind].
  change (set_row (set_row (set_row zeros 0 _) 1 _) 2 _) with (H_of (x self) (y self)).
  change (mkvec (dist_hat_of (x self) (y self) L0) _ _) with (zh_of (x self) (y self)).
  change (mklocals (P self) _ None self) with (loop_entry self).
  rewrite Eloop. cbn [bind]. intros E. inversion E as [E']. clear E E'.
  unfold Log.predicted_entry, Log.updated_entry. simpl.
  split; [intros k; congruence|].
  split.
  - intros k Hk. destruct (A12 k Hk) as (D1 & D2).
    rewrite ?(store_other _ _ _ _ Hk), ?(store_slot_other _ _ _ _ _ Hk).
    congruence.
  - rewrite !store_same. repeat (split; [reflexivity|]).
    unfold store_slot. rewrite !store_same. rewrite A11.
    unfold zh_of. destruct (dist_hat self (sensor_count self)); reflexivity.
Qed.

Lemma sensor_callback_log (self : Server) (position : R * R * R) (self' : Server) :
  sensor_callback self position = Ok self' ->
  sensor_count self' = (sensor_count self + 1)%nat /\
  odom_count self' = odom_count self /\
  (forall k, Log.predicted_entry self' k = Log.predicted_entry self k) /\
  (forall k, k <> sensor_count self' ->
             Log.updated_entry self' k = Log.updated_entry self k) /\
  x_update self' (sensor_count self') = x self' /\
  y_update self' (sensor_count self') = y self' /\
  yaw_update self' (sensor_count self') = yaw self' /\
  P_update self' (sensor_count self') = P self' /\
  dist_hat self' (sensor_count self') = zh_of (x self) (y self).
Proof.
  unfold sensor_callback. intros E.
  destruct (update_run _ _ _ _ _ E) as (_ & _ & s1 & s2 & s3 & Hrun).
  destruct Hrun as (_ & _ & _ & _ & _ & _ & _ & _ & _ & _ & _ & _ & _ & Hs & Ho).
  cbn [sensor_count odom_count set_sensor_count] in Hs, Ho.
  rewrite Hs. split; [reflexivity|]. split; [exact Ho|].
  exact (update_log _ _ _ _ _ E).
Qed.

Lemma odom_callback_log (self : Server) (velocity : R * R) (dt : R) (self' : Server) :
  odom_callback self velocity dt = Ok self' ->
  odom_count self' = (odom_count self + 1)%nat /\
  sensor_count self' = sensor_count self /\
  Log.predicted_entry self' (odom_count self')
    = (x self', y self', yaw self', P self', snd velocity, fst velocity) /\
  (forall k, k <> odom_count self' ->
             Log.predicted_entry self' k = Log.predicted_entry self k) /\
  (forall k, Log.updated_entry self' k = Log.updated_entry self k).
Proof.
  unfold odom_callback. intros E.
  pose proof (step_calculation_inversion _ _ _ _ _ E) as Hidx.
  revert E. unfold step_calculation.
  rewrite (check_index_ok _ _ Hidx). cbn [bind].
  intros E. inversion E as [E']. clear E E'.
  unfold Log.predicted_entry, Log.updated_entry. simpl.
  rewrite !store_same.
  split; [reflexivity|]. split; [reflexivity|]. split; [reflexivity|].
  split; [|reflexivity].
  intros k Hk. rewrite !(store_other _ _ _ _ Hk). reflexivity.
Qed.

End EKFRuns.

(** ** The correction and the prediction on any state *)

Section EKFSteps.
Import Task2.

Lemma measurement_step_index_error (index : nat) (z zh : vec3) (H : mat3) (i : nat)
    (s : locals) :
  psd (loc_P s) -> (SENSOR_LIMIT < index)%nat ->
  measurement_step index z zh H i s = Err IndexError.
Proof.
  intros Hp Hidx.
  pose proof (matched_lt z zh H (loc_P s) i) as Hj.
  assert (S : forall j, Sij (loc_P s) H j <> 0).
  { intros j. pose proof (Sij_pos (loc_P s) H j Hp). lra. }
  unfold measurement_step. cbv zeta.
  rewrite (associate_ok z zh H (loc_P s) i (S _) (S _) (S _)).
  cbn [bind fst snd]. cbv zeta.
  rewrite (Si_nth _ _ _ Hj), (inv_ok _ (S _)). cbn [bind].
  rewrite (check_index_err _ _ Hidx). reflexivity.
Qed.

Lemma quad_unit (P : mat3) (k : nat) :
  (k < 3)%nat -> get P k k = quad P (vset (mkvec 0 0 0) k 1).
Proof.
  intros Hk. destruct_mat P. three_cases k; np_entries; ring.
Qed.

Lemma below_diagonal (P' P : mat3) (k : nat) :
  (k < 3)%nat -> below P' P -> get P' k k <= get P k k.
Proof. intros Hk Hb. rewrite !(quad_unit _ _ Hk). apply Hb. Qed.

Lemma psd_diagonal (P : mat3) (k : nat) : (k < 3)%nat -> psd P -> 0 <= get P k k.
Proof. intros Hk Hp. rewrite (quad_unit _ _ Hk). apply Hp. Qed.

Lemma sensor_callback_nan (self : Server) (position : R * R * R) :
  ~ ranges_nonzero (x self) (y self) ->
  sensor_callback self position = Err NotANumber.
Proof. intros Hn. unfold sensor_callback. apply update_nan. exact Hn. Qed.

Lemma sensor_callback_index_error (self : Server) (position : R * R * R) :
  psd (P self) -> ranges_nonzero (x self) (y self) ->
  (SENSOR_LIMIT <= sensor_count self)%nat ->
  sensor_callback self position = Err IndexError.
Proof.
  intros Hp Hr Hlim. unfold sensor_callback. apply update_loop_error; [exact Hr|].
  cbn [seq for_each].
  rewrite measurement_step_index_error; [reflexivity | exact Hp |].
  cbn [sensor_count set_sensor_count]. lia.
Qed.

Lemma sensor_callback_ok (self : Server) (position : R * R * R) :
  symmetric (P self) -> psd (P self) -> ranges_nonzero (x self) (y self) ->
  (sensor_count self < SENSOR_LIMIT)%nat ->
  exists self', sensor_callback self position = Ok self' /\
                sensor_count self' = (sensor_count self + 1)%nat.
Proof.
  intros Hs Hp Hr Hlim. unfold sensor_callback.
  destruct (update_total (set_sensor_count (sensor_count self + 1) self)
              (fst (fst position)) (snd (fst position)) (snd position) Hs Hp Hr)
    as (self' & s1 & s2 & s3 & E & Hrun & _).
  { cbn [sensor_count set_sensor_count]. lia. }
  exists self'. split; [exact E|].
  destruct Hrun as (_ & _ & _ & _ & _ & _ & _ & _ & _ & _ & _ & _ & _ & Hc & _).
  exact Hc.
Qed.

Lemma first_range_message_ok (position : R * R * R) :
  exists self', sensor_callback init position = Ok self' /\
                sensor_count self' = 1%nat.
Proof.
  apply (sensor_callback_ok init position init_symmetric init_psd origin_ranges_nonzero).
  unfold SENSOR_LIMIT. simpl. lia.
Qed.

(** X2.  What a range message does to a state with a symmetric positive
    semidefinite covariance: with the pose on a landmark the division by
    the predicted range yields no number; otherwise the 128th message
    ([sensor_count = SENSOR_LIMIT] on entry) runs past the logs and raises
    [IndexError]; every other message is processed.  [LinAlgError] is
    never raised. *)
Theorem sensor_callback_outcome (self : Server) (position : R * R * R) :
  symmetric (P self) -> psd (P self) ->
  (~ ranges_nonzero (x self) (y self) ->
   sensor_callback self position = Err NotANumber) /\
  (ranges_nonzero (x self) (y self) ->
   (SENSOR_LIMIT <= sensor_count self)%nat ->
   sensor_callback self position = Err IndexError) /\
  (ranges_nonzero (x self) (y self) ->
   (sensor_count self < SENSOR_LIMIT)%nat ->
   exists self', sensor_callback self position = Ok self' /\
                 sensor_count self' = (sensor_count self + 1)%nat) /\
  sensor_callback self position <> Err LinAlgError.
Proof.
  intros Hs Hp.
  pose proof (sensor_callback_nan self position) as Hnan.
  pose proof (sensor_callback_index_error self position Hp) as Hidx.
  pose proof (sensor_callback_ok self position Hs Hp) as Hok.
  refine (conj Hnan (conj Hidx (conj Hok _))).
  destruct (Req_dec_T (dist_hat_of (x self) (y self) L0) 0) as [E0|N0];
    [rewrite Hnan; [discriminate | intros (? & ? & ?); contradiction]|].
  destruct (Req_dec_T (dist_hat_of (x self) (y self) L1) 0) as [E1|N1];
    [rewrite Hnan; [discriminate | intros (? & ? & ?); contradiction]|].
  destruct (Req_dec_T (dist_hat_of (x self) (y self) L2) 0) as [E2|N2];
    [rewrite Hnan; [discriminate | intros (? & ? & ?); contradiction]|].
  assert (Hr : ranges_nonzero (x self) (y self)) by (repeat split; assumption).
  destruct (Nat.lt_ge_cases (sensor_count self) SENSOR_LIMIT) as [Hlt|Hge].
  - destruct (Hok Hr Hlt) as (self' & E & _). rewrite E. discriminate.
  - rewrite (Hidx Hr Hge). discriminate.
Qed.

(** X2 on the initial state: the first range message is processed. *)
Lemma sensor_callback_outcome_witness :
  exists self', sensor_callback init (1, 2, 3) = Ok self' /\
                sensor_count self' = 1%nat.
Proof.
  destruct (sensor_callback_outcome init (1, 2, 3) init_symmetric init_psd)
    as (_ & _ & Hok & _).
  apply Hok; [exact origin_ranges_nonzero | unfold SENSOR_LIMIT; simpl; lia].
Defined.

Lemma correction_shrinks (self : Server) (position : R * R * R) (self' : Server) :
  symmetric (P self) -> psd (P self) ->
  sensor_callback self position = Ok self' ->
  symmetric (P self') /\ psd (P self') /\ below (P self') (P self).
Proof.
  intros Hs Hp E. unfold sensor_callback in E.
  destruct (update_run _ _ _ _ _ E) as (Hr & Hidx & _).
  destruct (update_total (set_sensor_count (sensor_count self + 1) self)
              (fst (fst position)) (snd (fst position)) (snd position) Hs Hp Hr Hidx)
    as (self'' & s1 & s2 & s3 & E' & Hrun & _ & _ & Hb1 & _ & _ & Hb2 & Hs3 & Hp3 & Hb3).
  rewrite E in E'. inversion E'. subst self''.
  destruct Hrun as (_ & _ & _ & _ & _ & _ & _ & _ & _ & HP & _).
  cbn [P set_sensor_count] in Hb1.
  rewrite HP. split; [exact Hs3|]. split; [exact Hp3|].
  eapply below_trans; [exact Hb3|].
  eapply below_trans; [exact Hb2 | exact Hb1].
Qed.

(** X4.  A correction never increases the uncertainty: from a symmetric
    positive semidefinite covariance it returns a symmetric positive
    semidefinite covariance that is below the one it started from in the
    Loewner order, hence with no larger trace and no larger variance of
    [x], [y] or [yaw]. *)
Theorem correction_never_increases_covariance (self : Server)
    (position : R * R * R) (self' : Server) :
  symmetric (P self) -> psd (P self) ->
  sensor_callback self position = Ok self' ->
  symmetric (P self') /\ psd (P self') /\
  below (P self') (P self) /\
  trace (P self') <= trace (P self) /\
  forall k, (k < 3)%nat -> 0 <= get (P self') k k <= get (P self) k k.
Proof.
  intros Hs Hp E.
  destruct (correction_shrinks _ _ _ Hs Hp E) as (Hs' & Hp' & Hb).
  split; [exact Hs'|]. split; [exact Hp'|]. split; [exact Hb|].
  split; [apply below_trace, Hb|].
  intros k Hk. split; [apply psd_diagonal; assumption | apply below_diagonal; assumption].
Qed.

(** X4 on the initial state. *)
Lemma correction_never_increases_covariance_witness :
  exists self', sensor_callback init (1, 2, 3) = Ok self' /\
                trace (P self') <= trace (P init).
Proof.
  destruct (first_range_message_ok (1, 2, 3)) as (self' & E & _).
  exists self'. split; [exact E|].
  apply (correction_never_increases_covariance init (1, 2, 3) self'
           init_symmetric init_psd E).
Defined.

(** X5.  Range messages that bring nothing new leave the pose alone: if
    each of the three measurements equals one of the three predicted
    ranges (in any order, repeats allowed), the correction returns the
    pose it started from, whatever the covariance. *)
Theorem exact_ranges_keep_pose (self : Server) (position : R * R * R)
    (self' : Server) :
  symmetric (P self) -> psd (P self) ->
  (forall i, (i < 3)%nat ->
     exists j, (j < 3)%nat /\
       vget (mkvec (fst (fst position)) (snd (fst position)) (snd position)) i
       = vget (zh_of (x self) (y self)) j) ->
  sensor_callback self position = Ok self' ->
  x self' = x self /\ y self' = y self /\ yaw self' = yaw self.
Proof.
  intros Hs Hp Hex E. unfold sensor_callback in E.
  destruct (update_run _ _ _ _ _ E) as (Hr & Hidx & _).
  destruct (update_total (set_sensor_count (sensor_count self + 1) self)
              (fst (fst position)) (snd (fst position)) (snd position) Hs Hp Hr Hidx)
    as (self'' & s1 & s2 & s3 & E' & Hrun & _ & Hp1 & _ & _ & Hp2 & _).
  rewrite E in E'. inversion E'. subst self''.
  destruct Hrun as (E1 & E2 & E3 & _ & _ & _ & Hx & Hy & Hyaw & _).
  cbn [x y set_sensor_count] in E1, E2, E3.
  destruct (Hex 0%nat) as (j0 & Hj0 & Z0); [lia|].
  destruct (Hex 1%nat) as (j1 & Hj1 & Z1); [lia|].
  destruct (Hex 2%nat) as (j2 & Hj2 & Z2); [lia|].
  assert (Hp0 : psd (loc_P (loop_entry (set_sensor_count (sensor_count self + 1) self))))
    by exact Hp.
  pose proof (exact_measurement_keeps_state _ _ _ _ _ j0 _ s1 Hp0 Hj0 Z0 E1) as K1.
  pose proof (exact_measurement_keeps_state _ _ _ _ _ j1 s1 s2 Hp1 Hj1 Z1 E2) as K2.
  pose proof (exact_measurement_keeps_state _ _ _ _ _ j2 s2 s3 Hp2 Hj2 Z2 E3) as K3.
  rewrite Hx, Hy, Hyaw, K3, K2, K1. cbn [loop_entry loc_state v0 v1 v2 x y yaw set_sensor_count].
  repeat split; reflexivity.
Qed.

(** X5 on the initial state, with the ranges of the landmarks from the
    origin in reverse order. *)
Lemma exact_ranges_keep_pose_witness :
  exists self',
    sensor_callback init (sqrt 91.25, sqrt 89, 8.5) = Ok self' /\
    x self' = 0 /\ y self' = 0 /\ yaw self' = 0.
Proof.
  destruct (first_range_message_ok (sqrt 91.25, sqrt 89, 8.5)) as (self' & E & _).
  exists self'. split; [exact E|].
  apply (exact_ranges_keep_pose init (sqrt 91.25, sqrt 89, 8.5) self'
           init_symmetric init_psd); [|exact E].
  destruct origin_ranges as (R0 & R1 & R2).
  intros i Hi. change (zh_of (x init) (y init)) with (zh_of 0 0).
  unfold zh_of. cbn [fst snd]. rewrite R0, R1, R2.
  destruct i as [|[|[|i]]]; [exists 2%nat | exists 1%nat | exists 0%nat | lia];
    (split; [lia | reflexivity]).
Defined.

Lemma H_of_heading (x y : R) (j : nat) : v2 (row (H_of x y) j) = 0.
Proof.
  destruct j as [|[|j]]; unfold H_of; cbn [row row0 row1 row2 v2];
    unfold Rdiv; apply Rmult_0_l.
Qed.

Lemma kalman_decoupled (P : mat3) (h st : vec3) (s v : R) :
  Log.heading_decoupled P -> v2 h = 0 ->
  Log.heading_decoupled (kalman_P P h s) /\
  get (kalman_P P h s) 2 2 = get P 2 2 /\
  v2 (kalman_state st P h s v) = v2 st.
Proof.
  destruct_mat P. destruct_vec h. destruct_vec st.
  unfold Log.heading_decoupled, kalman_state. np_entries.
  intros (E1 & E2 & E3 & E4) E5. subst.
  generalize (/ s). intros t.
  repeat split; lra || nra || ring.
Qed.

Lemma step_effect_decoupled (index : nat) (z : vec3) (x y : R) (i : nat)
    (s s' : locals) :
  step_effect index z (zh_of x y) (H_of x y) i s s' ->
  Log.heading_decoupled (loc_P s) ->
  Log.heading_decoupled (loc_P s') /\
  get (loc_P s') 2 2 = get (loc_P s) 2 2 /\
  v2 (loc_state s') = v2 (loc_state s).
Proof.
  intros (HP & Hst & _) Hd. rewrite HP, Hst.
  apply kalman_decoupled; [exact Hd | apply H_of_heading].
Qed.

(** X6.  Ranges carry no heading information of their own: when the
    covariance couples the heading to neither coordinate
    ([P[0,2] = P[1,2] = P[2,0] = P[2,1] = 0], as in the initial state),
    a correction leaves [yaw] and its variance [P[2,2]] as they were and
    returns a covariance that is decoupled again. *)
Theorem heading_untouched_without_coupling (self : Server)
    (position : R * R * R) (self' : Server) :
  Log.heading_decoupled (P self) ->
  sensor_callback self position = Ok self' ->
  yaw self' = yaw self /\
  get (P self') 2 2 = get (P self) 2 2 /\
  Log.heading_decoupled (P self').
Proof.
  intros Hd E. unfold sensor_callback in E.
  destruct (update_run _ _ _ _ _ E) as (_ & _ & s1 & s2 & s3 & Hrun).
  destruct Hrun as (_ & _ & _ & F1 & F2 & F3 & _ & _ & Hyaw & HP & _).
  cbn [x y set_sensor_count] in F1, F2, F3.
  assert (Hd0 : Log.heading_decoupled
                  (loc_P (loop_entry (set_sensor_count (sensor_count self + 1) self))))
    by exact Hd.
  destruct (step_effect_decoupled _ _ _ _ _ _ _ F1 Hd0) as (D1 & V1 & Y1).
  destruct (step_effect_decoupled _ _ _ _ _ _ _ F2 D1) as (D2 & V2 & Y2).
  destruct (step_effect_decoupled _ _ _ _ _ _ _ F3 D2) as (D3 & V3 & Y3).
  rewrite Hyaw, HP, Y3, Y2, Y1, V3, V2, V1.
  split; [reflexivity|]. split; [reflexivity | exact D3].
Qed.

(** X6 on the initial state. *)
Lemma heading_untouched_without_coupling_witness :
  exists self', sensor_callback init (1, 2, 3) = Ok self' /\ yaw self' = 0.
Proof.
  destruct (first_range_message_ok (1, 2, 3)) as (self' & E & _).
  exists self'. split; [exact E|].
  apply (heading_untouched_without_coupling init (1, 2, 3) self'); [|exact E].
  unfold Log.heading_decoupled. simpl. repeat split; ring.
Defined.

(** X8.  A prediction moves the position by exactly the translation
    increment, [(x' - x)² + (y' - y)² = trans_head²]; wheels turning
    against each other at the same speed leave the position where it is,
    and wheels turning at the same speed leave the heading. *)
Theorem prediction_step_length (self : Server) (velocity : R * R) (dt : R)
    (self' : Server) :
  odom_callback self velocity dt = Ok self' ->
  (x self' - x self) ^ 2 + (y self' - y self) ^ 2
    = trans_head (snd velocity) (fst velocity) dt ^ 2 /\
  (fst velocity = - snd velocity -> x self' = x self /\ y self' = y self) /\
  (fst velocity = snd velocity -> yaw self' = yaw self).
Proof.
  intros E.
  destruct (odom_callback_inversion _ _ _ _ E) as (Hx & Hy & Hyaw & _).
  cbv zeta in Hx, Hy, Hyaw. rewrite Hx, Hy, Hyaw.
  set (a := yaw self + rot_head (snd velocity) (fst velocity) dt).
  pose proof (sin2_cos2 a) as Hsc. unfold Rsqr in Hsc.
  split; [|split].
  - transitivity (trans_head (snd velocity) (fst velocity) dt ^ 2
                  * (sin a * sin a + cos a * cos a)); [ring | rewrite Hsc; ring].
  - intros Hv. unfold trans_head. rewrite Hv. split; unfold Rdiv; ring.
  - intros Hv. unfold rot_head. rewrite Hv. unfold Rdiv. ring.
Qed.

(** X8 from the initial state, both wheels at [1] rad/s. *)
Lemma prediction_step_length_witness :
  exists self',
    odom_callback init (1, 1) 0.1 = Ok self' /\
    (x self' - x init) ^ 2 + (y self' - y init) ^ 2 = trans_head 1 1 0.1 ^ 2.
Proof.
  destruct (step_calculation_ok (set_odom_count 1 init) 1 1 0.1) as (self' & E & _).
  { unfold ODOM_LIMIT. simpl. lia. }
  exists self'. split; [exact E|].
  apply (prediction_step_length init (1, 1) 0.1 self' E).
Defined.

Lemma predicted_P_heading (A P : mat3) (yaw rot trans : R) :
  jacobian_shaped A ->
  get (predicted_P (A_of A yaw rot trans) P (L_of yaw rot trans)) 2 2
  = get P 2 2 + 0.0004.
Proof.
  intros (_ & _ & _ & _ & E). destruct A as [r0 r1 r2]. cbn [row2] in E. subst r2.
  destruct r0, r1. destruct_mat P.
  unfold predicted_P, A_of, L_of, M. np_entries. lra.
Qed.

(** *** The measured ranges of a tick *)

Lemma fill_empty_first (c : vec3) (t : R) :
  v0 c = 0 -> fill_empty (seq 0 3) c t = mkvec t (v1 c) (v2 c).
Proof.
  intros E. cbn [seq fill_empty vget].
  destruct (Req_dec_T (v0 c) 0); [reflexivity | contradiction].
Qed.

Lemma fill_empty_second (c : vec3) (t : R) :
  v0 c <> 0 -> v1 c = 0 -> fill_empty (seq 0 3) c t = mkvec (v0 c) t (v2 c).
Proof.
  intros N E. cbn [seq fill_empty vget].
  destruct (Req_dec_T (v0 c) 0); [contradiction|].
  destruct (Req_dec_T (v1 c) 0); [reflexivity | contradiction].
Qed.

Lemma fill_empty_third (c : vec3) (t : R) :
  v0 c <> 0 -> v1 c <> 0 -> v2 c = 0 ->
  fill_empty (seq 0 3) c t = mkvec (v0 c) (v1 c) t.
Proof.
  intros N0 N1 E. cbn [seq fill_empty vget].
  destruct (Req_dec_T (v0 c) 0); [contradiction|].
  destruct (Req_dec_T (v1 c) 0); [contradiction|].
  destruct (Req_dec_T (v2 c) 0); [reflexivity | contradiction].
Qed.

Lemma fill_empty_full (c : vec3) (t : R) :
  v0 c <> 0 -> v1 c <> 0 -> v2 c <> 0 -> fill_empty (seq 0 3) c t = c.
Proof.
  intros N0 N1 N2. cbn [seq fill_empty vget].
  destruct (Req_dec_T (v0 c) 0); [contradiction|].
  destruct (Req_dec_T (v1 c) 0); [contradiction|].
  destruct (Req_dec_T (v2 c) 0); [contradiction | reflexivity].
Qed.

Lemma slots_after_empty_held (column : vec3) (t : R) (j : nat) (zi : R) :
  vget column j = 0 ->
  slots_after column (Some t) j zi
  = (fill_empty (seq 0 3) (vset column j zi) t, Some t).
Proof.
  intros E. unfold slots_after.
  destruct (Req_dec_T (vget column j) 0); [reflexivity | contradiction].
Qed.

Ltac slot_side := cbn [vget vset v0 v1 v2]; first [reflexivity | assumption].

Ltac slot_step :=
  match goal with
  | |- context [slots_after (mkvec ?a ?b ?c) ?t ?j ?z] =>
      first [ rewrite (slots_after_empty (mkvec a b c) j z) by slot_side
            | rewrite (slots_after_empty_held (mkvec a b c) _ j z) by slot_side
            | rewrite (slots_after_taken (mkvec a b c) t j z) by slot_side ]
  end;
  cbn [fst snd vset v0 v1 v2];
  try match goal with
      | |- context [fill_empty (seq 0 3) (mkvec ?a ?b ?c) ?t] =>
          first [ rewrite (fill_empty_first (mkvec a b c) t) by slot_side
                | rewrite (fill_empty_second (mkvec a b c) t) by slot_side
                | rewrite (fill_empty_third (mkvec a b c) t) by slot_side
                | rewrite (fill_empty_full (mkvec a b c) t) by slot_side ]
      end;
  cbn [fst snd vset v0 v1 v2].

Ltac permutation_of_three :=
  first [ apply Permutation_refl
        | apply perm_swap
        | apply perm_skip; apply perm_swap
        | eapply perm_trans; [apply perm_swap | apply perm_skip; apply perm_swap]
        | eapply perm_trans; [apply perm_skip; apply perm_swap | apply perm_swap]
        | eapply perm_trans;
          [apply perm_swap
          | eapply perm_trans; [apply perm_skip; apply perm_swap | apply perm_swap]] ].

Lemma slots_permutation (j0 j1 j2 : nat) (z0 z1 z2 : R) :
  (j0 < 3)%nat -> (j1 < 3)%nat -> (j2 < 3)%nat ->
  z0 <> 0 -> z1 <> 0 -> z2 <> 0 ->
  let a1 := slots_after (mkvec 0 0 0) None j0 z0 in
  let a2 := slots_after (fst a1) (snd a1) j1 z1 in
  let a3 := slots_after (fst a2) (snd a2) j2 z2 in
  Permutation (Log.column_entries (fst a3)) [z0; z1; z2].
Proof.
  intros H0 H1 H2 N0 N1 N2. cbv zeta.
  three_cases j0; slot_step;
    (three_cases j1; slot_step;
     (three_cases j2; slot_step; unfold Log.column_entries; cbn [v0 v1 v2];
      permutation_of_three)).
Qed.

End EKFSteps.

(** ** Runs of the node: the callbacks in arrival order *)

Section NodeRuns.
Import Task2.

Lemma last_item_app (l : list R) (a : R) : Py.last_item (l ++ [a]) = Ok a.
Proof. unfold Py.last_item. rewrite rev_app_distr. reflexivity. Qed.

Lemma item_before_last_app (l : list R) (b a : R) :
  Py.item_before_last ((l ++ [b]) ++ [a]) = Ok b.
Proof. unfold Py.item_before_last. rewrite !rev_app_distr. reflexivity. Qed.

Lemma nonempty_snoc (l : list R) : l <> [] -> exists l' b, l = l' ++ [b].
Proof.
  intros Hne. destruct (exists_last Hne) as (l' & b & E). exists l', b. exact E.
Qed.

(** [Server.odom_callback] once the negative indices are resolved. *)
Lemma node_odom_callback_eq (self : Node2.Node) (t : Node2.stamp) (velocity : R * R)
    (l : list R) (b : R) :
  Node2.tspan1 self = l ++ [b] ->
  Node2.odom_callback self t velocity
  = let a := if Nat.eqb (odom_count (Node2.server self) + 1) 1 then 0.1
             else Node2.seconds t - Node2.ts1 self + b in
    srv <- odom_callback (Node2.server self) velocity (Py.round4 (a - b)) ;;
    Ok (Node2.mkNode srv (Node2.seconds t) (Node2.ts2 self)
          (Node2.tspan1 self ++ [a]) (Node2.tspan2 self)).
Proof.
  intros E. unfold Node2.odom_callback. cbv zeta. rewrite E.
  destruct (Nat.eqb (odom_count (Node2.server self) + 1) 1).
  - cbn [bind]. rewrite last_item_app. cbn [bind].
    rewrite item_before_last_app. cbn [bind]. reflexivity.
  - rewrite last_item_app. cbn [bind]. rewrite last_item_app. cbn [bind].
    rewrite item_before_last_app. cbn [bind]. reflexivity.
Qed.

(** [Server.sensor_callback] once the negative index is resolved. *)
Lemma node_sensor_callback_eq (self : Node2.Node) (t : Node2.stamp)
    (position : R * R * R) (l : list R) (b : R) :
  Node2.tspan2 self = l ++ [b] ->
  Node2.sensor_callback self t position
  = let a := if Req_dec_T (Node2.ts2 self) 0
             then IZR (Node2.nanosec t) / 1000000000
             else Node2.seconds t - Node2.ts2 self + b in
    srv <- sensor_callback (Node2.server self) position ;;
    Ok (Node2.mkNode srv (Node2.ts1 self) (Node2.seconds t)
          (Node2.tspan1 self) (Node2.tspan2 self ++ [a])).
Proof.
  intros E. unfold Node2.sensor_callback. cbv zeta. rewrite E.
  destruct (Req_dec_T (Node2.ts2 self) 0).
  - cbn [bind]. reflexivity.
  - rewrite last_item_app. cbn [bind]. reflexivity.
Qed.

(** What a callback of the node that returns has done. *)
Lemma node_odom_callback_inversion (self : Node2.Node) (t : Node2.stamp)
    (velocity : R * R) (self' : Node2.Node) :
  Node2.odom_callback self t velocity = Ok self' ->
  exists l b a dt,
    Node2.tspan1 self = l ++ [b] /\
    a = (if Nat.eqb (odom_count (Node2.server self) + 1) 1 then 0.1
         else Node2.seconds t - Node2.ts1 self + b) /\
    dt = Py.round4 (a - b) /\
    odom_callback (Node2.server self) velocity dt = Ok (Node2.server self') /\
    Node2.tspan1 self' = Node2.tspan1 self ++ [a] /\
    Node2.tspan2 self' = Node2.tspan2 self /\
    Node2.ts1 self' = Node2.seconds t /\
    Node2.ts2 self' = Node2.ts2 self.
Proof.
  intros E.
  destruct (list_eq_dec Req_dec_T (Node2.tspan1 self) []) as [Hnil|Hne].
  - exfalso. revert E. unfold Node2.odom_callback. cbv zeta. rewrite Hnil.
    destruct (Nat.eqb (odom_count (Node2.server self) + 1) 1); cbn; discriminate.
  - destruct (nonempty_snoc _ Hne) as (l & b & Hl).
    rewrite (node_odom_callback_eq self t velocity l b Hl) in E. cbv zeta in E.
    match type of E with
    | bind (odom_callback ?s ?v ?d) _ = _ =>
        destruct (odom_callback s v d) as [srv|e] eqn:Es; [|discriminate]
    end.
    cbn [bind] in E. inversion E. subst self'.
    exists l, b. eexists. eexists.
    split; [exact Hl|]. split; [reflexivity|]. split; [reflexivity|].
    cbn [Node2.server Node2.tspan1 Node2.tspan2 Node2.ts1 Node2.ts2].
    split; [exact Es|]. repeat split; reflexivity.
Qed.

Lemma node_sensor_callback_inversion (self : Node2.Node) (t : Node2.stamp)
    (position : R * R * R) (self' : Node2.Node) :
  Node2.sensor_callback self t position = Ok self' ->
  exists a,
    sensor_callback (Node2.server self) position = Ok (Node2.server self') /\
    Node2.tspan2 self' = Node2.tspan2 self ++ [a] /\
    Node2.tspan1 self' = Node2.tspan1 self /\
    Node2.ts2 self' = Node2.seconds t /\
    Node2.ts1 self' = Node2.ts1 self /\
    (Node2.ts2 self = 0 -> a = IZR (Node2.nanosec t) / 1000000000) /\
    (Node2.ts2 self <> 0 ->
     forall l b, Node2.tspan2 self = l ++ [b] ->
                 a = Node2.seconds t - Node2.ts2 self + b).
Proof.
  unfold Node2.sensor_callback. cbv zeta. intros E.
  destruct (Req_dec_T (Node2.ts2 self) 0) as [Ez|Nz].
  - cbn [bind] in E.
    destruct (sensor_callback (Node2.server self) position) as [srv|e] eqn:Es;
      [|discriminate].
    cbn [bind] in E. inversion E. subst self'. eexists.
    cbn [Node2.server Node2.tspan1 Node2.tspan2 Node2.ts1 Node2.ts2].
    split; [reflexivity|]. split; [reflexivity|]. split; [reflexivity|].
    split; [reflexivity|]. split; [reflexivity|].
    split; [reflexivity | intros; contradiction].
  - destruct (Py.last_item (Node2.tspan2 self)) as [b|e] eqn:El; [|discriminate].
    cbn [bind] in E.
    destruct (sensor_callback (Node2.server self) position) as [srv|e] eqn:Es;
      [|discriminate].
    cbn [bind] in E. inversion E. subst self'. eexists.
    cbn [Node2.server Node2.tspan1 Node2.tspan2 Node2.ts1 Node2.ts2].
    split; [reflexivity|]. split; [reflexivity|]. split; [reflexivity|].
    split; [reflexivity|]. split; [reflexivity|].
    split; [intros; contradiction|].
    intros _ l b' Hl. rewrite Hl, last_item_app in El. inversion El. reflexivity.
Qed.

Lemma spin_cons (m : Node2.message) (msgs : list Node2.message)
    (self node : Node2.Node) :
  Node2.spin (m :: msgs) self = Ok node ->
  exists self', Node2.dispatch m self = Ok self' /\ Node2.spin msgs self' = Ok node.
Proof.
  unfold Node2.spin. cbn [for_each]. intros E.
  destruct (Node2.dispatch m self) as [self'|e]; [|discriminate].
  exists self'. split; [reflexivity | exact E].
Qed.

(** An invariant of the callbacks is an invariant of every run. *)
Lemma spin_invariant (I : Node2.Node -> Prop) :
  (forall self t velocity self',
      I self -> Node2.odom_callback self t velocity = Ok self' -> I self') ->
  (forall self t position self',
      I self -> Node2.sensor_callback self t position = Ok self' -> I self') ->
  forall msgs self node,
    I self -> Node2.spin msgs self = Ok node -> I node.
Proof.
  intros Ho Hs. induction msgs as [|m msgs IH]; intros self node Hi E.
  - unfold Node2.spin in E. cbn [for_each] in E. inversion E. subst. exact Hi.
  - destruct (spin_cons _ _ _ _ E) as (self' & Ed & Er).
    apply (IH self' node); [|exact Er].
    destruct m as [t velocity|t position]; cbn [Node2.dispatch] in Ed.
    + exact (Ho _ _ _ _ Hi Ed).
    + exact (Hs _ _ _ _ Hi Ed).
Qed.

Lemma spin_reachable (msgs : list Node2.message) (self node : Node2.Node) :
  reachable (Node2.server self) -> Node2.spin msgs self = Ok node ->
  reachable (Node2.server node).
Proof.
  apply (spin_invariant (fun n => reachable (Node2.server n))).
  - intros s t v s' Hr E.
    destruct (node_odom_callback_inversion _ _ _ _ E) as (l & b & a & dt & _ & _ & _ & Es & _).
    exact (reach_odom _ _ _ _ Hr Es).
  - intros s t p s' Hr E.
    destruct (node_sensor_callback_inversion _ _ _ _ E) as (a & Es & _).
    exact (reach_sensor _ _ _ Hr Es).
Qed.

(** *** Python's [round(x, 4)] *)

Lemma round_half_even_error (y : R) : Rabs (IZR (Py.round_half_even y) - y) <= 1 / 2.
Proof.
  unfold Py.round_half_even. cbv zeta.
  pose proof (base_fp y) as (F0 & F1).
  assert (Ey : y = IZR (Int_part y) + frac_part y) by (unfold frac_part; ring).
  set (n := Int_part y) in *. set (f := frac_part y) in *. clearbody n f.
  destruct (Rlt_dec f (1 / 2)) as [Hlt|Hge].
  - apply Rabs_le. lra.
  - destruct (Rgt_dec f (1 / 2)) as [Hgt|Hle].
    + rewrite plus_IZR. apply Rabs_le. lra.
    + destruct (Z.even n); [|rewrite plus_IZR]; apply Rabs_le; lra.
Qed.

Lemma round4_error (x : R) : Rabs (Py.round4 x - x) <= 1 / 20000.
Proof.
  unfold Py.round4. pose proof (round_half_even_error (x * 10000)) as H.
  pose proof (Rle_abs (IZR (Py.round_half_even (x * 10000)) - x * 10000)) as H1.
  pose proof (Rle_abs (- (IZR (Py.round_half_even (x * 10000)) - x * 10000))) as H2.
  rewrite Rabs_Ropp in H2. apply Rabs_le. lra.
Qed.

Lemma round_half_even_IZR (n : Z) (y : R) : y = IZR n -> Py.round_half_even y = n.
Proof.
  intros E. unfold Py.round_half_even. cbv zeta.
  assert (En : Int_part y = n).
  { symmetry. apply Int_part_spec. lra. }
  assert (Ef : frac_part y = 0) by (unfold frac_part; rewrite En; lra).
  rewrite En, Ef. destruct (Rlt_dec 0 (1 / 2)); [reflexivity | lra].
Qed.

(** A multiple of [0.0001] is its own rounding. *)
Lemma round4_exact (n : Z) (x : R) : x * 10000 = IZR n -> Py.round4 x = x.
Proof.
  intros E. unfold Py.round4. rewrite (round_half_even_IZR n _ E). lra.
Qed.

Lemma round4_tenth : Py.round4 (0.1 - 0) = 0.1.
Proof. rewrite (round4_exact 1000); lra. Qed.

(** *** The counters and the logs along a run *)

Lemma odom_callback_ok (self : Server) (velocity : R * R) (dt : R) :
  (odom_count self < ODOM_LIMIT)%nat ->
  exists self', odom_callback self velocity dt = Ok self' /\
                odom_count self' = (odom_count self + 1)%nat.
Proof.
  intros Hlt. unfold odom_callback.
  destruct (step_calculation_ok (set_odom_count (odom_count self + 1) self)
              (snd velocity) (fst velocity) dt)
    as (self' & E & _ & _ & _ & _ & _ & Hc & _).
  { cbn [odom_count set_odom_count]. lia. }
  exists self'. split; [exact E | exact Hc].
Qed.


Lemma node_odom_callback_ok (self : Node2.Node) (t : Node2.stamp) (velocity : R * R) :
  Node2.tspan1 self <> [] ->
  (odom_count (Node2.server self) < ODOM_LIMIT)%nat ->
  exists self', Node2.odom_callback self t velocity = Ok self'.
Proof.
  intros Hne Hlt. destruct (nonempty_snoc _ Hne) as (l & b & Hl).
  rewrite (node_odom_callback_eq self t velocity l b Hl). cbv zeta.
  match goal with
  | |- exists _, bind (odom_callback ?s ?v ?d) _ = _ =>
      destruct (odom_callback_ok s v d Hlt) as (srv & E & _)
  end.
  rewrite E. cbn [bind]. eexists. reflexivity.
Qed.


Lemma spin_counts (msgs : list Node2.message) :
  forall self node,
    Node2.spin msgs self = Ok node ->
    odom_count (Node2.server node)
    = (odom_count (Node2.server self) + length (Log.odom_stamps msgs))%nat /\
    sensor_count (Node2.server node)
    = (sensor_count (Node2.server self) + length (Log.sensor_stamps msgs))%nat /\
    length (Node2.tspan1 node)
    = (length (Node2.tspan1 self) + length (Log.odom_stamps msgs))%nat /\
    length (Node2.tspan2 node)
    = (length (Node2.tspan2 self) + length (Log.sensor_stamps msgs))%nat.
Proof.
  induction msgs as [|m msgs IH]; intros self node E.
  - unfold Node2.spin in E. cbn [for_each] in E. inversion E. subst.
    cbn [Log.odom_stamps Log.sensor_stamps length]. repeat split; lia.
  - destruct (spin_cons _ _ _ _ E) as (self' & Ed & Er).
    destruct (IH _ _ Er) as (C1 & C2 & C3 & C4).
    destruct m as [t velocity|t position]; cbn [Node2.dispatch] in Ed;
      cbn [Log.odom_stamps Log.sensor_stamps length].
    + destruct (node_odom_callback_inversion _ _ _ _ Ed)
        as (l & b & a & dt & _ & _ & _ & Es & T1 & T2 & _).
      destruct (odom_callback_log _ _ _ _ Es) as (O & S & _).
      rewrite C1, C2, C3, C4, O, S, T1, T2, length_app. cbn [length].
      repeat split; lia.
    + destruct (node_sensor_callback_inversion _ _ _ _ Ed)
        as (a & Es & T2 & T1 & _).
      destruct (sensor_callback_log _ _ _ Es) as (S & O & _).
      rewrite C1, C2, C3, C4, O, S, T1, T2, length_app. cbn [length].
      repeat split; lia.
Qed.

Lemma reachable_counts (self : Server) :
  reachable self ->
  (odom_count self <= ODOM_LIMIT)%nat /\ (sensor_count self <= SENSOR_LIMIT)%nat.
Proof.
  induction 1 as [| self velocity dt self' Hreach (Ho & Hs) E
                  | self position self' Hreach (Ho & Hs) E].
  - unfold ODOM_LIMIT, SENSOR_LIMIT. simpl. lia.
  - destruct (odom_callback_log _ _ _ _ E) as (O & S & _).
    unfold odom_callback in E. apply step_calculation_inversion in E.
    cbn [odom_count set_odom_count] in E. rewrite O, S. lia.
  - destruct (sensor_callback_log _ _ _ E) as (S & O & _).
    unfold sensor_callback in E. destruct (update_run _ _ _ _ _ E) as (_ & Hi & _).
    cbn [sensor_count set_sensor_count] in Hi. rewrite O, S. lia.
Qed.

(** The rows past the counters still hold the zeros of [np.zeros]. *)
Lemma reachable_fresh_rows (self : Server) :
  reachable self ->
  (forall k, (odom_count self < k)%nat ->
             Log.predicted_entry self k = (0, 0, 0, zeros, 0, 0)) /\
  (forall k, (sensor_count self < k)%nat ->
             Log.updated_entry self k
             = (0, 0, 0, zeros, mkvec 0 0 0, mkvec 0 0 0, mkvec 0 0 0)).
Proof.
  induction 1 as [| self velocity dt self' Hreach (Hp & Hu) E
                  | self position self' Hreach (Hp & Hu) E].
  - split; intros k Hk; unfold Log.predicted_entry, Log.updated_entry, init;
      cbn [x_predict y_predict yaw_predict P_predict wl wr x_update y_update
           yaw_update P_update dist_hat dist mahalanobis odom_count sensor_count] in *;
      rewrite ?store_other by (cbn [odom_count sensor_count] in Hk; lia); reflexivity.
  - destruct (odom_callback_log _ _ _ _ E) as (O & S & _ & Fp & Fu).
    split; intros k Hk.
    + rewrite Fp by lia. apply Hp. lia.
    + rewrite Fu. apply Hu. lia.
  - destruct (sensor_callback_log _ _ _ E) as (S & O & Fp & Fu & _).
    split; intros k Hk.
    + rewrite Fp. apply Hp. lia.
    + rewrite Fu by lia. apply Hu. lia.
Qed.

End NodeRuns.

(** ** Properties of the runs of the node *)

Section NodeTheorems.
Import Task2.

Lemma one_odometry_message_ok (t : Node2.stamp) (velocity : R * R) :
  exists node, Node2.spin [Node2.joint_states t velocity] Node2.init = Ok node.
Proof.
  destruct (node_odom_callback_ok Node2.init t velocity) as (node & E).
  - discriminate.
  - unfold ODOM_LIMIT. simpl. lia.
  - exists node. unfold Node2.spin. cbn [for_each Node2.dispatch].
    rewrite E. reflexivity.
Qed.

Lemma one_range_message_ok (t : Node2.stamp) (position : R * R * R) :
  exists node, Node2.spin [Node2.landmarks t position] Node2.init = Ok node.
Proof.
  destruct (first_range_message_ok position) as (srv & E & _).
  unfold Node2.spin. cbn [for_each Node2.dispatch].
  rewrite (node_sensor_callback_eq Node2.init t position [] 0 eq_refl). cbv zeta.
  cbn [Node2.server Node2.init]. rewrite E. cbn [bind]. eexists. reflexivity.
Qed.

Lemma init_reachable : reachable (Node2.server Node2.init).
Proof. exact reach_init. Qed.

(** X1.  Whatever messages arrive and in whatever order, as long as the
    callbacks return, the covariance of the node stays symmetric and
    positive semidefinite, [self.A] stays the identity outside [A[0,2]]
    and [A[1,2]], and every innovation covariance [S] a correction could
    form is positive, so that [np.linalg.inv] cannot fail. *)
Theorem ekf_run_keeps_covariance_valid (msgs : list Node2.message)
    (node : Node2.Node) :
  Node2.spin msgs Node2.init = Ok node ->
  symmetric (P (Node2.server node)) /\
  psd (P (Node2.server node)) /\
  jacobian_shaped (A (Node2.server node)) /\
  forall (H : mat3) (j : nat), 0 < Sij (P (Node2.server node)) H j.
Proof.
  intros E. pose proof (spin_reachable _ _ _ init_reachable E) as Hr.
  destruct (reachable_invariant _ Hr) as (Hs & Hp & Ha).
  split; [exact Hs|]. split; [exact Hp|]. split; [exact Ha|].
  intros H j. apply Sij_pos, Hp.
Qed.

(** X1 after one odometry message. *)
Lemma ekf_run_keeps_covariance_valid_witness :
  exists node,
    Node2.spin [Node2.joint_states (Node2.mkstamp 5 0) (1, 2)] Node2.init = Ok node /\
    symmetric (P (Node2.server node)).
Proof.
  destruct (one_odometry_message_ok (Node2.mkstamp 5 0) (1, 2)) as (node & E).
  exists node. split; [exact E|].
  apply (ekf_run_keeps_covariance_valid _ node E).
Defined.




(** X7.  Each prediction adds [0.0004] to the variance of the heading,
    whatever the wheel speeds and the interval, and no correction
    increases it: after [n] odometry messages the variance of [yaw] lies
    between [0] and [0.1 + 0.0004·n]. *)
Theorem heading_variance_budget (self : Server) :
  reachable self ->
  (forall velocity dt self',
      odom_callback self velocity dt = Ok self' ->
      get (P self') 2 2 = get (P self) 2 2 + 0.0004) /\
  0 <= get (P self) 2 2 <= 0.1 + 0.0004 * INR (odom_count self).
Proof.
  intros Hr. split.
  - intros velocity dt self' E.
    destruct (reachable_invariant _ Hr) as (_ & _ & Ha).
    destruct (odom_callback_inversion _ _ _ _ E) as (_ & _ & _ & _ & HP & _).
    cbv zeta in HP. rewrite HP. apply predicted_P_heading, Ha.
  - induction Hr as [| self velocity dt self' Hreach IH E
                     | self position self' Hreach IH E].
    + simpl. lra.
    + destruct (reachable_invariant _ Hreach) as (_ & _ & Ha).
      destruct (odom_callback_inversion _ _ _ _ E) as (_ & _ & _ & _ & HP & Hc & _).
      cbv zeta in HP. rewrite HP, Hc, (predicted_P_heading _ _ _ _ _ Ha).
      rewrite plus_INR. simpl INR. lra.
    + destruct (reachable_invariant _ Hreach) as (Hs & Hp & _).
      destruct (correction_shrinks _ _ _ Hs Hp E) as (_ & Hp' & Hb).
      destruct (sensor_callback_log _ _ _ E) as (_ & Ho & _).
      rewrite Ho.
      pose proof (psd_diagonal (P self') 2 ltac:(lia) Hp').
      pose proof (below_diagonal (P self') (P self) 2 ltac:(lia) Hb). lra.
Qed.

(** X7 on the initial state. *)
Lemma heading_variance_budget_witness :
  0 <= get (P init) 2 2 <= 0.1 + 0.0004 * INR (odom_count init).
Proof. apply (heading_variance_budget init reach_init). Defined.

(** X9.  Each tick of the range log holds the three measurements of its
    message, each of them once: after a range message with non-zero
    ranges, the column of [self.dist] at the new [sensor_count] is a
    permutation of [(z0, z1, z2)], whichever landmarks the measurements
    were matched to, duplicates included. *)
Theorem measured_ranges_logged_once (self : Server) (z0 z1 z2 : R)
    (self' : Server) :
  reachable self ->
  z0 <> 0 -> z1 <> 0 -> z2 <> 0 ->
  sensor_callback self (z0, z1, z2) = Ok self' ->
  Permutation (Log.column_entries (dist self' (sensor_count self'))) [z0; z1; z2].
Proof.
  intros Hr N0 N1 N2 E.
  destruct (reachable_fresh_rows _ Hr) as (_ & Hfresh).
  assert (Hcol : dist self (sensor_count self + 1)%nat = mkvec 0 0 0).
  { specialize (Hfresh (sensor_count self + 1)%nat ltac:(lia)).
    unfold Log.updated_entry in Hfresh. inversion Hfresh. reflexivity. }
  unfold sensor_callback in E. cbn [fst snd] in E.
  destruct (update_run _ _ _ _ _ E) as (_ & _ & s1 & s2 & s3 & Hrun).
  destruct Hrun as (_ & _ & _ & F1 & F2 & F3 & _ & _ & _ & _ & Hd & _ & _ & Hc & _).
  cbn [x y sensor_count set_sensor_count] in F1, F2, F3, Hc.
  destruct F1 as (_ & _ & D1 & T1 & _).
  destruct F2 as (_ & _ & D2 & T2 & _).
  destruct F3 as (_ & _ & D3 & _).
  cbn [loop_entry loc_self loc_temp loc_P dist set_sensor_count] in D1, T1.
  rewrite Hcol in D1, T1. rewrite D1, T1 in D2, T2. rewrite D2, T2 in D3.
  rewrite Hc, Hd, D3.
  apply slots_permutation; try assumption; apply matched_lt.
Qed.

(** X9 for the first range message. *)
Lemma measured_ranges_logged_once_witness :
  exists self',
    sensor_callback init (1, 2, 3) = Ok self' /\
    Permutation (Log.column_entries (dist self' (sensor_count self'))) [1; 2; 3].
Proof.
  destruct (first_range_message_ok (1, 2, 3)) as (self' & E & _).
  exists self'. split; [exact E|].
  apply (measured_ranges_logged_once init 1 2 3 self' reach_init); [lra | lra | lra | exact E].
Defined.

(** X10.  Each callback writes one row of its own logs and nothing else.
    An odometry message writes the row [odom_count] of the prediction
    logs: the predicted pose and covariance and the wheel speeds, the left
    one from [velocity[1]] and the right one from [velocity[0]].  A range
    message writes the row [sensor_count] of the correction logs: the
    corrected pose and covariance and the ranges predicted from the pose
    before the correction.  No other row of any log changes. *)
Theorem callbacks_write_one_log_row (self : Server) :
  (forall velocity dt self',
      odom_callback self velocity dt = Ok self' ->
      odom_count self' = (odom_count self + 1)%nat /\
      Log.predicted_entry self' (odom_count self')
        = (x self', y self', yaw self', P self', snd velocity, fst velocity) /\
      (forall k, k <> odom_count self' ->
                 Log.predicted_entry self' k = Log.predicted_entry self k) /\
      (forall k, Log.updated_entry self' k = Log.updated_entry self k)) /\
  (forall position self',
      sensor_callback self position = Ok self' ->
      sensor_count self' = (sensor_count self + 1)%nat /\
      (x_update self' (sensor_count self'), y_update self' (sensor_count self'),
       yaw_update self' (sensor_count self'), P_update self' (sensor_count self'))
        = (x self', y self', yaw self', P self') /\
      dist_hat self' (sensor_count self') = zh_of (x self) (y self) /\
      (forall k, k <> sensor_count self' ->
                 Log.updated_entry self' k = Log.updated_entry self k) /\
      (forall k, Log.predicted_entry self' k = Log.predicted_entry self k)).
Proof.
  split.
  - intros velocity dt self' E.
    destruct (odom_callback_log _ _ _ _ E) as (O & _ & Hrow & Fp & Fu).
    repeat split; assumption.
  - intros position self' E.
    destruct (sensor_callback_log _ _ _ E)
      as (S & _ & Fp & Fu & Hx & Hy & Hyaw & HP & Hd).
    split; [exact S|]. split; [rewrite Hx, Hy, Hyaw, HP; reflexivity|].
    split; [exact Hd|]. split; assumption.
Qed.

(** X10 for the first odometry message. *)
Lemma callbacks_write_one_log_row_witness :
  exists self',
    odom_callback init (1, 2) 0.1 = Ok self' /\
    Log.predicted_entry self' (odom_count self')
      = (x self', y self', yaw self', P self', 2, 1).
Proof.
  destruct (odom_callback_ok init (1, 2) 0.1) as (self' & E & _).
  { unfold ODOM_LIMIT. simpl. lia. }
  exists self'. split; [exact E|].
  destruct (callbacks_write_one_log_row init) as (Ho & _).
  destruct (Ho (1, 2) 0.1 self' E) as (_ & Hrow & _). exact Hrow.
Defined.

Lemma logs_kept_from (msgs : list Node2.message) :
  forall self node,
    Node2.spin msgs self = Ok node ->
    (forall k, (k <= odom_count (Node2.server self))%nat ->
               Log.predicted_entry (Node2.server node) k
               = Log.predicted_entry (Node2.server self) k) /\
    (forall k, (k <= sensor_count (Node2.server self))%nat ->
               Log.updated_entry (Node2.server node) k
               = Log.updated_entry (Node2.server self) k).
Proof.
  induction msgs as [|m msgs IH]; intros self node E.
  - unfold Node2.spin in E. cbn [for_each] in E. inversion E. subst.
    split; reflexivity.
  - destruct (spin_cons _ _ _ _ E) as (self' & Ed & Er).
    destruct (IH _ _ Er) as (Kp & Ku).
    destruct m as [t velocity|t position]; cbn [Node2.dispatch] in Ed.
    + destruct (node_odom_callback_inversion _ _ _ _ Ed)
        as (l & b & a & dt & _ & _ & _ & Es & _).
      destruct (odom_callback_log _ _ _ _ Es) as (O & S & _ & Fp & Fu).
      split; intros k Hk.
      * rewrite Kp by lia. apply Fp. lia.
      * rewrite Ku by lia. apply Fu.
    + destruct (node_sensor_callback_inversion _ _ _ _ Ed) as (a & Es & _).
      destruct (sensor_callback_log _ _ _ Es) as (S & O & Fp & Fu & _).
      split; intros k Hk.
      * rewrite Kp by lia. apply Fp.
      * rewrite Ku by lia. apply Fu. lia.
Qed.

(** X11.  The logs are append-only: whatever messages follow, the rows
    of the prediction logs up to [odom_count] and the rows of the
    correction logs up to [sensor_count] keep the values they have, and
    the counters never go back. *)
Theorem logs_append_only (msgs : list Node2.message) (self node : Node2.Node) :
  Node2.spin msgs self = Ok node ->
  (odom_count (Node2.server self) <= odom_count (Node2.server node))%nat /\
  (sensor_count (Node2.server self) <= sensor_count (Node2.server node))%nat /\
  (forall k, (k <= odom_count (Node2.server self))%nat ->
             Log.predicted_entry (Node2.server node) k
             = Log.predicted_entry (Node2.server self) k) /\
  (forall k, (k <= sensor_count (Node2.server self))%nat ->
             Log.updated_entry (Node2.server node) k
             = Log.updated_entry (Node2.server self) k).
Proof.
  intros E. destruct (spin_counts _ _ _ E) as (C1 & C2 & _).
  destruct (logs_kept_from _ _ _ E) as (Kp & Ku).
  split; [lia|]. split; [lia|]. split; assumption.
Qed.

(** X11 for one odometry message after the initial state. *)
Lemma logs_append_only_witness :
  exists node,
    Node2.spin [Node2.joint_states (Node2.mkstamp 5 0) (1, 2)] Node2.init = Ok node /\
    Log.predicted_entry (Node2.server node) 0
    = Log.predicted_entry (Node2.server Node2.init) 0.
Proof.
  destruct (one_odometry_message_ok (Node2.mkstamp 5 0) (1, 2)) as (node & E).
  exists node. split; [exact E|].
  destruct (logs_append_only _ _ _ E) as (_ & _ & Kp & _).
  apply Kp. simpl. lia.
Defined.



End NodeTheorems.

(** ** The time axes of the node *)

Section TimeAxes.
Import Task2.

(** X13.  The time axes grow with the counters: after any run from the
    initial state, [tspan1] has [odom_count + 1] entries and [tspan2] has
    [sensor_count + 1] entries, the counters are the numbers of odometry
    and of range messages received, and they are within the lengths of
    the logs.  The negative indices [tspan1[-1]], [tspan1[-2]] and
    [tspan2[-1]] therefore always exist. *)
Theorem time_axes_match_counters (msgs : list Node2.message) (node : Node2.Node) :
  Node2.spin msgs Node2.init = Ok node ->
  length (Node2.tspan1 node) = (odom_count (Node2.server node) + 1)%nat /\
  length (Node2.tspan2 node) = (sensor_count (Node2.server node) + 1)%nat /\
  odom_count (Node2.server node) = length (Log.odom_stamps msgs) /\
  sensor_count (Node2.server node) = length (Log.sensor_stamps msgs) /\
  (odom_count (Node2.server node) <= ODOM_LIMIT)%nat /\
  (sensor_count (Node2.server node) <= SENSOR_LIMIT)%nat.
Proof.
  intros E. destruct (spin_counts _ _ _ E) as (C1 & C2 & C3 & C4).
  destruct (reachable_counts _ (spin_reachable _ _ _ init_reachable E)) as (Ho & Hs).
  cbn [Node2.init Node2.server Node2.tspan1 Node2.tspan2 length] in C1, C2, C3, C4.
  change (odom_count init) with 0%nat in C1.
  change (sensor_count init) with 0%nat in C2.
  repeat split; lia.
Qed.

(** X13 after one odometry message. *)
Lemma time_axes_match_counters_witness :
  exists node,
    Node2.spin [Node2.joint_states (Node2.mkstamp 5 0) (1, 2)] Node2.init = Ok node /\
    length (Node2.tspan1 node) = 2%nat.
Proof.
  destruct (one_odometry_message_ok (Node2.mkstamp 5 0) (1, 2)) as (node & E).
  exists node. split; [exact E|].
  destruct (time_axes_match_counters _ _ E) as (L1 & _ & C1 & _).
  rewrite L1, C1. reflexivity.
Defined.

(** *** The odometry axis *)

Lemma odom_axis_snoc (ts : list R) (tl t : R) :
  Log.odom_axis ((ts ++ [tl]) ++ [t])
  = Log.odom_axis (ts ++ [tl]) ++ [t - tl + (0.1 + (tl - hd 0 (ts ++ [tl])))].
Proof.
  unfold Log.odom_axis.
  assert (Hhd : hd 0 ((ts ++ [tl]) ++ [t]) = hd 0 (ts ++ [tl])).
  { destruct ts; reflexivity. }
  rewrite Hhd. rewrite (map_app _ (ts ++ [tl]) [t]). cbn [map app].
  f_equal. f_equal. f_equal. lra.
Qed.

Lemma odom_axis_step (self : Node2.Node) (ts : list R) (t : Node2.stamp)
    (velocity : R * R) (self' : Node2.Node) :
  Log.odom_axis_at self ts ->
  Node2.odom_callback self t velocity = Ok self' ->
  Log.odom_axis_at self' (ts ++ [Node2.seconds t]).
Proof.
  intros (Hax & Hc & Hts) E.
  destruct (node_odom_callback_inversion _ _ _ _ E)
    as (l & b & a & dt & Hl & Ha & _ & Es & T1 & _ & Hts1 & _).
  destruct (odom_callback_log _ _ _ _ Es) as (O & _).
  split; [|split].
  - rewrite T1. destruct (list_eq_dec Req_dec_T ts []) as [Hnil|Hne].
    + subst ts. cbn [length] in Hc. rewrite Hc in Ha. cbn [Nat.add Nat.eqb] in Ha.
      rewrite Hax, Ha. unfold Log.odom_axis. cbn [map app hd].
      f_equal. f_equal. lra.
    + destruct (exists_last Hne) as (ts' & tl & Ets). subst ts.
      rewrite odom_axis_snoc, <- Hax. f_equal. f_equal.
      rewrite Hc, length_app in Ha. cbn [length] in Ha.
      replace (length ts' + 1 + 1)%nat with (S (S (length ts'))) in Ha by lia.
      cbn [Nat.eqb] in Ha. rewrite (Hts ts' tl eq_refl) in Ha.
      assert (Hb : b = 0.1 + (tl - hd 0 (ts' ++ [tl]))).
      { rewrite Hax in Hl. unfold Log.odom_axis in Hl.
        rewrite map_app in Hl. cbn [map] in Hl.
        rewrite app_comm_cons in Hl. apply app_inj_tail in Hl.
        destruct Hl as (_ & Hb). symmetry. exact Hb. }
      rewrite Ha, Hb. reflexivity.
  - rewrite O, Hc, length_app. reflexivity.
  - intros ts' tl Ets. apply app_inj_tail in Ets. destruct Ets as (_ & <-). exact Hts1.
Qed.

Lemma odom_axis_from (msgs : list Node2.message) :
  forall self ts node,
    Log.odom_axis_at self ts ->
    Node2.spin msgs self = Ok node ->
    Log.odom_axis_at node (ts ++ Log.odom_stamps msgs).
Proof.
  induction msgs as [|m msgs IH]; intros self ts node Hat E.
  - unfold Node2.spin in E. cbn [for_each] in E. inversion E. subst.
    cbn [Log.odom_stamps]. rewrite app_nil_r. exact Hat.
  - destruct (spin_cons _ _ _ _ E) as (self' & Ed & Er).
    destruct m as [t velocity|t position]; cbn [Node2.dispatch] in Ed;
      cbn [Log.odom_stamps].
    + replace (ts ++ Node2.seconds t :: Log.odom_stamps msgs)
        with ((ts ++ [Node2.seconds t]) ++ Log.odom_stamps msgs)
        by (rewrite <- app_assoc; reflexivity).
      apply (IH self'); [|exact Er].
      exact (odom_axis_step _ _ _ _ _ Hat Ed).
    + apply (IH self'); [|exact Er].
      destruct (node_sensor_callback_inversion _ _ _ _ Ed)
        as (a & Es & _ & T1 & _ & Hts1 & _).
      destruct (sensor_callback_log _ _ _ Es) as (_ & O & _).
      destruct Hat as (Hax & Hc & Hts).
      split; [congruence|]. split; [congruence|].
      intros ts' tl Ets. rewrite Hts1. exact (Hts ts' tl Ets).
Qed.

Lemma init_odom_axis : Log.odom_axis_at Node2.init [].
Proof.
  split; [reflexivity|]. split; [reflexivity|].
  intros ts' tl Ets. destruct ts'; discriminate.
Qed.

(** X15.  The odometry time axis is the stamps shifted so that the first
    message sits at [0.1]: after a run whose odometry messages carry the
    stamps [t0, t1, ..., tn], [tspan1] is
    [0, 0.1, 0.1 + (t1 - t0), ..., 0.1 + (tn - t0)], whatever range
    messages arrive in between, and [ts1] is the last stamp [tn]. *)
Theorem odometry_time_axis (msgs : list Node2.message) (node : Node2.Node) :
  Node2.spin msgs Node2.init = Ok node ->
  Node2.tspan1 node = Log.odom_axis (Log.odom_stamps msgs) /\
  (forall ts' tl, Log.odom_stamps msgs = ts' ++ [tl] -> Node2.ts1 node = tl).
Proof.
  intros E.
  destruct (odom_axis_from msgs Node2.init [] node init_odom_axis E) as (Hax & _ & Hts).
  cbn [app] in Hax, Hts. split; assumption.
Qed.

(** X15 after one odometry message stamped [5 s]. *)
Lemma odometry_time_axis_witness :
  exists node,
    Node2.spin [Node2.joint_states (Node2.mkstamp 5 0) (1, 2)] Node2.init = Ok node /\
    Node2.tspan1 node
    = Log.odom_axis [Node2.seconds (Node2.mkstamp 5 0)].
Proof.
  destruct (one_odometry_message_ok (Node2.mkstamp 5 0) (1, 2)) as (node & E).
  exists node. split; [exact E|].
  destruct (odometry_time_axis _ _ E) as (Hax & _). exact Hax.
Defined.

(** X14.  The interval a prediction integrates over: the first odometry
    message of a run is integrated over [0.1 s] whatever its stamp; every
    later one over the difference between its stamp and the stamp of the
    odometry message before it, rounded to four decimals, hence within
    [0.00005 s] of that difference. *)
Theorem prediction_interval_from_stamps (msgs : list Node2.message)
    (node : Node2.Node) (t : Node2.stamp) (velocity : R * R) (node' : Node2.Node) :
  Node2.spin msgs Node2.init = Ok node ->
  Node2.odom_callback node t velocity = Ok node' ->
  exists dt,
    odom_callback (Node2.server node) velocity dt = Ok (Node2.server node') /\
    (Log.odom_stamps msgs = [] -> dt = 0.1) /\
    (Log.odom_stamps msgs <> [] ->
     dt = Py.round4 (Node2.seconds t - Node2.ts1 node) /\
     Rabs (dt - (Node2.seconds t - Node2.ts1 node)) <= 1 / 20000).
Proof.
  intros E Ec.
  destruct (odom_axis_from msgs Node2.init [] node init_odom_axis E) as (Hax & Hc & _).
  cbn [app] in Hax, Hc.
  destruct (node_odom_callback_inversion _ _ _ _ Ec)
    as (l & b & a & dt & Hl & Ha & Hdt & Es & _).
  exists dt. split; [exact Es|]. split.
  - intros Hnil. rewrite Hnil in Hax, Hc. cbn [length] in Hc.
    rewrite Hc in Ha. cbn [Nat.add Nat.eqb] in Ha.
    rewrite Hax in Hl. unfold Log.odom_axis in Hl. cbn [map] in Hl.
    assert (Hb : b = 0).
    { change [0] with ([] ++ [0]) in Hl. apply app_inj_tail in Hl.
      destruct Hl as (_ & Hb). symmetry. exact Hb. }
    rewrite Hdt, Ha, Hb. exact round4_tenth.
  - intros Hne.
    assert (Hpos : Nat.eqb (odom_count (Node2.server node) + 1) 1 = false).
    { apply Nat.eqb_neq. rewrite Hc.
      destruct (Log.odom_stamps msgs); [contradiction | cbn [length]; lia]. }
    rewrite Hpos in Ha.
    assert (Hd : a - b = Node2.seconds t - Node2.ts1 node) by (rewrite Ha; ring).
    rewrite Hdt, Hd. split; [reflexivity | apply round4_error].
Qed.

(** X14 for the first odometry message. *)
Lemma prediction_interval_from_stamps_witness :
  exists node' dt,
    Node2.odom_callback Node2.init (Node2.mkstamp 5 0) (1, 2) = Ok node' /\
    odom_callback init (1, 2) dt = Ok (Node2.server node') /\ dt = 0.1.
Proof.
  destruct (node_odom_callback_ok Node2.init (Node2.mkstamp 5 0) (1, 2)) as (node' & Ec).
  { discriminate. }
  { unfold ODOM_LIMIT. simpl. lia. }
  destruct (prediction_interval_from_stamps [] Node2.init (Node2.mkstamp 5 0) (1, 2)
              node' eq_refl Ec) as (dt & Es & Hfirst & _).
  exists node', dt. split; [exact Ec|]. split; [exact Es|].
  apply Hfirst. reflexivity.
Defined.

(** *** The range axis *)

Lemma sensor_axis_snoc (ss : list Node2.stamp) (tl t : Node2.stamp) :
  Log.sensor_axis ((ss ++ [tl]) ++ [t])
  = Log.sensor_axis (ss ++ [tl])
    ++ [Node2.seconds t - Node2.seconds tl
        + (Node2.seconds tl
           - IZR (Node2.sec (hd (Node2.mkstamp 0 0) (ss ++ [tl]))))].
Proof.
  unfold Log.sensor_axis.
  assert (Hhd : hd (Node2.mkstamp 0 0) ((ss ++ [tl]) ++ [t])
                = hd (Node2.mkstamp 0 0) (ss ++ [tl])).
  { destruct ss; reflexivity. }
  rewrite Hhd. rewrite (map_app _ (ss ++ [tl]) [t]). cbn [map app].
  f_equal. f_equal. f_equal. lra.
Qed.

Lemma sensor_axis_step (self : Node2.Node) (ss : list Node2.stamp) (t : Node2.stamp)
    (position : R * R * R) (self' : Node2.Node) :
  Forall (fun s => Node2.seconds s <> 0) ss ->
  Log.sensor_axis_at self ss ->
  Node2.sensor_callback self t position = Ok self' ->
  Log.sensor_axis_at self' (ss ++ [t]).
Proof.
  intros Hnz (Hax & Hz & Hts) E.
  destruct (node_sensor_callback_inversion _ _ _ _ E)
    as (a & _ & T2 & _ & Hts2 & _ & Hfirst & Hlater).
  split; [|split].
  - rewrite T2. destruct ss as [|s0 ss0] eqn:Ess.
    + rewrite (Hfirst (Hz eq_refl)), Hax. unfold Log.sensor_axis, Node2.seconds.
      cbn [map app hd]. f_equal. f_equal. lra.
    + rewrite <- Ess in *.
      assert (Hne : ss <> []) by (rewrite Ess; discriminate).
      destruct (exists_last Hne) as (ss' & tl & Els). rewrite Els in *.
      assert (Hnt : Node2.ts2 self <> 0).
      { rewrite (Hts ss' tl eq_refl).
        rewrite Forall_forall in Hnz. apply Hnz. apply in_or_app. right. left. reflexivity. }
      rewrite sensor_axis_snoc, <- Hax. f_equal. f_equal.
      assert (Hl : Node2.tspan2 self
                   = (0 :: map (fun t0 => Node2.seconds t0
                        - IZR (Node2.sec (hd (Node2.mkstamp 0 0) (ss' ++ [tl])))) ss')
                     ++ [Node2.seconds tl
                         - IZR (Node2.sec (hd (Node2.mkstamp 0 0) (ss' ++ [tl])))]).
      { rewrite Hax. unfold Log.sensor_axis. rewrite map_app. reflexivity. }
      rewrite (Hlater Hnt _ _ Hl), (Hts ss' tl eq_refl). reflexivity.
  - intros Hnil. destruct ss; discriminate.
  - intros ss' tl Ets. apply app_inj_tail in Ets. destruct Ets as (_ & <-). exact Hts2.
Qed.

Lemma sensor_axis_from (msgs : list Node2.message) :
  forall self ss node,
    Forall (fun s => Node2.seconds s <> 0) (ss ++ Log.sensor_stamps msgs) ->
    Log.sensor_axis_at self ss ->
    Node2.spin msgs self = Ok node ->
    Log.sensor_axis_at node (ss ++ Log.sensor_stamps msgs).
Proof.
  induction msgs as [|m msgs IH]; intros self ss node Hnz Hat E.
  - unfold Node2.spin in E. cbn [for_each] in E. inversion E. subst.
    cbn [Log.sensor_stamps]. rewrite app_nil_r. exact Hat.
  - destruct (spin_cons _ _ _ _ E) as (self' & Ed & Er).
    destruct m as [t velocity|t position]; cbn [Node2.dispatch] in Ed;
      cbn [Log.sensor_stamps] in *.
    + apply (IH self'); [exact Hnz | | exact Er].
      destruct (node_odom_callback_inversion _ _ _ _ Ed)
        as (l & b & a & dt & _ & _ & _ & _ & _ & T2 & _ & Hts2).
      destruct Hat as (Hax & Hz & Hts).
      split; [congruence|]. split.
      * intros Hnil. rewrite Hts2. exact (Hz Hnil).
      * intros ss' tl Ets. rewrite Hts2. exact (Hts ss' tl Ets).
    + replace (ss ++ t :: Log.sensor_stamps msgs)
        with ((ss ++ [t]) ++ Log.sensor_stamps msgs) in *
        by (rewrite <- app_assoc; reflexivity).
      apply (IH self'); [exact Hnz | | exact Er].
      apply (sensor_axis_step self ss t position self'); [|exact Hat | exact Ed].
      apply Forall_app in Hnz. destruct Hnz as (Hnz & _).
      apply Forall_app in Hnz. destruct Hnz as (Hnz & _). exact Hnz.
Qed.

Lemma init_sensor_axis : Log.sensor_axis_at Node2.init [].
Proof.
  split; [reflexivity|]. split; [reflexivity|].
  intros ss' tl Ets. destruct ss'; discriminate.
Qed.

(** X16.  The range time axis starts at the fraction of a second of the
    first stamp, not at [0.1]: after a run whose range messages carry the
    non-zero stamps [t0, t1, ..., tn], [tspan2] is
    [0, t0 - sec(t0), t1 - sec(t0), ..., tn - sec(t0)], where [sec(t0)] is
    the whole seconds of the first stamp.  The two axes of the plots
    therefore have different origins. *)
Theorem sensor_time_axis (msgs : list Node2.message) (node : Node2.Node) :
  Forall (fun s => Node2.seconds s <> 0) (Log.sensor_stamps msgs) ->
  Node2.spin msgs Node2.init = Ok node ->
  Node2.tspan2 node = Log.sensor_axis (Log.sensor_stamps msgs).
Proof.
  intros Hnz E.
  destruct (sensor_axis_from msgs Node2.init [] node Hnz init_sensor_axis E) as (Hax & _).
  exact Hax.
Qed.

(** X16 after one range message stamped [5.5 s]. *)
Lemma sensor_time_axis_witness :
  exists node,
    Node2.spin [Node2.landmarks (Node2.mkstamp 5 500000000) (1, 2, 3)] Node2.init
    = Ok node /\
    Node2.tspan2 node = Log.sensor_axis [Node2.mkstamp 5 500000000].
Proof.
  destruct (one_range_message_ok (Node2.mkstamp 5 500000000) (1, 2, 3)) as (node & E).
  exists node. split; [exact E|].
  apply (sensor_time_axis
           [Node2.landmarks (Node2.mkstamp 5 500000000) (1, 2, 3)] node); [|exact E].
  cbn [Log.sensor_stamps]. constructor; [|constructor].
  unfold Node2.seconds. cbn [Node2.sec Node2.nanosec]. lra.
Defined.

End TimeAxes.

(** ** The animation of the trajectory *)

Section Canvas.
Import Task2.

(** X17.  [Server.canvas] stays inside the logs.  Its frames are the ticks
    [0 .. ODOM_LIMIT - 1]; every third frame draws one row of the
    correction logs, frame [3·i] drawing row [i], and the rows drawn are
    exactly the rows [0 .. SENSOR_LIMIT], each once, whether or not that
    many range messages arrived.  When the animation starts, after the
    odometry message number [ODOM_LIMIT], every frame also has its entry
    of [tspan1]. *)
Theorem canvas_update_ticks :
  (forall index i,
      In index Node2.canvas_frames ->
      Node2.canvas_update_index index = Some i ->
      index = (3 * i)%nat /\ (i <= SENSOR_LIMIT)%nat) /\
  (forall i,
      (i <= SENSOR_LIMIT)%nat ->
      In (3 * i)%nat Node2.canvas_frames /\
      Node2.canvas_update_index (3 * i) = Some i) /\
  (forall msgs node index,
      Node2.spin msgs Node2.init = Ok node ->
      odom_count (Node2.server node) = ODOM_LIMIT ->
      In index Node2.canvas_frames ->
      (index < length (Node2.tspan1 node))%nat).
Proof.
  unfold Node2.canvas_frames, Node2.canvas_update_index, SENSOR_LIMIT, ODOM_LIMIT.
  split; [|split].
  - intros index i Hin E. apply in_seq in Hin.
    destruct (Nat.eqb_spec (index mod 3) 0) as [Hm|Hm]; [|discriminate].
    assert (Ei : (index / 3)%nat = i) by congruence.
    pose proof (Nat.div_mod_eq index 3) as Hd. rewrite Hm, Ei in Hd. lia.
  - intros i Hi. split.
    + apply in_seq. lia.
    + replace (3 * i)%nat with (i * 3)%nat by lia.
      rewrite Nat.Div0.mod_mul, Nat.div_mul by lia. reflexivity.
  - intros msgs node index E Hc Hin. apply in_seq in Hin.
    destruct (spin_counts _ _ _ E) as (C1 & _ & C3 & _).
    cbn [Node2.init Node2.server Node2.tspan1 length] in C1, C3.
    change (odom_count init) with 0%nat in C1. lia.
Qed.

(** X17 at frame [3]. *)
Lemma canvas_update_ticks_witness :
  In 3%nat Node2.canvas_frames /\
  Node2.canvas_update_index 3 = Some 1%nat /\
  3%nat = (3 * 1)%nat /\ (1 <= SENSOR_LIMIT)%nat.
Proof.
  assert (Hin : In 3%nat Node2.canvas_frames).
  { unfold Node2.canvas_frames, ODOM_LIMIT. apply in_seq. lia. }
  split; [exact Hin|]. split; [reflexivity|].
  destruct canvas_update_ticks as (Hframe & _).
  apply (Hframe 3%nat 1%nat Hin). reflexivity.
Defined.

End Canvas.

(** ** Runs of the ensemble propagator *)

Section EnsembleRuns.
Import Task1.

Lemma propagate_pose (rot trans : R) (draws : R * R * R) (i : nat) (state_k : vec3) :
  exists pose,
    propagate rot trans (epsilon_rot rot trans) (epsilon_trans rot trans) draws i state_k
    = Ok pose /\
    mkvec (v0 pose) (v1 pose) (regulate (v2 pose))
    = Log.member_pose state_k rot trans draws i.
Proof.
  unfold propagate, Log.member_pose.
  destruct (Nat.ltb 0 i).
  - rewrite !(random_normal_ok _ _ _ (epsilon_rot_nonneg rot trans)).
    rewrite (random_normal_ok _ _ _ (epsilon_trans_nonneg rot trans)).
    cbn [bind]. eexists. split; reflexivity.
  - eexists. split; reflexivity.
Qed.

Lemma member_step_pose (rot trans : R) (draws : nat -> R * R * R) (i : nat)
    (self : Server) :
  (message_count self <= MESSAGE_LIMIT)%nat ->
  exists self',
    member_step rot trans (epsilon_rot rot trans) (epsilon_trans rot trans) draws i self
    = Ok self' /\
    message_count self' = message_count self /\
    Log.pose_at self' i (message_count self)
    = Log.member_pose (Log.pose_at self i (previous (message_count self)))
        rot trans (draws i) i /\
    (forall i' k', i' <> i \/ k' <> message_count self ->
                   Log.pose_at self' i' k' = Log.pose_at self i' k').
Proof.
  intros Hk. unfold member_step.
  rewrite (check_index_ok _ _ (previous_le _ Hk)). cbn [bind].
  destruct (propagate_pose rot trans (draws i) i
              (mkvec (x_euler self i (previous (message_count self)))
                     (y_euler self i (previous (message_count self)))
                     (yaw_euler self i (previous (message_count self)))))
    as (pose & E & Hpose).
  rewrite E. cbn [bind]. rewrite (check_index_ok _ _ Hk). cbn [bind].
  eexists. split; [reflexivity|]. unfold Log.pose_at.
  cbn [message_count x_euler y_euler yaw_euler].
  split; [reflexivity|]. split.
  - rewrite !store2_same. exact Hpose.
  - intros i' k' Hne. rewrite !(store2_other _ _ _ _ _ _ Hne). reflexivity.
Qed.

Lemma members_loop_pose (rot trans : R) (draws : nat -> R * R * R) (l : list nat) :
  forall self : Server,
    (message_count self <= MESSAGE_LIMIT)%nat ->
    exists self',
      for_each (member_step rot trans (epsilon_rot rot trans) (epsilon_trans rot trans)
                  draws) l self = Ok self' /\
      message_count self' = message_count self /\
      (forall i k', k' <> message_count self ->
                    Log.pose_at self' i k' = Log.pose_at self i k') /\
      (forall i, ~ In i l ->
                 Log.pose_at self' i (message_count self)
                 = Log.pose_at self i (message_count self)) /\
      (forall i, In i l ->
                 Log.pose_at self' i (message_count self)
                 = Log.member_pose (Log.pose_at self i (previous (message_count self)))
                     rot trans (draws i) i).
Proof.
  induction l as [|i l IH]; intros self Hk.
  - exists self. cbn [for_each]. repeat split; try reflexivity. intros i [].
  - cbn [for_each].
    destruct (member_step_pose rot trans draws i self Hk) as (self1 & E1 & C1 & Y1 & F1).
    rewrite E1. cbn [bind].
    assert (Hk1 : (message_count self1 <= MESSAGE_LIMIT)%nat) by (rewrite C1; exact Hk).
    destruct (IH self1 Hk1) as (self' & E & C & F & N & Y).
    exists self'. split; [exact E|]. rewrite C1 in C, F, N, Y.
    assert (Hprev : forall i', Log.pose_at self1 i' (previous (message_count self))
                               = Log.pose_at self i' (previous (message_count self))).
    { intros i'. apply F1. right. apply previous_neq. }
    split; [exact C|]. split; [|split].
    + intros i' k' Hne. rewrite (F i' k' Hne). apply F1. right. exact Hne.
    + intros i' Hout. rewrite N by (intros Hin; apply Hout; right; exact Hin).
      apply F1. left. intros ->. apply Hout. left. reflexivity.
    + intros i' Hin'.
      destruct (in_dec Nat.eq_dec i' l) as [Hin|Hout].
      * rewrite (Y i' Hin), Hprev. reflexivity.
      * destruct Hin' as [->|Hin]; [|contradiction].
        rewrite (N i' Hout). exact Y1.
Qed.

(** What [Server.listener_callback] does when the logs have room. *)
Lemma listener_callback_pose (self : Server) (data : R * R) (draws : nat -> R * R * R) :
  (message_count self < MESSAGE_LIMIT)%nat ->
  exists self',
    listener_callback self data draws = Ok self' /\
    message_count self' = (message_count self + 1)%nat /\
    (forall i, (i < 101)%nat ->
               Log.pose_at self' i (message_count self + 1)
               = Log.member_pose (Log.pose_at self i (message_count self))
                   (rot_head (fst data) (snd data)) (trans_head (fst data) (snd data))
                   (draws i) i) /\
    (forall i, (101 <= i)%nat ->
               Log.pose_at self' i (message_count self + 1)
               = Log.pose_at self i (message_count self + 1)) /\
    (forall i k', k' <> (message_count self + 1)%nat ->
                  Log.pose_at self' i k' = Log.pose_at self i k').
Proof.
  intros Hlt. unfold listener_callback, step_calculation. cbv zeta.
  set (self1 := mkServer (x_euler self) (y_euler self) (yaw_euler self)
                  (message_count self + 1)).
  destruct (members_loop_pose (rot_head (fst data) (snd data))
              (trans_head (fst data) (snd data)) draws (seq 0 101) self1)
    as (self' & E & C & F & N & Y).
  { cbn [message_count self1]. lia. }
  exists self'. split; [exact E|].
  cbn [message_count self1] in C, F, N, Y.
  replace (previous (message_count self + 1)) with (message_count self) in Y
    by (rewrite Nat.add_1_r; reflexivity).
  split; [exact C|]. split; [|split].
  - intros i Hi. apply Y. apply in_seq. lia.
  - intros i Hi. apply N. intros Hin. apply in_seq in Hin. lia.
  - exact F.
Qed.

Lemma listener_callback_index_error (self : Server) (data : R * R)
    (draws : nat -> R * R * R) :
  (MESSAGE_LIMIT <= message_count self)%nat ->
  listener_callback self data draws = Err IndexError.
Proof.
  intros Hge. unfold listener_callback, step_calculation. cbv zeta.
  change (seq 0 101) with (0%nat :: seq 1 100). cbn [for_each].
  unfold member_step at 1. cbn [message_count].
  replace (previous (message_count self + 1)) with (message_count self)
    by (rewrite Nat.add_1_r; reflexivity).
  destruct (Nat.eq_dec (message_count self) MESSAGE_LIMIT) as [Heq|Hne].
  - rewrite (check_index_ok (message_count self)) by lia. cbn [bind].
    match goal with
    | |- context [propagate ?r ?t ?er ?et ?d ?i ?st] =>
        destruct (propagate_pose r t d i st) as (pose & E & _)
    end.
    rewrite E. cbn [bind]. rewrite check_index_err by lia. reflexivity.
  - rewrite (check_index_err (message_count self)) by lia. reflexivity.
Qed.

End EnsembleRuns.

(** ** Properties of the runs of the ensemble propagator *)

Section EnsembleTheorems.
Import Task1.

(** X18.  The ensemble takes [MESSAGE_LIMIT = 2216] wheel messages: a
    message that finds [message_count] below the limit is processed,
    whatever the wheel speeds and the draws (the noise scales are sums of
    squares, so [np.random.normal] never sees a negative scale), and a
    message that finds the logs full raises [IndexError]. *)
Theorem listener_callback_outcome (self : Server) (data : R * R)
    (draws : nat -> R * R * R) :
  ((message_count self < MESSAGE_LIMIT)%nat ->
   exists self', listener_callback self data draws = Ok self' /\
                 message_count self' = (message_count self + 1)%nat) /\
  ((MESSAGE_LIMIT <= message_count self)%nat ->
   listener_callback self data draws = Err IndexError).
Proof.
  split.
  - intros Hlt.
    destruct (listener_callback_pose self data draws Hlt) as (self' & E & C & _).
    exists self'. split; assumption.
  - apply listener_callback_index_error.
Qed.

(** X18 for the first message. *)
Lemma listener_callback_outcome_witness :
  exists self', listener_callback init (1, 2) (fun _ => (0, 0, 0)) = Ok self' /\
                message_count self' = 1%nat.
Proof.
  destruct (listener_callback_outcome init (1, 2) (fun _ => (0, 0, 0))) as (Hok & _).
  apply Hok. unfold MESSAGE_LIMIT. simpl. lia.
Defined.

Lemma spin_until_limit_from (msgs : list Node1.message) :
  forall self,
    (message_count self <= MESSAGE_LIMIT)%nat ->
    exists self',
      Node1.spin_until_limit msgs self = Ok self' /\
      message_count self' = Nat.min (message_count self + length msgs) MESSAGE_LIMIT /\
      (forall i k, (k <= message_count self)%nat ->
                   Log.pose_at self' i k = Log.pose_at self i k).
Proof.
  induction msgs as [|m msgs IH]; intros self Hle.
  - exists self. cbn [Node1.spin_until_limit length].
    split; [reflexivity|]. split; [lia | reflexivity].
  - cbn [Node1.spin_until_limit length].
    destruct (Nat.ltb_spec (message_count self) MESSAGE_LIMIT) as [Hlt|Hge].
    + destruct (listener_callback_pose self (fst m) (snd m) Hlt)
        as (self1 & E & C & _ & _ & F).
      rewrite E. cbn [bind].
      destruct (IH self1) as (self' & E' & C' & F'); [lia|].
      exists self'. split; [exact E'|]. split; [lia|].
      intros i k Hk. rewrite F' by lia. apply F. lia.
    + exists self. split; [reflexivity|]. split; [lia | reflexivity].
Qed.

(** X19.  The loop of the constructor,
    [while self.message_count < MESSAGE_LIMIT: rclpy.spin_once(self)],
    never raises: it processes the messages that arrive until
    [message_count] reaches the limit and leaves the rest alone, so it
    ends with [message_count = min(n, MESSAGE_LIMIT)] after [n] messages,
    and the column [0] of the logs keeps the initial pose [(0, 0, 0)] of
    every member. *)
Theorem constructor_loop_stops_at_limit (msgs : list Node1.message) :
  exists self',
    Node1.spin_until_limit msgs init = Ok self' /\
    message_count self' = Nat.min (length msgs) MESSAGE_LIMIT /\
    forall i, Log.pose_at self' i 0 = mkvec 0 0 0.
Proof.
  destruct (spin_until_limit_from msgs init) as (self' & E & C & F).
  { unfold MESSAGE_LIMIT. simpl. lia. }
  exists self'. split; [exact E|]. split; [exact C|].
  intros i. rewrite F by lia. reflexivity.
Qed.

(** X21.  The trajectories are append-only: the messages the constructor
    loop processes leave every column up to [message_count] of every
    member as it was, and [message_count] never goes back. *)
Theorem ensemble_history_kept (msgs : list Node1.message) (self self' : Server) :
  (message_count self <= MESSAGE_LIMIT)%nat ->
  Node1.spin_until_limit msgs self = Ok self' ->
  (message_count self <= message_count self')%nat /\
  forall i k, (k <= message_count self)%nat ->
              Log.pose_at self' i k = Log.pose_at self i k.
Proof.
  intros Hle E.
  destruct (spin_until_limit_from msgs self Hle) as (self'' & E' & C & F).
  rewrite E in E'. inversion E'. subst self''. split; [lia | exact F].
Qed.

(** X21 for one message after the initial state. *)
Lemma ensemble_history_kept_witness :
  exists self',
    Node1.spin_until_limit [((1, 2), fun _ => (0, 0, 0))] init = Ok self' /\
    Log.pose_at self' 5 0 = Log.pose_at init 5 0.
Proof.
  assert (Hle : (message_count init <= MESSAGE_LIMIT)%nat).
  { unfold MESSAGE_LIMIT. simpl. lia. }
  destruct (spin_until_limit_from [((1, 2), fun _ => (0, 0, 0))] init Hle)
    as (self' & E & _).
  exists self'. split; [exact E|].
  destruct (ensemble_history_kept _ init self' Hle E) as (_ & F).
  apply F. simpl. lia.
Defined.

(** X20.  Each member of the ensemble evolves on its own: the pose a
    message stores for member [i] is a function of that member's previous
    pose, the wheel speeds and the member's own three draws.  Two runs of
    the callback with different draws agree on every member whose draws
    agree, and always on member [0], which uses no draw. *)
Theorem member_depends_on_own_draws (self : Server) (data : R * R)
    (draws draws' : nat -> R * R * R) (s1 s2 : Server) :
  listener_callback self data draws = Ok s1 ->
  listener_callback self data draws' = Ok s2 ->
  forall i k, i = 0%nat \/ draws i = draws' i ->
              Log.pose_at s1 i k = Log.pose_at s2 i k.
Proof.
  intros E1 E2 i k Hi.
  destruct (Nat.lt_ge_cases (message_count self) MESSAGE_LIMIT) as [Hlt|Hge];
    [|rewrite (listener_callback_index_error _ _ _ Hge) in E1; discriminate].
  destruct (listener_callback_pose self data draws Hlt) as (t1 & G1 & _ & Y1 & N1 & F1).
  destruct (listener_callback_pose self data draws' Hlt) as (t2 & G2 & _ & Y2 & N2 & F2).
  rewrite E1 in G1. inversion G1. subst t1.
  rewrite E2 in G2. inversion G2. subst t2.
  destruct (Nat.eq_dec k (message_count self + 1)) as [->|Hk].
  - destruct (Nat.lt_ge_cases i 101) as [Hin|Hout].
    + rewrite (Y1 i Hin), (Y2 i Hin).
      destruct Hi as [->|Hd]; [reflexivity | rewrite Hd; reflexivity].
    + rewrite (N1 i Hout), (N2 i Hout). reflexivity.
  - rewrite (F1 i k Hk), (F2 i k Hk). reflexivity.
Qed.

(** X20 for the first message, with two different families of draws. *)
Lemma member_depends_on_own_draws_witness :
  exists s1 s2,
    listener_callback init (1, 2) (fun _ => (0, 0, 0)) = Ok s1 /\
    listener_callback init (1, 2) (fun _ => (1, 1, 1)) = Ok s2 /\
    Log.pose_at s1 0 1 = Log.pose_at s2 0 1.
Proof.
  assert (Hlt : (message_count init < MESSAGE_LIMIT)%nat).
  { unfold MESSAGE_LIMIT. simpl. lia. }
  destruct (listener_callback_pose init (1, 2) (fun _ => (0, 0, 0)) Hlt) as (s1 & E1 & _).
  destruct (listener_callback_pose init (1, 2) (fun _ => (1, 1, 1)) Hlt) as (s2 & E2 & _).
  exists s1, s2. split; [exact E1|]. split; [exact E2|].
  apply (member_depends_on_own_draws init (1, 2) _ _ s1 s2 E1 E2). left. reflexivity.
Defined.

(** *** The mean trajectory *)

Lemma member_pose_zero_draws (st : vec3) (rot trans : R) (d : R * R * R) (i : nat) :
  Log.member_pose st rot trans (0, 0, 0) i = Log.member_pose st rot trans d 0.
Proof.
  unfold Log.member_pose. destruct i as [|i]; [reflexivity|].
  cbn [Nat.ltb Nat.leb fst snd]. cbv zeta.
  replace (rot + (0 + epsilon_rot rot trans * 0)) with rot by ring.
  replace (trans + (0 + epsilon_trans rot trans * 0)) with trans by ring.
  replace (v2 st + rot + rot) with (v2 st + 2 * rot) by ring. reflexivity.
Qed.

Lemma sum_of_equal (f : nat -> R) (c : R) (l : list nat) :
  forall acc,
    (forall i, In i l -> f i = c) ->
    fold_left (fun acc i => acc + f i) l acc = acc + INR (length l) * c.
Proof.
  induction l as [|i l IH]; intros acc Hc.
  - cbn [fold_left length INR]. ring.
  - cbn [fold_left]. rewrite IH by (intros j Hj; apply Hc; right; exact Hj).
    rewrite (Hc i) by (left; reflexivity).
    change (length (i :: l)) with (S (length l)). rewrite S_INR. ring.
Qed.

Lemma mean_of_equal (a : array (array R)) (k : nat) :
  (forall i, (i < 101)%nat -> a i k = a 0%nat k) ->
  (Node1.sum_members a k - a 0%nat k) / 100 = a 0%nat k.
Proof.
  intros Heq. unfold Node1.sum_members.
  rewrite (sum_of_equal (fun i => a i k) (a 0%nat k)).
  - rewrite length_seq, INR_IZR_INZ.
    change (IZR (Z.of_nat 101)) with 101. lra.
  - intros i Hi. apply in_seq in Hi. apply Heq. lia.
Qed.

Lemma zero_draws_from (msgs : list Node1.message) :
  forall self,
    (message_count self <= MESSAGE_LIMIT)%nat ->
    Forall (fun m : Node1.message => forall i, snd m i = (0, 0, 0)) msgs ->
    (forall i k, (i < 101)%nat -> Log.pose_at self i k = Log.pose_at self 0 k) ->
    exists self',
      Node1.spin_until_limit msgs self = Ok self' /\
      forall i k, (i < 101)%nat -> Log.pose_at self' i k = Log.pose_at self' 0 k.
Proof.
  induction msgs as [|m msgs IH]; intros self Hle Hz Hall.
  - exists self. split; [reflexivity | exact Hall].
  - cbn [Node1.spin_until_limit]. inversion Hz as [|m' msgs' Hm Hrest]. subst.
    destruct (Nat.ltb_spec (message_count self) MESSAGE_LIMIT) as [Hlt|Hge].
    + destruct (listener_callback_pose self (fst m) (snd m) Hlt)
        as (self1 & E & C & Y & _ & F).
      rewrite E. cbn [bind]. apply IH; [lia | exact Hrest |].
      intros i k Hi.
      destruct (Nat.eq_dec k (message_count self + 1)) as [->|Hk].
      * rewrite (Y i Hi), (Y 0%nat) by lia.
        rewrite (Hall i _ Hi), (Hm i). apply member_pose_zero_draws.
      * rewrite !(F _ k Hk). apply Hall, Hi.
    + exists self. split; [reflexivity | exact Hall].
Qed.

(** X22.  Without noise the ensemble collapses onto the expected
    trajectory: if every draw of a run is zero, every member has the pose
    of member [0] at every tick, and the mean trajectory the plot draws,
    [(sum over the 101 rows - row 0) / 100], is the trajectory of
    member [0]. *)
Theorem zero_draws_mean_is_expected (msgs : list Node1.message) :
  Forall (fun m : Node1.message => forall i, snd m i = (0, 0, 0)) msgs ->
  exists self',
    Node1.spin_until_limit msgs init = Ok self' /\
    forall k,
      (forall i, (i < 101)%nat -> Log.pose_at self' i k = Log.pose_at self' 0 k) /\
      Node1.x_mean self' k = x_euler self' 0%nat k /\
      Node1.y_mean self' k = y_euler self' 0%nat k.
Proof.
  intros Hz.
  destruct (zero_draws_from msgs init) as (self' & E & Hall).
  { unfold MESSAGE_LIMIT. simpl. lia. }
  { exact Hz. }
  { intros i k Hi. reflexivity. }
  exists self'. split; [exact E|]. intros k.
  split; [intros i Hi; apply Hall, Hi|].
  unfold Node1.x_mean, Node1.y_mean. split; apply mean_of_equal; intros i Hi;
    pose proof (Hall i k Hi) as Hp; unfold Log.pose_at in Hp; inversion Hp; reflexivity.
Qed.

(** X22 for one message. *)
Lemma zero_draws_mean_is_expected_witness :
  exists self',
    Node1.spin_until_limit [((1, 2), fun _ => (0, 0, 0))] init = Ok self' /\
    Node1.x_mean self' 1 = x_euler self' 0%nat 1%nat.
Proof.
  destruct (zero_draws_mean_is_expected [((1, 2), fun _ => (0, 0, 0))])
    as (self' & E & Hmean).
  { constructor; [intros i; reflexivity | constructor]. }
  exists self'. split; [exact E|].
  destruct (Hmean 1%nat) as (_ & Hx & _). exact Hx.
Defined.

(** *** Wheel speeds and headings *)

Lemma rest_increments : rot_head 0 0 = 0 /\ trans_head 0 0 = 0.
Proof. unfold rot_head, trans_head, INTERVAL, R_, D. split; lra. Qed.

Lemma rest_noise : epsilon_rot 0 0 = 0 /\ epsilon_trans 0 0 = 0.
Proof. unfold epsilon_rot, epsilon_trans, UNCERTAINTY_MODEL. simpl. split; lra. Qed.

(** X23.  The noise is scaled by the motion: with both wheels stopped the
    scales of the three normal draws are zero, so a message leaves every
    member at its position and at its heading (regulated once), whatever
    the draws. *)
Theorem stationary_wheels_freeze_ensemble (self : Server)
    (draws : nat -> R * R * R) (self' : Server) :
  listener_callback self (0, 0) draws = Ok self' ->
  forall i, (i < 101)%nat ->
    Log.pose_at self' i (message_count self')
    = mkvec (x_euler self i (message_count self))
            (y_euler self i (message_count self))
            (regulate (yaw_euler self i (message_count self))).
Proof.
  intros E i Hi.
  destruct (Nat.lt_ge_cases (message_count self) MESSAGE_LIMIT) as [Hlt|Hge];
    [|rewrite (listener_callback_index_error _ _ _ Hge) in E; discriminate].
  destruct (listener_callback_pose self (0, 0) draws Hlt) as (t & G & C & Y & _).
  rewrite E in G. inversion G. subst t.
  rewrite C, (Y i Hi). cbn [fst snd].
  destruct rest_increments as (-> & ->). unfold Log.member_pose, Log.pose_at.
  destruct rest_noise as (-> & ->). cbn [v0 v1 v2]. cbv zeta.
  destruct (Nat.ltb 0 i); apply mkvec_eq; try ring; f_equal; ring.
Qed.

(** X23 for the first message. *)
Lemma stationary_wheels_freeze_ensemble_witness :
  exists self',
    listener_callback init (0, 0) (fun _ => (1, 1, 1)) = Ok self' /\
    Log.pose_at self' 7 (message_count self') = mkvec 0 0 (regulate 0).
Proof.
  assert (Hlt : (message_count init < MESSAGE_LIMIT)%nat).
  { unfold MESSAGE_LIMIT. simpl. lia. }
  destruct (listener_callback_pose init (0, 0) (fun _ => (1, 1, 1)) Hlt) as (self' & E & _).
  exists self'. split; [exact E|].
  apply (stationary_wheels_freeze_ensemble init _ self' E 7%nat). lia.
Defined.

Lemma regulate_bounded (a : R) :
  -3 * PI <= a <= 3 * PI -> - PI <= regulate a <= PI.
Proof.
  intros Ha. unfold regulate.
  destruct (Rgt_dec a PI); [lra|]. destruct (Rlt_dec a (- PI)); lra.
Qed.

(** X24.  Regulating a heading never changes the direction it stands for:
    [regulate] keeps the cosine and the sine, is the identity on
    [[-π, π]], and brings every angle of [[-3π, 3π]] into [[-π, π]]. *)
Theorem regulate_keeps_heading (a : R) :
  cos (regulate a) = cos a /\
  sin (regulate a) = sin a /\
  (- PI <= a <= PI -> regulate a = a) /\
  (-3 * PI <= a <= 3 * PI -> - PI <= regulate a <= PI).
Proof.
  split; [|split; [|split]].
  - unfold regulate. destruct (Rgt_dec a PI).
    + rewrite <- (cos_period (a - 2 * PI) 1). f_equal. simpl INR. ring.
    + destruct (Rlt_dec a (- PI)); [|reflexivity].
      rewrite <- (cos_period a 1). f_equal. simpl INR. ring.
  - unfold regulate. destruct (Rgt_dec a PI).
    + rewrite <- (sin_period (a - 2 * PI) 1). f_equal. simpl INR. ring.
    + destruct (Rlt_dec a (- PI)); [|reflexivity].
      rewrite <- (sin_period a 1). f_equal. simpl INR. ring.
  - intros Ha. unfold regulate.
    destruct (Rgt_dec a PI); [lra|]. destruct (Rlt_dec a (- PI)); [lra | reflexivity].
  - apply regulate_bounded.
Qed.

(** X24 at the heading [0]. *)
Lemma regulate_keeps_heading_witness : regulate 0 = 0.
Proof.
  destruct (regulate_keeps_heading 0) as (_ & _ & Hid & _).
  apply Hid. pose proof PI_RGT_0. lra.
Defined.

Lemma twice_rot_head_bounded (wl wr : R) :
  Rabs (wr - wl) <= 2400 -> -2 * PI <= 2 * rot_head wl wr <= 2 * PI.
Proof.
  intros Hd.
  assert (Hb : -2400 <= wr - wl <= 2400).
  { pose proof (Rle_abs (wr - wl)). pose proof (Rle_abs (- (wr - wl))) as H2.
    rewrite Rabs_Ropp in H2. lra. }
  assert (E : 2 * rot_head wl wr = (wr - wl) * PI / 1200).
  { unfold rot_head, INTERVAL, R_, D. lra. }
  rewrite E. pose proof PI_RGT_0. split; nra.
Qed.

Lemma noiseless_yaw_from (msgs : list Node1.message) :
  forall self,
    (message_count self <= MESSAGE_LIMIT)%nat ->
    Forall (fun m : Node1.message => Rabs (snd (fst m) - fst (fst m)) <= 2400) msgs ->
    (forall k, - PI <= yaw_euler self 0%nat k <= PI) ->
    exists self',
      Node1.spin_until_limit msgs self = Ok self' /\
      forall k, - PI <= yaw_euler self' 0%nat k <= PI.
Proof.
  induction msgs as [|m msgs IH]; intros self Hle Hw Hin.
  - exists self. split; [reflexivity | exact Hin].
  - cbn [Node1.spin_until_limit]. inversion Hw as [|m' msgs' Hm Hrest]. subst.
    destruct (Nat.ltb_spec (message_count self) MESSAGE_LIMIT) as [Hlt|Hge].
    + destruct (listener_callback_pose self (fst m) (snd m) Hlt)
        as (self1 & E & C & Y & _ & F).
      rewrite E. cbn [bind]. apply IH; [lia | exact Hrest |].
      intros k.
      destruct (Nat.eq_dec k (message_count self + 1)) as [->|Hk].
      * pose proof (Y 0%nat ltac:(lia)) as Hp.
        unfold Log.pose_at, Log.member_pose in Hp. cbn [Nat.ltb Nat.leb v2] in Hp.
        inversion Hp as [[Hx Hy Hyaw]]. rewrite Hyaw.
        apply regulate_bounded.
        pose proof (twice_rot_head_bounded _ _ Hm).
        pose proof (Hin (message_count self)). lra.
      * pose proof (F 0%nat k Hk) as Hp. unfold Log.pose_at in Hp.
        inversion Hp as [[Hx Hy Hyaw]]. rewrite Hyaw. apply Hin.
    + exists self. split; [reflexivity | exact Hin].
Qed.

(** X25.  The expected heading stays regulated along a run: as long as
    the wheel speeds of every message differ by at most [2400] (rpm),
    which bounds the heading increment of a tick by a full turn, the
    heading of member [0] lies in [[-π, π]] at every tick. *)
Theorem noiseless_yaw_stays_in_range (msgs : list Node1.message) :
  Forall (fun m : Node1.message => Rabs (snd (fst m) - fst (fst m)) <= 2400) msgs ->
  exists self',
    Node1.spin_until_limit msgs init = Ok self' /\
    forall k, - PI <= yaw_euler self' 0%nat k <= PI.
Proof.
  intros Hw. apply noiseless_yaw_from; [unfold MESSAGE_LIMIT; simpl; lia | exact Hw |].
  intros k. cbn [init yaw_euler]. pose proof PI_RGT_0. lra.
Qed.

(** X25 for one message. *)
Lemma noiseless_yaw_stays_in_range_witness :
  exists self',
    Node1.spin_until_limit [((1, 2), fun _ => (0, 0, 0))] init = Ok self' /\
    - PI <= yaw_euler self' 0%nat 1%nat <= PI.
Proof.
  destruct (noiseless_yaw_stays_in_range [((1, 2), fun _ => (0, 0, 0))])
    as (self' & E & Hin).
  { constructor; [|constructor]. cbn [fst snd].
    replace (2 - 1) with 1 by ring. rewrite Rabs_R1. lra. }
  exists self'. split; [exact E | apply Hin].
Defined.

(** X26.  Each member moves by its own translation increment: a message
    displaces member [0] by exactly [trans_head], and member [i > 0] by
    [trans_head] plus its translation draw scaled by [epsilon_trans]. *)
Theorem ensemble_step_length (self : Server) (data : R * R)
    (draws : nat -> R * R * R) (self' : Server) :
  listener_callback self data draws = Ok self' ->
  forall i, (i < 101)%nat ->
    let rot := rot_head (fst data) (snd data) in
    let trans := trans_head (fst data) (snd data) in
    let sigma_trans :=
      if Nat.ltb 0 i then trans + epsilon_trans rot trans * snd (draws i)
      else trans in
    (x_euler self' i (message_count self') - x_euler self i (message_count self)) ^ 2
    + (y_euler self' i (message_count self') - y_euler self i (message_count self)) ^ 2
    = sigma_trans ^ 2.
Proof.
  intros E i Hi. cbv zeta.
  destruct (Nat.lt_ge_cases (message_count self) MESSAGE_LIMIT) as [Hlt|Hge];
    [|rewrite (listener_callback_index_error _ _ _ Hge) in E; discriminate].
  destruct (listener_callback_pose self data draws Hlt) as (t & G & C & Y & _).
  rewrite E in G. inversion G. subst t.
  pose proof (Y i Hi) as Hp. rewrite <- C in Hp.
  unfold Log.pose_at, Log.member_pose in Hp. cbn [v0 v1 v2] in Hp.
  destruct (Nat.ltb 0 i); cbv zeta in Hp; inversion Hp as [[Hx Hy Hyaw]];
    rewrite Hx, Hy;
    match goal with
    | |- (_ + ?s * cos ?a - _) ^ 2 + _ = _ =>
        transitivity (s ^ 2 * (sin a * sin a + cos a * cos a));
        [ring | pose proof (sin2_cos2 a) as Hsc; unfold Rsqr in Hsc; rewrite Hsc; ring]
    end.
Qed.

(** X26 for member [0] at the first message. *)
Lemma ensemble_step_length_witness :
  exists self',
    listener_callback init (1, 2) (fun _ => (0, 0, 0)) = Ok self' /\
    (x_euler self' 0%nat (message_count self') - x_euler init 0%nat (message_count init)) ^ 2
    + (y_euler self' 0%nat (message_count self') - y_euler init 0%nat (message_count init)) ^ 2
    = trans_head 1 2 ^ 2.
Proof.
  assert (Hlt : (message_count init < MESSAGE_LIMIT)%nat).
  { unfold MESSAGE_LIMIT. simpl. lia. }
  destruct (listener_callback_pose init (1, 2) (fun _ => (0, 0, 0)) Hlt) as (self' & E & _).
  exists self'. split; [exact E|].
  apply (ensemble_step_length init (1, 2) _ self' E 0%nat). lia.
Defined.

End EnsembleTheorems.
